(** * web_establishment_bot: session pool, login retry, order-code tracking

    A shallow embedding of the parts of the bot's main module (the source
    part holding [BrowserPool], [waitRandomTime], [checkForDeliveryIssue],
    [searchAndClickOrderCodes], [performLogin], [checkListAndClick]) and of
    [src/test-integrated.ts] ([testIntegrated]) that the specification's
    testable properties talk about.

    Conventions.
    - JavaScript objects that are shared by reference ([BrowserProfile]
      objects handed out by the pool and mutated by callers) live in an
      explicit object store; the pool's [available] and [used] arrays hold
      references into it.
    - Calls into the browser driver, the mail channel and the clock are
      answered by an environment record (an oracle); an exception raised by
      such a call is one of the oracle's answers.
    - Milliseconds, seconds and counters are integers ([Z]). *)

From Stdlib Require Import List String Ascii ZArith Lia Bool QArith Qround DecimalString.
From Stdlib Require Import Permutation FinFun.
Import ListNotations.
Open Scope string_scope.
Open Scope list_scope.
Open Scope Z_scope.

Set Implicit Arguments.

(** ** String helpers (the JavaScript string methods the code calls) *)
Module Str.

(** [s.replaceAll(pat, rep)] for a non-empty literal pattern and a
    replacement without [$] escapes: occurrences are found left to right
    and do not overlap.  [skip] counts the characters of a match still to
    be dropped. *)
Fixpoint replaceAllFrom (pat rep : string) (skip : nat) (s : string) : string :=
  match s with
  | EmptyString => EmptyString
  | String c rest =>
      match skip with
      | S k => replaceAllFrom pat rep k rest
      | O =>
          if String.prefix pat s
          then (rep ++ replaceAllFrom pat rep (String.length pat - 1) rest)%string
          else String c (replaceAllFrom pat rep 0 rest)
      end
  end.

Definition replaceAll (pat rep s : string) : string :=
  replaceAllFrom pat rep 0 s.

Fixpoint repeatChar (c : ascii) (n : nat) : string :=
  match n with
  | O => EmptyString
  | S k => String c (repeatChar c k)
  end.

(** [s.padStart(n, c)] for a one-character pad string. *)
Definition padStart (n : nat) (c : ascii) (s : string) : string :=
  (repeatChar c (n - String.length s) ++ s)%string.

(** [i.toString()] for an integer. *)
Definition toString (i : Z) : string := NilZero.string_of_int (Z.to_int i).

(** [hay.includes(needle)]. *)
Fixpoint includes (hay needle : string) : bool :=
  String.prefix needle hay
  || match hay with
     | EmptyString => false
     | String _ rest => includes rest needle
     end.

Definition lowerChar (c : ascii) : ascii :=
  let n := nat_of_ascii c in
  if (Nat.leb 65 n && Nat.leb n 90)%bool then ascii_of_nat (n + 32) else c.

Definition upperChar (c : ascii) : ascii :=
  let n := nat_of_ascii c in
  if (Nat.leb 97 n && Nat.leb n 122)%bool then ascii_of_nat (n - 32) else c.

Fixpoint mapChars (f : ascii -> ascii) (s : string) : string :=
  match s with
  | EmptyString => EmptyString
  | String c rest => String (f c) (mapChars f rest)
  end.

(** [toLowerCase] / [toUpperCase] on ASCII text. *)
Definition toLowerCase : string -> string := mapChars lowerChar.
Definition toUpperCase : string -> string := mapChars upperChar.

Definition isSpace (c : ascii) : bool :=
  let n := nat_of_ascii c in
  (Nat.eqb n 32 || (Nat.leb 9 n && Nat.leb n 13))%bool.

Fixpoint trimStart (s : string) : string :=
  match s with
  | EmptyString => EmptyString
  | String c rest => if isSpace c then trimStart rest else s
  end.

Fixpoint trimEnd (s : string) : string :=
  match s with
  | EmptyString => EmptyString
  | String c rest =>
      match trimEnd rest with
      | EmptyString => if isSpace c then EmptyString else String c EmptyString
      | t => String c t
      end
  end.

(** [s.trim()] on ASCII white space. *)
Definition trim (s : string) : string := trimEnd (trimStart s).

(** [arr.includes(x)] on an array of strings. *)
Definition inList (x : string) (l : list string) : bool :=
  existsb (String.eqb x) l.

End Str.

(** ** [waitRandomTime] *)
Module Wait.

(** The pseudo-random generator behind [Math.random()]: the sequence of
    values it will return, and how many have been drawn. *)
Record Rng : Type := mkRng {
  draws : nat -> Q;
  drawn : nat
}.

(** [Math.random()] *)
Definition random (g : Rng) : Q * Rng :=
  (draws g (drawn g), mkRng (draws g) (S (drawn g))).

(** [waitRandomTime(minMs, maxMs)]: the delay handed to [setTimeout],
    and the generator afterwards. *)
Definition waitRandomTime (minMs maxMs : Z) (g : Rng) : Z * Rng :=
  let waitTime := minMs in
  if minMs >? maxMs then
    let (minMs', maxMs') := (maxMs, minMs) in
    let (r, g') := random g in
    (Qfloor (r * inject_Z (maxMs' - minMs' + 1)) + minMs', g')
  else (waitTime, g).

End Wait.

(** ** The session pool: [BrowserProfile] and [class BrowserPool] *)
Module Pool.

(** A reference to a JavaScript object of type [BrowserProfile]. *)
Definition Ref := nat.

(** A [puppeteer.Browser] handle. *)
Definition Browser := nat.

(** [interface BrowserProfile].  [protected] is an optional field:
    [None] is JavaScript's [undefined]. *)
Record BrowserProfile : Type := mkProfile {
  profile : string;
  pid : string;
  instance : Z;
  browser : option Browser;
  usedSince : option Z;          (* Date, as epoch milliseconds *)
  protected : option bool
}.

(** JavaScript truthiness of the optional boolean. *)
Definition truthy (b : option bool) : bool :=
  match b with Some true => true | _ => false end.

(** The fields of [BotConfig] read by the pool. *)
Record BotConfig : Type := mkConfig {
  userDataPath : string;         (* config.browser.userDataPath *)
  poolSize : option Z            (* config.browser.poolSize?: number *)
}.

(** What the pool writes: log lines and calls on browsers and processes. *)
Inductive Event : Type :=
| LogInitialized (poolSize : Z)
| LogNoAvailable
| LogAllocated (path : string) (remaining : nat)
| LogDeletedPid (path : string)
| ErrDeletePid (path : string)
| LogReturned (inst : Z) (nAvailable : nat)
| WarnUnknownReturn (inst : Z)
| LogNoUsed
| LogChecking (maxTimeSeconds : Z)
| LogProtectedSkip (inst : Z)
| LogOverAge (inst : Z) (age : Z)
| LogWithinLimit (inst : Z) (age : Z)
| CallManageTabs (p : Ref) (b : Browser)
| CallClose (p : Ref) (b : Browser)
| CallWaitRandomTime (minMs maxMs : Z)
| CallKill (pidFile : string)
| ErrClosing (inst : Z)
| LogSweepDone (processed closed : Z).

(** The program state the pool works on: the object store, the two arrays
    of the [BrowserPool] instance, the PID marker files that exist, and
    the events emitted so far. *)
Record State : Type := mkState {
  store : Ref -> BrowserProfile;
  nextRef : Ref;                 (* next fresh object *)
  available : list Ref;
  used : list Ref;
  files : list string;
  events : list Event
}.

Definition upd (s : Ref -> BrowserProfile) (r : Ref) (v : BrowserProfile)
  : Ref -> BrowserProfile :=
  fun r' => if Nat.eqb r' r then v else s r'.

Definition emit (e : Event) (st : State) : State :=
  mkState (store st) (nextRef st) (available st) (used st) (files st)
          (events st ++ [e]).

Definition fileExists (path : string) (st : State) : bool :=
  Str.inList path (files st).

Definition removeFile (path : string) (fs : list string) : list string :=
  filter (fun f => negb (String.eqb f path)) fs.

Section WithConfig.
Variable config : BotConfig.

(** [this.config.browser.poolSize || 3]: [undefined] and [0] give 3. *)
Definition effectivePoolSize : Z :=
  match poolSize config with
  | None => 3
  | Some 0 => 3
  | Some n => n
  end.

Definition getProfilePath (instanceNum : string) : string :=
  Str.replaceAll "{__instance__}" instanceNum (userDataPath config).

Definition getPidFilePath (instanceNum : string) : string :=
  (getProfilePath instanceNum ++ "/pid.txt")%string.

(** [i.toString().padStart(2, '0')] *)
Definition instanceNumOf (i : Z) : string :=
  Str.padStart 2 "0"%char (Str.toString i).

(** One round of the [for] loop of [initPool]. *)
Definition initSlot (st : State) (i : Z) : State :=
  let instanceNum := instanceNumOf i in
  let obj := mkProfile (getProfilePath instanceNum)
                       (getPidFilePath instanceNum) i None None None in
  let r := nextRef st in
  mkState (upd (store st) r obj) (S r) (available st ++ [r]) (used st)
          (files st) (events st).

(** The values [i] takes in [for (let i = 1; i <= poolSize; i++)]. *)
Definition slotNumbers (n : Z) : list Z :=
  map (fun k => Z.of_nat k) (seq 1 (Z.to_nat n)).

Definition initPool (st : State) : State :=
  let n := effectivePoolSize in
  emit (LogInitialized n) (fold_left initSlot (slotNumbers n) st).

(** [new BrowserPool(config)] in a store [s0] whose next free
    reference is [n0]: both arrays start empty, then [initPool] runs. *)
Definition newPool (s0 : Ref -> BrowserProfile) (n0 : Ref)
           (fs : list string) : State :=
  initPool (mkState s0 n0 [] [] fs []).

(** [getBrowserProfile(context)]; [now] is the value of [new Date()]. *)
Definition getBrowserProfile (context : string) (now : Z) (st : State)
  : option Ref * State :=
  match available st with
  | [] => (None, emit LogNoAvailable st)
  | r :: rest =>
      let o := store st r in
      let o' := mkProfile
                  (Str.replaceAll "{__context__}" context (profile o))
                  (Str.replaceAll "{__context__}" context (pid o))
                  (instance o) (browser o) (Some now) (protected o) in
      (Some r,
       emit (LogAllocated (profile o') (List.length rest))
            (mkState (upd (store st) r o') (nextRef st) rest
                     (used st ++ [r]) (files st) (events st)))
  end.

(** [arr.findIndex(pred)], [None] for -1. *)
Fixpoint findIndex (A : Type) (pred : A -> bool) (l : list A) : option nat :=
  match l with
  | [] => None
  | x :: rest =>
      if pred x then Some O
      else match findIndex pred rest with
           | Some i => Some (S i)
           | None => None
           end
  end.

(** [arr.splice(index, 1)]: the array without element [index]. *)
Fixpoint removeAt (A : Type) (index : nat) (l : list A) : list A :=
  match l, index with
  | [], _ => []
  | _ :: rest, O => rest
  | x :: rest, S i => x :: removeAt i rest
  end.

(** [returnBrowserProfile(profile, deleteFile)].  The object that is
    reset and pushed is the argument; the array entry that is removed
    is the first one with the same [instance].  [unlinkFails] tells
    whether [unlinkSync(profile.pid)] raises if it is called: the error
    is caught and logged there, and the file stays. *)
Definition returnBrowserProfile (p : Ref) (deleteFile : bool)
           (unlinkFails : bool) (st : State) : State :=
  let o := store st p in
  match findIndex (fun q => Z.eqb (instance (store st q)) (instance o))
                  (used st) with
  | Some index =>
      let used' := removeAt index (used st) in
      let st1 := mkState (store st) (nextRef st) (available st) used'
                         (files st) (events st) in
      let st2 :=
        if (deleteFile && fileExists (pid o) st1)%bool
        then
          if unlinkFails
          then emit (ErrDeletePid (pid o)) st1
          else emit (LogDeletedPid (pid o))
                    (mkState (store st1) (nextRef st1) (available st1)
                             (used st1) (removeFile (pid o) (files st1))
                             (events st1))
        else st1 in
      let instanceNum := instanceNumOf (instance o) in
      let o' := mkProfile (getProfilePath instanceNum)
                          (getPidFilePath instanceNum)
                          (instance o) None None (protected o) in
      let st3 := mkState (upd (store st2) p o') (nextRef st2)
                         (available st2 ++ [p]) (used st2)
                         (files st2) (events st2) in
      emit (LogReturned (instance o) (List.length (available st3))) st3
  | None => emit (WarnUnknownReturn (instance o)) st
  end.

Definition availableCount (st : State) : nat := List.length (available st).
Definition usedCount (st : State) : nat := List.length (used st).

(** [getProfileAgeInSeconds(profile)] at clock value [now]. *)
Definition getProfileAgeInSeconds (now : Z) (o : BrowserProfile) : Z :=
  match usedSince o with
  | None => 0
  | Some since => (now - since) / 1000
  end.

(** What the outside world answers while one profile is checked by
    [forceCloseBrowsersOlderThan]: the clock read by
    [getProfileAgeInSeconds], whether [browser.close()] rejects,
    whether the process named in the PID file is still running, and
    whether [unlinkSync] raises when the slot is released. *)
Record SweepEnv : Type := mkSweepEnv {
  clock : Z;
  closeRaises : bool;
  pidRunning : bool;
  unlinkRaises : bool
}.

(** The counters [{ processed, closed }]. *)
Record SweepResult : Type := mkSweepResult {
  processed : Z;
  closed : Z
}.

(** The body of [for (const profile of usedProfilesToCheck)]. *)
Definition sweepOne (maxTimeSeconds : Z) (env : Ref -> SweepEnv)
           (acc : State * SweepResult) (p : Ref) : State * SweepResult :=
  let (st, result) := acc in
  let o := store st p in
  let ageInSeconds := getProfileAgeInSeconds (clock (env p)) o in
  let result := mkSweepResult (processed result + 1) (closed result) in
  if ageInSeconds >=? maxTimeSeconds then
    if truthy (protected o) then
      (emit (LogProtectedSkip (instance o)) st, result)
    else
      let st := emit (LogOverAge (instance o) ageInSeconds) st in
      (* try { if (profile.browser) { tabs; close } ... *)
      let closing : State * bool :=
        match browser o with
        | Some b =>
            let st := emit (CallClose p b) (emit (CallManageTabs p b) st) in
            (st, closeRaises (env p))
        | None => (st, false)
        end in
      let (st, raised) := closing in
      if raised then
        (* } catch (error) { logMessage(..., 'ERROR') } *)
        (emit (ErrClosing (instance o)) st, result)
      else
        let st := emit (CallWaitRandomTime 2000 2000) st in
        let st := if (fileExists (pid o) st && pidRunning (env p))%bool
                  then emit (CallKill (pid o)) st else st in
        (returnBrowserProfile p true (unlinkRaises (env p)) st,
         mkSweepResult (processed result) (closed result + 1))
  else
    (emit (LogWithinLimit (instance o) ageInSeconds) st, result).

(** [forceCloseBrowsersOlderThan(maxTimeSeconds)], run without other
    tasks interleaving at its [await]s. *)
Definition forceCloseBrowsersOlderThan (maxTimeSeconds : Z)
           (env : Ref -> SweepEnv) (st : State) : State * SweepResult :=
  match used st with
  | [] => (emit LogNoUsed st, mkSweepResult 0 0)
  | _ =>
      let usedProfilesToCheck := used st in
      let (st', result) :=
        fold_left (sweepOne maxTimeSeconds env) usedProfilesToCheck
                  (emit (LogChecking maxTimeSeconds) st, mkSweepResult 0 0) in
      (emit (LogSweepDone (processed result) (closed result)) st', result)
  end.

(** A caller of the pool: one call of its public allocation methods,
    with what the clock or the file system answers during the call. *)
Inductive PoolCall : Type :=
| Allocate (context : string) (now : Z)
| Release (p : Ref) (deleteFile : bool) (unlinkFails : bool).

Definition runCall (st : State) (c : PoolCall) : State :=
  match c with
  | Allocate context now => snd (getBrowserProfile context now st)
  | Release p deleteFile unlinkFails =>
      returnBrowserProfile p deleteFile unlinkFails st
  end.

Definition runCalls (calls : list PoolCall) (st : State) : State :=
  fold_left runCall calls st.

End WithConfig.

(** The [instance] number of the object behind a reference. *)
Definition instOf (st : State) (r : Ref) : Z := instance (store st r).

(** A caller's assignment [profile.protected = b] through a reference it
    holds. *)
Definition setProtected (p : Ref) (b : bool) (st : State) : State :=
  let o := store st p in
  mkState (upd (store st) p
               (mkProfile (profile o) (pid o) (instance o) (browser o)
                          (usedSince o) (Some b)))
          (nextRef st) (available st) (used st) (files st) (events st).

(** [writeFileSync(profile.pid, ...)] *)
Definition writePidFile (p : Ref) (st : State) : State :=
  mkState (store st) (nextRef st) (available st) (used st)
          (pid (store st p) :: files st) (events st).

(** [checkFilePidIsRunning(profile.pid, true)] when the process is not
    running: a PID file left over is deleted. *)
Definition dropStalePidFile (p : Ref) (st : State) : State :=
  mkState (store st) (nextRef st) (available st) (used st)
          (removeFile (pid (store st p)) (files st)) (events st).

(** A caller's assignment [profile.browser = b]. *)
Definition setBrowser (p : Ref) (b : Browser) (st : State) : State :=
  let o := store st p in
  mkState (upd (store st) p
               (mkProfile (profile o) (pid o) (instance o) (Some b)
                          (usedSince o) (protected o)))
          (nextRef st) (available st) (used st) (files st) (events st).

End Pool.

(** ** Classification of an order page and the search over order codes *)
Module Tracker.

(** [OrderResult.status] *)
Inductive Status : Type := success | failure.

(** [interface OrderResult]; the timestamp is left out. *)
Record OrderResult : Type := mkOrderResult {
  orderCode : string;
  account : string;
  status : Status;
  issueDetails : option string
}.

(** [global.orderCodeTracking] *)
Record Tracking : Type := mkTracking {
  valid : list string;
  processed : list string;
  notFound : list string
}.

(** The two globals the pipeline shares; [None] is [undefined]. *)
Record Globals : Type := mkGlobals {
  orderCodeTracking : option Tracking;
  orderResults : option (list OrderResult)
}.

(** *** [checkForDeliveryIssue] *)

(** How the search for an issue element (the inner [try], strategies 0
    to 4 and the text extraction) ends: it raises, finds no element, or
    extracts the text of one. *)
Inductive ElementSearch : Type :=
| ElemRaises
| ElemNone
| ElemText (text : string).

(** The page as [checkForDeliveryIssue] sees it.  [pageText] and
    [allText] answer the two [page.evaluate] calls of the fallback; [None]
    means the call rejects. *)
Record CheckEnv : Type := mkCheckEnv {
  elementSearch : ElementSearch;
  pageText : option string;
  allText : option string
}.

(** The value [checkForDeliveryIssue] resolves to. *)
Record IssueCheck : Type := mkIssueCheck {
  hasIssue : bool;
  issueText : option string
}.

(** JavaScript truthiness of a string. *)
Definition nonEmpty (s : string) : bool := negb (String.eqb s "").

Definition hasIssueContent (text : string) : bool :=
  let l := Str.toLowerCase text in
  (Str.includes l "delivery issue" || Str.includes l "missing food"
   || Str.includes l "issue" || Str.includes l "dispute"
   || Str.includes l "reported")%bool.

(** [issueText] when the inner [try ... catch (elementError)] is left. *)
Definition elementPhase (e : ElementSearch) : option string :=
  match e with
  | ElemRaises => None
  | ElemNone => None
  | ElemText t =>
      if (nonEmpty t && Nat.ltb 0 (String.length (Str.trim t)))%bool
      then if hasIssueContent t then Some t else None
      else None
  end.

Definition hasAnyIssue (text : string) : bool :=
  let l := Str.toLowerCase text in
  (Str.includes l "delivery issue" || Str.includes l "missing food"
   || Str.includes l "issue dispute"
   || (Str.includes l "issues related to this order"
       && (Str.includes l "reported" || Str.includes l "missing"
           || Str.includes l "late")))%bool.

(** The text the fallback cuts out of the page body. *)
Definition extractFrom (text : string) : string :=
  let l := Str.toLowerCase text in
  match String.index 0 "issues related to this order" l with
  | Some i => Str.trim (String.substring i 800 text)
  | None =>
  match String.index 0 "issue dispute" l with
  | Some i => Str.trim (String.substring i 1000 text)
  | None =>
  match String.index 0 "delivery issue" l with
  | Some i => Str.trim (String.substring i 500 text)
  | None =>
  match String.index 0 "missing food" l with
  | Some i => Str.trim (String.substring i 500 text)
  | None => ""
  end end end end.

Definition finalHasIssue (text : string) : bool :=
  let l := Str.toLowerCase text in
  (nonEmpty text
   && (Str.includes l "delivery issue" || Str.includes l "missing food"
       || Str.includes l "issue dispute" || Str.includes l "dispute is pending"
       || Str.includes l "issues related to this order"
       || (Str.includes l "reported" && Str.includes l "order")))%bool.

(** The body of the outer [try]: [None] when an exception leaves it. *)
Definition checkBody (env : CheckEnv) : option IssueCheck :=
  let afterFallback : option (option string) :=
    match elementPhase (elementSearch env) with
    | Some t => Some (Some t)
    | None =>
        match pageText env with
        | None => None
        | Some body =>
            if hasAnyIssue body then
              match allText env with
              | None => None
              | Some a => Some (Some (extractFrom a))
              end
            else Some None
        end
    end in
  match afterFallback with
  | None => None
  | Some text =>
      let found := match text with
                   | Some t => finalHasIssue t
                   | None => false
                   end in
      Some (mkIssueCheck found (if found then text else None))
  end.

(** [checkForDeliveryIssue(page, orderCode)]: the [catch] of the outer
    [try] returns [{ hasIssue: false }]. *)
Definition checkForDeliveryIssue (env : CheckEnv) : IssueCheck :=
  match checkBody env with
  | Some r => r
  | None => mkIssueCheck false None
  end.

(** *** [searchAndClickOrderCodes] *)

(** What happens to one row of the search result: it is passed over (no
    match, date mismatch, or an error before the order page opened), or
    its order page is opened and classified; [backRaises] tells whether
    going back to the list raised afterwards. *)
Inductive RowOutcome : Type :=
| RowSkipped
| RowOpened (code : string) (check : CheckEnv) (backRaises : bool).

(** What the search for one code gives: nothing usable (no search
    input, no rows before the timeout, an empty table, an error), or the
    rows of the result table. *)
Inductive SearchOutcome : Type :=
| SearchFailed
| SearchRows (rows : list RowOutcome).

(** The local arrays of [searchAndClickOrderCodes] and the globals. *)
Record SearchState : Type := mkSearchState {
  clicked : list string;
  localNotFound : list string;
  localProcessed : list string;
  globals : Globals
}.

(** [if (!globalTracking.processed.includes(targetCode)) push] *)
Definition markProcessed (targetCode : string) (g : Globals) : Globals :=
  match orderCodeTracking g with
  | None => g
  | Some t =>
      if Str.inList targetCode (processed t) then g
      else mkGlobals
             (Some (mkTracking (valid t) (processed t ++ [targetCode])
                               (notFound t)))
             (orderResults g)
  end.

(** [global.orderResults.push(result)], creating the array if needed. *)
Definition pushResult (r : OrderResult) (g : Globals) : Globals :=
  mkGlobals (orderCodeTracking g)
            (Some (match orderResults g with
                   | Some l => l ++ [r]
                   | None => [r]
                   end)).

(** [accountUsername || 'unknown'] *)
Definition accountName (accountUsername : option string) : string :=
  match accountUsername with
  | Some u => if nonEmpty u then u else "unknown"
  | None => "unknown"
  end.

(** The [OrderResult] stored for an opened order page. *)
Definition resultFor (code : string) (accountUsername : option string)
           (check : CheckEnv) : OrderResult :=
  let issueCheck := checkForDeliveryIssue check in
  mkOrderResult code (accountName accountUsername)
                (if hasIssue issueCheck then failure else success)
                (issueText issueCheck).

(** The statements from [clicked.push] to the stored result. *)
Definition openRow (targetCode code : string) (accountUsername : option string)
           (check : CheckEnv) (st : SearchState) : SearchState :=
  mkSearchState (clicked st ++ [targetCode]) (localNotFound st)
                (localProcessed st ++ [targetCode])
                (pushResult (resultFor code accountUsername check)
                            (markProcessed targetCode (globals st))).

(** [for (const orderInfo of orderData)]: returns [foundMatch] and the
    state.  A row whose way back raised does not reach [break]. *)
Fixpoint scanRows (targetCode : string) (accountUsername : option string)
         (rows : list RowOutcome) (foundMatch : bool) (st : SearchState)
  : bool * SearchState :=
  match rows with
  | [] => (foundMatch, st)
  | RowSkipped :: rest => scanRows targetCode accountUsername rest foundMatch st
  | RowOpened code check backRaises :: rest =>
      let st' := openRow targetCode code accountUsername check st in
      if backRaises then scanRows targetCode accountUsername rest true st'
      else (true, st')
  end.

Definition pushNotFound (targetCode : string) (st : SearchState) : SearchState :=
  mkSearchState (clicked st) (localNotFound st ++ [targetCode])
                (localProcessed st) (globals st).

(** One round of [for (const targetCode of normalizedCodes)]; [k] is
    the position of the code in the list. *)
Definition searchOne (alreadyProcessed : list string)
           (accountUsername : option string) (search : nat -> SearchOutcome)
           (st : SearchState) (entry : nat * string) : SearchState :=
  let (k, targetCode) := entry in
  if Str.inList targetCode alreadyProcessed then st
  else
    match search k with
    | SearchFailed => pushNotFound targetCode st
    | SearchRows rows =>
        let (foundMatch, st') :=
          scanRows targetCode accountUsername rows false st in
        if foundMatch then st' else pushNotFound targetCode st'
    end.

Definition normalize (code : string) : string :=
  Str.toUpperCase (Str.trim code).

(** The codes with their positions. *)
Definition indexed (codes : list string) : list (nat * string) :=
  combine (seq 0 (List.length codes)) codes.

(** The value [searchAndClickOrderCodes] resolves to. *)
Record SearchResult : Type := mkSearchResult {
  clickedCount : nat;
  resultNotFound : list string;
  resultProcessed : list string
}.

(** [searchAndClickOrderCodes(page, orderCodes, config, accountUsername)] *)
Definition searchAndClickOrderCodes (orderCodes : list string)
           (accountUsername : option string) (search : nat -> SearchOutcome)
           (g : Globals) : SearchResult * Globals :=
  let normalizedCodes := map normalize orderCodes in
  let alreadyProcessed :=
    match orderCodeTracking g with
    | Some t => processed t
    | None => []
    end in
  let st := fold_left (searchOne alreadyProcessed accountUsername search)
                      (indexed normalizedCodes)
                      (mkSearchState [] [] [] g) in
  (mkSearchResult (List.length (clicked st)) (localNotFound st)
                  (localProcessed st),
   globals st).

(** *** The update of the shared tracking in [testIntegrated] *)

(** [[...new Set(l)]]: first occurrences, in order. *)
Definition dedupe (l : list string) : list string :=
  fold_left (fun acc x => if Str.inList x acc then acc else acc ++ [x]) l [].

(** [for (const notFoundCode of searchResult.notFound) ...] *)
Definition addNotFound (processedSet : list string)
           (acc : list string) (notFoundCode : string) : list string :=
  if (negb (Str.inList notFoundCode processedSet)
      && negb (Str.inList notFoundCode acc))%bool
  then acc ++ [notFoundCode] else acc.

(** The block "Update global tracking (shared across all accounts)". *)
Definition updateTracking (searchResult : SearchResult) (g : Globals) : Globals :=
  match orderCodeTracking g with
  | None => g
  | Some t =>
      let processed' := dedupe (processed t ++ resultProcessed searchResult) in
      let notFound' :=
        filter (fun code => negb (Str.inList code processed')) (notFound t) in
      mkGlobals
        (Some (mkTracking (valid t) processed'
                 (fold_left (addNotFound processed')
                            (resultNotFound searchResult) notFound')))
        (orderResults g)
  end.

(** The clean-up of [notFound] before the tracking summary is printed. *)
Definition cleanNotFound (g : Globals) : Globals :=
  match orderCodeTracking g with
  | None => g
  | Some t =>
      mkGlobals
        (Some (mkTracking (valid t) (processed t)
                 (filter (fun code => negb (Str.inList code (processed t)))
                         (notFound t))))
        (orderResults g)
  end.

(** The initialisation of the tracking from the configured codes. *)
Definition initTracking (allOrderCodes : list string) (g : Globals) : Globals :=
  match allOrderCodes with
  | [] => g
  | _ => mkGlobals (Some (mkTracking (map normalize allOrderCodes) [] []))
                   (orderResults g)
  end.

End Tracker.

(** ** One login attempt: [performLogin] *)
Module Login.

(** [{ success, error? }] *)
Record LoginResult : Type := mkLoginResult {
  loginSuccess : bool;
  loginError : option string
}.

(** What a login attempt asks of the mail channel and types into the
    page, in order.  [WaitRandom] stands for the waits for the mail: the
    fixed one before the first question and the one after an attempt
    that got no code.  The short pauses of [performLogin] around typing
    and navigation are not recorded. *)
Inductive LoginEvent : Type :=
| WaitRandom (minMs maxMs : Z)
| AskPrimary (attempt : Z) (answer : option string)
| AskSecondary (attempt : Z) (answer : option string)
| TypeCode (code : string)
| SubmitCode.

(** How the steps after the acquisition go (bring the page to front,
    find the code input, type, submit): they run through, with or without
    a code input on the page, or one of them raises, before the code is
    typed or after it. *)
Inductive CodePage : Type :=
| CodePageOk (inputFound : bool)
| RaisesBeforeTyping
| RaisesWhileSubmitting.

(** The outside world during one [performLogin] call.  [primary] and
    [secondary] give the successive answers of
    [getVerificationCodeFromGmailAPI] and [getVerificationCodeFromGmail]
    (both catch their own errors and answer null). *)
Record LoginEnv : Type := mkLoginEnv {
  hasGmailConfig : bool;            (* config.gmail *)
  credentialError : option string;  (* an early return while the user name
                                       and password are entered *)
  challenge : bool;                 (* the code input appeared in time *)
  canUseGmailAPI : bool;
  maxCodeRetries : option Z;        (* gmailConfig.maxCodeRetries *)
  codeWaitTimeout : option Z;       (* gmailConfig.codeWaitTimeout *)
  primary : nat -> option string;
  secondary : nat -> option string;
  codePage : CodePage;
  indicatorConfigured : bool;       (* gmailConfig.loggedInIndicator *)
  indicatorSeen : bool
}.

(** The state of the acquisition loop: how often each source was asked,
    and the events so far. *)
Record AcqState : Type := mkAcqState {
  nPrimary : nat;
  nSecondary : nat;
  loginTrace : list LoginEvent
}.

(** JavaScript truthiness of [code]: a non-empty string. *)
Definition truthyCode (c : option string) : bool :=
  match c with
  | Some s => negb (String.eqb s "")
  | None => false
  end.

Section Acquisition.
Variable env : LoginEnv.

(** [x || d] for an optional number. *)
Definition orDefault (x : option Z) (d : Z) : Z :=
  match x with
  | None => d
  | Some 0 => d
  | Some n => n
  end.

Definition maxRetries : Z := orDefault (maxCodeRetries env) 3.
Definition waitTimeout : Z := orDefault (codeWaitTimeout env) 30000.

Definition askPrimary (attempt : Z) (st : AcqState) : option string * AcqState :=
  let c := primary env (nPrimary st) in
  (c, mkAcqState (S (nPrimary st)) (nSecondary st)
                 (loginTrace st ++ [AskPrimary attempt c])).

Definition askSecondary (attempt : Z) (st : AcqState) : option string * AcqState :=
  let c := secondary env (nSecondary st) in
  (c, mkAcqState (nPrimary st) (S (nSecondary st))
                 (loginTrace st ++ [AskSecondary attempt c])).

Definition logEvent (e : LoginEvent) (st : AcqState) : AcqState :=
  mkAcqState (nPrimary st) (nSecondary st) (loginTrace st ++ [e]).

(** The end of a round of the loop that did not [break]. *)
Definition endOfRound (attempt : Z) (st : AcqState) : AcqState :=
  if attempt <? maxRetries
  then logEvent (WaitRandom waitTimeout waitTimeout) st
  else st.

(** [for (let attempt = 1; attempt <= maxRetries; attempt++)] over the
    remaining values of [attempt]; the result is the code the loop
    [break]s with, if any. *)
Fixpoint acquireFrom (attempts : list Z) (st : AcqState)
  : option string * AcqState :=
  match attempts with
  | [] => (None, st)
  | attempt :: rest =>
      if canUseGmailAPI env then
        let (code, st1) := askPrimary attempt st in
        if truthyCode code then (code, st1)
        else if attempt <? maxRetries then
          let (code2, st2) := askSecondary attempt st1 in
          if truthyCode code2 then (code2, st2)
          else acquireFrom rest (endOfRound attempt st2)
        else acquireFrom rest (endOfRound attempt st1)
      else
        let (code, st1) := askSecondary attempt st in
        if truthyCode code then (code, st1)
        else acquireFrom rest (endOfRound attempt st1)
  end.

(** The values [attempt] takes. *)
Definition attemptNumbers (n : Z) : list Z :=
  map (fun k => Z.of_nat k) (seq 1 (Z.to_nat n)).

Definition acquireCode (st : AcqState) : option string * AcqState :=
  acquireFrom (attemptNumbers maxRetries) st.

(** [isLoggedIn(page, config)] *)
Definition isLoggedIn : bool :=
  (indicatorConfigured env && indicatorSeen env)%bool.

(** The final check "Verify login was successful". *)
Definition verifyLogin : LoginResult :=
  if isLoggedIn then mkLoginResult true None
  else if negb (indicatorConfigured env) then mkLoginResult true None
  else mkLoginResult false (Some "Login verification failed").

(** [performLogin(page, browser, account, config)]: the result and the
    events of the attempt. *)
Definition performLogin : LoginResult * list LoginEvent :=
  if negb (hasGmailConfig env) then
    (mkLoginResult false (Some "Gmail configuration not found"), [])
  else
    match credentialError env with
    | Some e => (mkLoginResult false (Some e), [])
    | None =>
        if challenge env then
          let st0 := mkAcqState 0 0 [WaitRandom 30000 30000] in
          let (code, st) := acquireCode st0 in
          if truthyCode code then
            match code with
            | Some c =>
                match codePage env with
                | CodePageOk true =>
                    (verifyLogin, loginTrace st ++ [TypeCode c; SubmitCode])
                | CodePageOk false =>
                    (mkLoginResult false
                       (Some "Verification code input not found after returning from Gmail"),
                     loginTrace st)
                | RaisesBeforeTyping => (verifyLogin, loginTrace st)
                | RaisesWhileSubmitting =>
                    (verifyLogin, loginTrace st ++ [TypeCode c])
                end
            | None => (verifyLogin, loginTrace st)
            end
          else
            (mkLoginResult false
               (Some "Could not retrieve verification code from Gmail"),
             loginTrace st)
        else (verifyLogin, [])
    end.

End Acquisition.

End Login.

(** ** The multi-account run: [testIntegrated] *)
Module Run.

(** [interface Account] *)
Record Account : Type := mkAccount {
  username : string;
  password : string;
  gmailLabel : option string
}.

(** The calls and log lines of a run that the properties mention. *)
Inductive RunEvent : Type :=
| GotoSignIn
| WaitRandomTime (minMs maxMs : Z)
| PerformLogout
| PerformLogin (user : string) (attempt : Z)
| LogLoginFailed (user : string)
| LogAccountError (user : string)
| CloseBrowser (b : Pool.Browser).

(** The outside world during one round of the retry loop. *)
Record AttemptEnv : Type := mkAttemptEnv {
  onSignInBefore : bool;        (* currentUrlBeforeLogin.includes('/sign_in') *)
  gotoBeforeRaises : bool;
  logoutRaises : bool;
  onSignInAfterLogout : bool;   (* urlAfterLogout.includes('/sign_in') *)
  gotoAfterLogoutRaises : bool;
  recoveryGotoRaises : bool;    (* the goto inside catch (logoutError) *)
  login : Login.LoginEnv
}.

Definition MAX_LOGIN_ATTEMPTS : Z := 4.

(** How the retry loop is left. *)
Inductive LoopExit : Type :=
| LoginOk (attempt : Z)
| LoginExhausted (last : Login.LoginResult)
| LoopRaised.

(** [if (attempt > 1) { try { logout ... } catch { goto } }] *)
Definition logoutBeforeRetry (e : AttemptEnv) (tr : list RunEvent)
  : list RunEvent :=
  let recovery (tr : list RunEvent) :=
    if recoveryGotoRaises e then tr ++ [GotoSignIn]
    else tr ++ [GotoSignIn; WaitRandomTime 2000 3000] in
  let tr := tr ++ [PerformLogout] in
  if logoutRaises e then recovery tr
  else
    let tr := tr ++ [WaitRandomTime 2000 3000] in
    if onSignInAfterLogout e then tr
    else if gotoAfterLogoutRaises e then recovery (tr ++ [GotoSignIn])
    else tr ++ [GotoSignIn; WaitRandomTime 2000 3000].

(** [for (let attempt = 1; attempt <= MAX_LOGIN_ATTEMPTS; attempt++)]
    over the remaining values of [attempt]. *)
Fixpoint loginAttempts (user : string) (env : Z -> AttemptEnv)
         (attempts : list Z) (last : Login.LoginResult) (tr : list RunEvent)
  : LoopExit * list RunEvent :=
  match attempts with
  | [] => (LoginExhausted last, tr)
  | attempt :: rest =>
      let e := env attempt in
      if (negb (onSignInBefore e) && gotoBeforeRaises e)%bool
      then (LoopRaised, tr ++ [GotoSignIn])
      else
        let tr := if onSignInBefore e then tr
                  else tr ++ [GotoSignIn; WaitRandomTime 2000 3000] in
        let tr := if attempt >? 1 then logoutBeforeRetry e tr else tr in
        let tr := tr ++ [PerformLogin user attempt] in
        let loginResult := fst (Login.performLogin (login e)) in
        if Login.loginSuccess loginResult then (LoginOk attempt, tr)
        else
          let tr :=
            if attempt <? MAX_LOGIN_ATTEMPTS then
              let waitTime := 3000 + attempt * 1000 in
              tr ++ [WaitRandomTime waitTime waitTime]
            else tr in
          loginAttempts user env rest loginResult tr
  end.

Definition loginWithRetry (user : string) (env : Z -> AttemptEnv)
           (tr : list RunEvent) : LoopExit * list RunEvent :=
  loginAttempts user env (Login.attemptNumbers MAX_LOGIN_ATTEMPTS)
                (Login.mkLoginResult false None) tr.

(** The outside world during one account's pass.  [postLoginRaises]
    stands for an error between the login and the search (navigation to
    the task URL or to the Completed section); [orderCodesToFilter] is the
    answer of [getOrderCodesFromConfig], [None] if it raises. *)
Record AccountEnv : Type := mkAccountEnv {
  startOnSignIn : bool;
  startGotoRaises : bool;
  attemptEnv : Z -> AttemptEnv;
  postLoginRaises : bool;
  completedLinkFound : bool;
  orderCodesToFilter : option (list string);
  search : nat -> Tracker.SearchOutcome;
  finalLogoutRaises : bool
}.

(** The globals and the locals of [testIntegrated] that outlive an
    account's pass. *)
Record RunState : Type := mkRunState {
  globals : Tracker.Globals;
  accountsWithLoginIssues : list string;
  accountsWithNoOrders : list string;
  trace : list RunEvent
}.

Definition addTrace (evs : list RunEvent) (st : RunState) : RunState :=
  mkRunState (globals st) (accountsWithLoginIssues st)
             (accountsWithNoOrders st) (trace st ++ evs).

Definition setTrace (tr : list RunEvent) (st : RunState) : RunState :=
  mkRunState (globals st) (accountsWithLoginIssues st)
             (accountsWithNoOrders st) tr.

(** [catch (accountError)]: log, try to log out, next account. *)
Definition accountCatch (user : string) (st : RunState) : RunState :=
  addTrace [LogAccountError user; PerformLogout] st.

(** [accountsWithLoginIssues.push(account.username); continue] *)
Definition recordLoginIssue (user : string) (st : RunState) : RunState :=
  mkRunState (globals st) (accountsWithLoginIssues st ++ [user])
             (accountsWithNoOrders st) (trace st ++ [LogLoginFailed user]).

Definition recordNoOrders (user : string) (st : RunState) : RunState :=
  mkRunState (globals st) (accountsWithLoginIssues st)
             (accountsWithNoOrders st ++ [user]) (trace st).

(** The block that starts at "Get order codes from config": [None] when
    [getOrderCodesFromConfig] raises. *)
Definition processCodes (env : AccountEnv) (user : string) (st : RunState)
  : option RunState :=
  match orderCodesToFilter env with
  | None => None
  | Some [] => Some (recordNoOrders user st)
  | Some orderCodes =>
      let normalizedCodes := map Tracker.normalize orderCodes in
      let alreadyProcessed :=
        match Tracker.orderCodeTracking (globals st) with
        | Some t => Tracker.processed t
        | None => []
        end in
      let codesToProcess :=
        filter (fun code => negb (Str.inList code alreadyProcessed))
               normalizedCodes in
      match codesToProcess with
      | [] => Some st
      | _ =>
          let (searchResult, g1) :=
            Tracker.searchAndClickOrderCodes codesToProcess (Some user)
                                             (search env) (globals st) in
          let g2 := Tracker.updateTracking searchResult g1 in
          let st' := mkRunState g2 (accountsWithLoginIssues st)
                                (accountsWithNoOrders st) (trace st) in
          if (Nat.eqb (Tracker.clickedCount searchResult) 0
              && Nat.eqb (List.length (Tracker.resultNotFound searchResult))
                         (List.length codesToProcess))%bool
          then Some (recordNoOrders user st')
          else Some st'
      end
  end.

(** The body of [for (let i = 0; i < accountsToProcess.length; i++)]. *)
Definition processAccount (st : RunState) (entry : Account * AccountEnv)
  : RunState :=
  let (account, env) := entry in
  let user := username account in
  if (negb (startOnSignIn env) && startGotoRaises env)%bool
  then accountCatch user (addTrace [GotoSignIn] st)
  else
    let st := if startOnSignIn env then st
              else addTrace [GotoSignIn; WaitRandomTime 2000 3000] st in
    let (exit, tr) := loginWithRetry user (attemptEnv env) (trace st) in
    let st := setTrace tr st in
    match exit with
    | LoopRaised => accountCatch user st
    | LoginExhausted _ => recordLoginIssue user st
    | LoginOk _ =>
        let st := addTrace [WaitRandomTime 2000 3000] st in
        if postLoginRaises env then accountCatch user st
        else
          let afterCodes :=
            if completedLinkFound env then processCodes env user st
            else Some st in
          match afterCodes with
          | None => accountCatch user st
          | Some st' =>
              if finalLogoutRaises env
              then addTrace [PerformLogout; GotoSignIn] st'
              else addTrace [PerformLogout] st'
          end
    end.

Definition processAccounts (accounts : list (Account * AccountEnv))
           (st : RunState) : RunState :=
  fold_left processAccount accounts st.

(** *** [initBrowser] *)

Record InitEnv : Type := mkInitEnv {
  now : Z;                          (* new Date() at allocation *)
  pidAlreadyRunning : bool;         (* checkFilePidIsRunning(profile.pid, true) *)
  launched : option Pool.Browser;   (* None: launch raises *)
  pageReady : bool                  (* false: a later page call raises *)
}.

(** [interface InitBrowserResult]; the page is kept as a flag. *)
Record InitBrowserResult : Type := mkInitResult {
  resBrowser : option Pool.Browser;
  resPage : bool;
  resProfile : option Pool.Ref;
  resError : option string
}.

Definition initBrowser (config : Pool.BotConfig) (context : string)
           (env : InitEnv) (ps : Pool.State) : InitBrowserResult * Pool.State :=
  match Pool.getBrowserProfile context (now env) ps with
  | (None, ps1) =>
      (mkInitResult None false None
         (Some "No browser profiles available in the pool"), ps1)
  | (Some p, ps1) =>
      if pidAlreadyRunning env then
        (mkInitResult None false None (Some "Browser process is already running"),
         Pool.returnBrowserProfile config p false false ps1)
      else
        let ps1 := Pool.dropStalePidFile p ps1 in
        match launched env with
        | None => (mkInitResult None false None (Some "launch failed"), ps1)
        | Some b =>
            let ps2 := Pool.writePidFile p (Pool.setBrowser p b ps1) in
            if pageReady env
            then (mkInitResult (Some b) true (Some p) None, ps2)
            else (mkInitResult None false None (Some "page setup failed"), ps2)
        end
  end.

(** *** [testIntegrated] *)

Record RunEnv : Type := mkRunEnv {
  configHasAccounts : bool;
  configHasGmail : bool;
  init : InitEnv;
  alreadyLoggedIn : bool;
  firstLogoutRaises : bool;
  allOrderCodes : option (list string);  (* None: getOrderCodesFromConfig raises *)
  accounts : list (Account * AccountEnv);
  statisticsRaise : bool                 (* displayStatistics raises *)
}.

(** [profile.protected = b] behind [if (profile)]. *)
Definition protectIf (profile : option Pool.Ref) (b : bool) (ps : Pool.State)
  : Pool.State :=
  match profile with
  | Some p => Pool.setProtected p b ps
  | None => ps
  end.

(** Steps 3 to 7 of [testIntegrated], between the two assignments to
    [profile.protected]: the state reached, and whether an exception
    ended them. *)
Definition runBody (env : RunEnv) (rs : RunState) : bool * RunState :=
  if (alreadyLoggedIn env && firstLogoutRaises env)%bool
  then (true, addTrace [PerformLogout] rs)
  else
    let rs := if alreadyLoggedIn env then addTrace [PerformLogout] rs else rs in
    match allOrderCodes env with
    | None => (true, rs)
    | Some codes =>
        let rs := mkRunState (Tracker.initTracking codes (globals rs))
                             (accountsWithLoginIssues rs)
                             (accountsWithNoOrders rs) (trace rs) in
        let rs := processAccounts (accounts env) rs in
        let hasResults :=
          match Tracker.orderResults (globals rs) with
          | Some (_ :: _) => true
          | _ => false
          end in
        if (hasResults && statisticsRaise env)%bool then (true, rs)
        else
          (false,
           mkRunState (Tracker.cleanNotFound (globals rs))
                      (accountsWithLoginIssues rs)
                      (accountsWithNoOrders rs) (trace rs))
    end.

(** How the process ends. *)
Record RunOutcome : Type := mkRunOutcome {
  exitCode : Z;
  raised : bool;                 (* the outer catch ran *)
  pool : Pool.State;
  final : RunState
}.

(** [testIntegrated()].  The function declares [let profile: any = null]
    before the [try] and [const profile = browserResult.profile] inside
    it; the [finally] block is outside the scope of the second, so the
    [profile] it tests is the first. *)
Definition testIntegrated (config : Pool.BotConfig) (env : RunEnv)
           (ps : Pool.State) (rs : RunState) : RunOutcome :=
  let profileOuter : option Pool.Ref := None in
  if negb (configHasAccounts env && configHasGmail env)%bool
  then mkRunOutcome 1 false ps rs
  else
    let (browserResult, ps1) := initBrowser config "default" (init env) ps in
    match resBrowser browserResult, resPage browserResult with
    | Some b, true =>
        let profileInner := resProfile browserResult in
        let ps2 := protectIf profileInner true ps1 in
        let (bodyRaised, rs') := runBody env rs in
        let ps3 := if bodyRaised then ps2
                   else protectIf profileInner false ps2 in
        (* finally *)
        let ps4 := protectIf profileOuter false ps3 in
        mkRunOutcome 0 bodyRaised ps4 (addTrace [CloseBrowser b] rs')
    | _, _ => mkRunOutcome 1 false ps1 rs
    end.

(** *** The accounts branch of [checkListAndClick]

    From "Initialize a single browser for all accounts" on.  [bodyRaises]
    tells whether an exception reaches the outer [catch] between the two
    assignments to [profile.protected], [unlinkFails] whether
    [unlinkSync] raises when the slot is released in [finally]. *)
Definition findProfileByBrowser (b : Pool.Browser) (ps : Pool.State)
  : option Pool.Ref :=
  find (fun p => match Pool.browser (Pool.store ps p) with
                 | Some b' => Nat.eqb b' b
                 | None => false
                 end)
       (Pool.used ps).

Definition checkListAndClick (config : Pool.BotConfig) (initEnv : InitEnv)
           (bodyRaises : bool) (unlinkFails : bool) (ps : Pool.State)
  : Pool.State :=
  let (browserResult, ps1) := initBrowser config "default" initEnv ps in
  match resBrowser browserResult, resPage browserResult with
  | Some b, true =>
      let profile := resProfile browserResult in
      let ps2 := protectIf profile true ps1 in
      let ps3 := if bodyRaises then ps2 else protectIf profile false ps2 in
      (* finally *)
      match findProfileByBrowser b ps3 with
      | Some p => Pool.returnBrowserProfile config p true unlinkFails ps3
      | None => ps3
      end
  | _, _ => ps1
  end.

End Run.

(** ** The accounts branch of [checkListAndClick], from its first statement *)
Module Task.
Import Run.

(** [{ processed, clicked, error }] *)
Record TaskResult : Type := mkTaskResult {
  taskProcessed : Z;
  taskClicked : Z;
  taskError : option string
}.

(** [x || d] for an optional string. *)
Definition orElse (x : option string) (d : string) : string :=
  match x with
  | Some s => if Tracker.nonEmpty s then s else d
  | None => d
  end.

(** One of the two preliminary sessions ("check initial URL" and "check
    login status before starting"): [initBrowser], a possible logout,
    [browser.close()], all inside a [try] whose [catch] only logs.  The
    slot [initBrowser] took is not given back to the pool. *)
Definition preliminarySession (config : Pool.BotConfig) (env : InitEnv)
           (ps : Pool.State) : Pool.State :=
  snd (initBrowser config "default" env ps).

(** [checkListAndClick(config)] when [config.accounts] is non-empty and
    [config.gmail] is set.  [bodyError] is the message of an exception
    that reaches the outer [catch] after the browser is protected;
    [closeRaises] tells whether [browser.close()] rejects in [finally],
    [unlinkFails] whether [unlinkSync] raises in the release after it. *)
Definition checkListAndClickAccounts (config : Pool.BotConfig)
           (first second main : InitEnv) (bodyError : option string)
           (closeRaises : bool) (unlinkFails : bool) (ps : Pool.State)
  : TaskResult * Pool.State :=
  let ps := preliminarySession config first ps in
  let ps := preliminarySession config second ps in
  let (browserResult, ps1) := initBrowser config "default" main ps in
  match resBrowser browserResult, resPage browserResult with
  | Some b, true =>
      let profile := resProfile browserResult in
      let ps2 := protectIf profile true ps1 in
      let ps3 := match bodyError with
                 | Some _ => ps2
                 | None => protectIf profile false ps2
                 end in
      (* finally *)
      let ps4 :=
        match findProfileByBrowser b ps3 with
        | Some p =>
            if closeRaises then ps3
            else Pool.returnBrowserProfile config p true unlinkFails ps3
        | None => ps3
        end in
      (mkTaskResult 0 0 bodyError, ps4)
  | _, _ =>
      (mkTaskResult 0 0
         (Some (orElse (resError browserResult)
                       "Failed to initialize browser for accounts processing")),
       ps1)
  end.

End Task.

(** ** Statistics per account: [calculateAccountStats] *)
Module Stats.

(** [interface AccountStats].  The field [successRate], a floating-point
    percentage computed from [successCount] and [totalCount], is not
    carried. *)
Record AccountStats : Type := mkAccountStats {
  account : string;
  orderCodes : list string;
  successCount : nat;
  failureCount : nat;
  totalCount : nat
}.

(** The objects [{ codes, success, failure }] held by [accountMap]. *)
Record Entry : Type := mkEntry {
  codes : list string;
  success : nat;
  failure : nat
}.

(** A [Map] from account names: its entries in insertion order. *)
Definition AccountMap : Type := list (string * Entry).

(** [accountMap.has(key)] *)
Definition has (key : string) (m : AccountMap) : bool :=
  existsb (fun kv => String.eqb (fst kv) key) m.

(** The object [accountMap.get(key)] is changed in place by [f]. *)
Fixpoint update (key : string) (f : Entry -> Entry) (m : AccountMap)
  : AccountMap :=
  match m with
  | [] => []
  | (k, e) :: rest =>
      if String.eqb k key then (k, f e) :: rest
      else (k, e) :: update key f rest
  end.

(** The body of [for (const result of results)]. *)
Definition addResult (m : AccountMap) (result : Tracker.OrderResult)
  : AccountMap :=
  let key := Tracker.account result in
  let m := if has key m then m else m ++ [(key, mkEntry [] 0 0)] in
  update key
         (fun stats =>
            match Tracker.status result with
            | Tracker.success =>
                mkEntry (codes stats ++ [Tracker.orderCode result])
                        (S (success stats)) (failure stats)
            | Tracker.failure =>
                mkEntry (codes stats ++ [Tracker.orderCode result])
                        (success stats) (S (failure stats))
            end)
         m.

(** The body of [for (const [account, stats] of accountMap.entries())]. *)
Definition toStats (kv : string * Entry) : AccountStats :=
  let (account, stats) := kv in
  let total := (success stats + failure stats)%nat in
  mkAccountStats account (codes stats) (success stats) (failure stats) total.

(** [calculateAccountStats(results)] *)
Definition calculateAccountStats (results : list Tracker.OrderResult)
  : list AccountStats :=
  map toStats (fold_left addResult results []).

(** The filters of [displayStatistics] and [generateUnifiedReport]. *)
Definition isSuccess (r : Tracker.OrderResult) : bool :=
  match Tracker.status r with
  | Tracker.success => true
  | Tracker.failure => false
  end.

Definition isFailure (r : Tracker.OrderResult) : bool :=
  match Tracker.status r with
  | Tracker.success => false
  | Tracker.failure => true
  end.

(** [results.filter(r => r.account === stats.account)] *)
Definition accountResults (results : list Tracker.OrderResult) (name : string)
  : list Tracker.OrderResult :=
  filter (fun r => String.eqb (Tracker.account r) name) results.

(** [accountStats.filter(s => s.totalCount > 0)] *)
Definition successfulAccounts (accountStats : list AccountStats)
  : list AccountStats :=
  filter (fun s => Nat.ltb 0 (totalCount s)) accountStats.

End Stats.

(** ** The configured order codes: [getOrderCodesFromConfig] *)
Module Codes.

(** [orderCodes] and [seenCodes] of [readOrderCodesFromFile]. *)
Record Collected : Type := mkCollected {
  orderCodes : list string;
  seenCodes : list string
}.

(** The body of [for (const match of matches)]; [capture] is
    [match[1]]. *)
Definition collectOne (acc : Collected) (capture : string) : Collected :=
  let code := Str.toUpperCase (Str.trim capture) in
  if (Tracker.nonEmpty code && negb (Str.inList code (seenCodes acc)))%bool
  then mkCollected (orderCodes acc ++ [code]) (seenCodes acc ++ [code])
  else acc.

(** [readOrderCodesFromFile(filePath, targetDate)].  The regular
    expressions and the date test are not modelled: [captures] holds the
    captures [match[1]] of [orderCodePattern] on the lines that pass the
    timestamp and date tests, in the order of the file, and is [None]
    when the file does not exist or reading it raises. *)
Definition readOrderCodesFromFile (captures : option (list string))
  : list string :=
  match captures with
  | None => []
  | Some l => orderCodes (fold_left collectOne l (mkCollected [] []))
  end.

(** The fields of [config.task] that [getOrderCodesFromConfig] reads. *)
Record TaskConfig : Type := mkTaskConfig {
  orderCodesFile : option string;
  configOrderCodes : option (list string)
}.

(** [config.task.orderCodesFile && config.task.orderCodesFile.trim() !== ''] *)
Definition fileConfigured (task : TaskConfig) : bool :=
  match orderCodesFile task with
  | Some f => (Tracker.nonEmpty f && Tracker.nonEmpty (Str.trim f))%bool
  | None => false
  end.

(** [getOrderCodesFromConfig(config, overrideDate)].  [found] is the
    outcome of [findClickedOrdersFile]: [None] when it finds no file,
    otherwise what [readOrderCodesFromFile] gets from the file found. *)
Definition getOrderCodesFromConfig (task : TaskConfig)
           (found : option (option (list string))) : list string :=
  let fromFile :=
    if fileConfigured task then
      match found with
      | Some captures => readOrderCodesFromFile captures
      | None => []
      end
    else [] in
  let fromList :=
    match configOrderCodes task with
    | Some (c :: l) =>
        map (fun code => Str.toUpperCase (Str.trim code)) (c :: l)
    | _ => []
    end in
  Tracker.dedupe (fromFile ++ fromList).

End Codes.

(** ** The command line of [test-integrated.ts] *)
Module Cli.

(** [s.split(sep)] for a separator of one character. *)
Fixpoint split (sep : ascii) (s : string) : list string :=
  match s with
  | EmptyString => [EmptyString]
  | String c rest =>
      if Ascii.eqb c sep then EmptyString :: split sep rest
      else match split sep rest with
           | w :: ws => String c w :: ws
           | [] => [String c EmptyString]
           end
  end.

(** [a.startsWith(p)] *)
Definition startsWith (a p : string) : bool := String.prefix p a.

(** [\d] *)
Definition isDigit (c : ascii) : bool :=
  let n := nat_of_ascii c in (Nat.leb 48 n && Nat.leb n 57)%bool.

(** [/^\d{4}-\d{2}-\d{2}$/.test(value)] *)
Definition isDate (value : string) : bool :=
  match list_ascii_of_string value with
  | [y1; y2; y3; y4; s1; m1; m2; s2; d1; d2] =>
      (isDigit y1 && isDigit y2 && isDigit y3 && isDigit y4
       && Ascii.eqb s1 "-" && isDigit m1 && isDigit m2
       && Ascii.eqb s2 "-" && isDigit d1 && isDigit d2)%bool
  | _ => false
  end.

(** [arg.split('=')[1]?.trim()], [None] when the value is [undefined] or
    the empty string. *)
Definition valueOf (arg : string) : option string :=
  match nth_error (split "=" arg) 1 with
  | Some v => let value := Str.trim v in
              if Tracker.nonEmpty value then Some value else None
  | None => None
  end.

(** [isSetupMode()]; [args] is [process.argv.slice(2)]. *)
Definition isSetupMode (args : list string) : bool :=
  (Str.inList "--setup" args || Str.inList "--config" args
   || Str.inList "-s" args)%bool.

(** [getCliDateArg()] *)
Definition getCliDateArg (args : list string) : option string :=
  match find (fun a => startsWith a "--date=") args with
  | None => None
  | Some dateArg =>
      match valueOf dateArg with
      | None => None
      | Some value => if isDate value then Some value else None
      end
  end.

(** [getCliAccountsArg()] *)
Definition getCliAccountsArg (args : list string) : option (list string) :=
  match find (fun a => (startsWith a "--accounts="
                        || startsWith a "--account=")%bool) args with
  | None => None
  | Some accountsArg =>
      match valueOf accountsArg with
      | None => None
      | Some value =>
          let accounts :=
            filter (fun acc => Nat.ltb 0 (String.length acc))
                   (map Str.trim (split "," value)) in
          if Nat.ltb 0 (List.length accounts) then Some accounts else None
      end
  end.

(** The outcome of the account filter of [testIntegrated]:
    [process.exit(1)], or the accounts to process and the requested names
    that the warning lists. *)
Inductive Selection : Type :=
| Exit1
| Selected (accountsToProcess : list Run.Account) (notFound : list string).

(** The account filter of [testIntegrated]. *)
Definition selectAccounts (cliAccounts : option (list string))
           (accounts : list Run.Account) : Selection :=
  match cliAccounts with
  | None => Selected accounts []
  | Some cli =>
      let cliAccountsSet := map Str.toLowerCase cli in
      let accountsToProcess :=
        filter (fun account =>
                  Str.inList (Str.toLowerCase (Run.username account))
                             cliAccountsSet)
               accounts in
      match accountsToProcess with
      | [] => Exit1
      | _ =>
          let foundUsernames :=
            map (fun a => Str.toLowerCase (Run.username a))
                accountsToProcess in
          Selected accountsToProcess
                   (filter (fun acc =>
                              negb (Str.inList (Str.toLowerCase acc)
                                               foundUsernames))
                           cli)
      end
  end.

End Cli.

(** ** The log file: [writeLogToFile] and [processLogQueue] *)
Module LogFile.

(** The module variables [logFileHandle], [logQueue] and [logWriting],
    the text [appendFileSync] has added to each path, and the number of
    calls of [appendFileSync] so far. *)
Record LogState : Type := mkLogState {
  logFileHandle : option string;
  logQueue : list string;
  logWriting : bool;
  appended : list (string * string);
  appendCalls : nat
}.

(** [if (entry && logFileHandle)] *)
Definition writable (entry : string) (st : LogState) : option string :=
  if Tracker.nonEmpty entry then
    match logFileHandle st with
    | Some h => if Tracker.nonEmpty h then Some h else None
    | None => None
    end
  else None.

(** The loop [while (logQueue.length > 0)] of [processLogQueue];
    [fails n] tells whether the call number [n] of [appendFileSync]
    raises. *)
Fixpoint drain (fails : nat -> bool) (queue : list string) (st : LogState)
  : LogState :=
  match queue with
  | [] => st
  | entry :: rest =>
      match writable entry st with
      | Some h =>
          if fails (appendCalls st)
          then mkLogState None rest (logWriting st) (appended st)
                          (S (appendCalls st))
          else drain fails rest
                     (mkLogState (logFileHandle st) rest (logWriting st)
                                 (appended st ++ [(h, (entry ++ String "010" "")%string)])
                                 (S (appendCalls st)))
      | None =>
          drain fails rest
                (mkLogState (logFileHandle st) rest (logWriting st)
                            (appended st) (appendCalls st))
      end
  end.

(** [processLogQueue()]; it has no [await], so it runs to its end
    within the call. *)
Definition processLogQueue (fails : nat -> bool) (st : LogState) : LogState :=
  if (logWriting st || Nat.eqb (List.length (logQueue st)) 0)%bool then st
  else
    let st1 := mkLogState (logFileHandle st) (logQueue st) true (appended st)
                          (appendCalls st) in
    let st2 := drain fails (logQueue st1) st1 in
    mkLogState (logFileHandle st2) (logQueue st2) false (appended st2)
               (appendCalls st2).

(** [if (!logFileHandle)] *)
Definition handleSet (st : LogState) : bool :=
  match logFileHandle st with
  | Some h => Tracker.nonEmpty h
  | None => false
  end.

(** [writeLogToFile(logEntry)] *)
Definition writeLogToFile (fails : nat -> bool) (st : LogState)
           (logEntry : string) : LogState :=
  if handleSet st then
    let st1 := mkLogState (logFileHandle st) (logQueue st ++ [logEntry])
                          (logWriting st) (appended st) (appendCalls st) in
    if logWriting st1 then st1 else processLogQueue fails st1
  else st.

(** The text [logMessage] hands to [writeLogToFile]: [timestamp] is
    [[dateStr timeStr]] with its brackets. *)
Definition fileLogEntry (timestamp level message : string) : string :=
  (timestamp ++ " [" ++ level ++ "] " ++ message)%string.

(** The state after [initializeLogFile] has set the handle to [path];
    [appended] starts after the header. *)
Definition opened (path : string) : LogState :=
  mkLogState (Some path) [] false [] 0.

End LogFile.

(** ** The HTTP interface: [authenticateToken] and the task routes *)
Module Server.

(** [interface Token]; only [token] is read. *)
Record Token : Type := mkToken {
  token : string;
  role : string
}.

(** [interface ApiResponse] with the additional data the routes add:
    [interval], or [processed] and [clicked]. *)
Record ApiResponse : Type := mkApiResponse {
  success : bool;
  message : string;
  error : option string;
  additionalData : list (string * Z)
}.

(** [createApiResponse(success, message, error, additionalData)]; no
    route passes additional data with one of the three fixed keys. *)
Definition createApiResponse (success : bool) (message : string)
           (error : option string) (additionalData : list (string * Z))
  : ApiResponse :=
  mkApiResponse success message error additionalData.

(** [loadTokens()]: [tokens] is [config.tokens] when it is an array. *)
Definition loadTokens (tokens : option (list Token)) : list Token :=
  match tokens with
  | Some l =>
      filter (fun t => (Tracker.nonEmpty (token t)
                        && Tracker.nonEmpty (Str.trim (token t)))%bool) l
  | None => []
  end.

(** What a middleware or a route does with a request. *)
Inductive Outcome : Type :=
| Next
| Respond (status : Z) (body : ApiResponse).

(** [authHeader && authHeader.split(' ')[1]], [None] when the value is
    falsy. *)
Definition headerToken (authHeader : option string) : option string :=
  match authHeader with
  | Some h =>
      if Tracker.nonEmpty h then
        match nth_error (Cli.split " " h) 1 with
        | Some t => if Tracker.nonEmpty t then Some t else None
        | None => None
        end
      else None
  | None => None
  end.

(** [authenticateToken(req, res, next)]; [authHeader] is
    [req.headers['authorization']]. *)
Definition authenticateToken (validTokens : list Token)
           (authHeader : option string) : Outcome :=
  match headerToken authHeader with
  | None =>
      Respond 401 (createApiResponse false "Authentication failed"
                     (Some "Missing authentication token") [])
  | Some t =>
      match find (fun v => String.eqb (token v) t) validTokens with
      | None =>
          Respond 403 (createApiResponse false "Authentication failed"
                         (Some "Invalid token") [])
      | Some _ => Next
      end
  end.

(** Who started a run of [checkListAndClick]. *)
Inductive RunKind : Type :=
| Immediate
| Periodic (timer : nat)
| Manual.

(** The module variable [taskInterval], the interval timers that are
    set, the next timer identifier, and the runs of [checkListAndClick]
    started so far. *)
Record ServerState : Type := mkServerState {
  taskInterval : option nat;
  timers : list nat;
  nextTimer : nat;
  runs : list RunKind
}.

(** [startPeriodicTask(config)] *)
Definition startPeriodicTask (st : ServerState) : ServerState :=
  match taskInterval st with
  | Some _ => st
  | None =>
      mkServerState (Some (nextTimer st)) (timers st ++ [nextTimer st])
                    (S (nextTimer st)) (runs st ++ [Immediate])
  end.

(** [clearInterval(t)] *)
Definition clearInterval (t : nat) (l : list nat) : list nat :=
  filter (fun x => negb (Nat.eqb x t)) l.

(** [stopPeriodicTask()] *)
Definition stopPeriodicTask (st : ServerState) : ServerState :=
  match taskInterval st with
  | Some t =>
      mkServerState None (clearInterval t (timers st)) (nextTimer st) (runs st)
  | None => st
  end.

(** The three routes of [apiRouter]. *)
Inductive Route : Type :=
| TaskStart
| TaskStop
| TaskRun.

(** What happens to the server: a request, with the result the run of
    [checkListAndClick] gives if the route awaits one, or the callback
    of an interval timer coming due. *)
Inductive ServerEvent : Type :=
| Request (route : Route) (authHeader : option string)
          (result : Task.TaskResult)
| TimerDue (timer : nat).

(** The handler of a route, behind [authenticateToken];
    [checkInterval] is [config.task.checkInterval]. *)
Definition handle (checkInterval : Z) (route : Route)
           (result : Task.TaskResult) (st : ServerState)
  : Z * ApiResponse * ServerState :=
  match route with
  | TaskStart =>
      match taskInterval st with
      | Some _ =>
          (400, createApiResponse false "Task already running"
                  (Some "Periodic task is already active") [], st)
      | None =>
          (200, createApiResponse true "Periodic task started successfully"
                  None [("interval", checkInterval)],
           startPeriodicTask st)
      end
  | TaskStop =>
      (200, createApiResponse true "Periodic task stopped successfully"
              None [],
       stopPeriodicTask st)
  | TaskRun =>
      let st' := mkServerState (taskInterval st) (timers st) (nextTimer st)
                               (runs st ++ [Manual]) in
      let data := [("processed", Task.taskProcessed result);
                   ("clicked", Task.taskClicked result)] in
      match Task.taskError result with
      | Some e =>
          if Tracker.nonEmpty e
          then (500, createApiResponse false "Task execution failed"
                       (Some e) data, st')
          else (200, createApiResponse true "Task executed successfully"
                       None data, st')
      | None =>
          (200, createApiResponse true "Task executed successfully"
                  None data, st')
      end
  end.

(** One event: the response sent, if the event is a request, and the
    state after it. *)
Definition step (checkInterval : Z) (validTokens : list Token)
           (st : ServerState) (e : ServerEvent)
  : option (Z * ApiResponse) * ServerState :=
  match e with
  | Request route authHeader result =>
      match authenticateToken validTokens authHeader with
      | Respond status body => (Some (status, body), st)
      | Next =>
          let '(status, body, st') := handle checkInterval route result st in
          (Some (status, body), st')
      end
  | TimerDue t =>
      if existsb (Nat.eqb t) (timers st)
      then (None, mkServerState (taskInterval st) (timers st) (nextTimer st)
                                (runs st ++ [Periodic t]))
      else (None, st)
  end.

(** The events in turn, with the responses sent. *)
Definition serve (checkInterval : Z) (validTokens : list Token)
           (events : list ServerEvent) (st : ServerState)
  : list (Z * ApiResponse) * ServerState :=
  fold_left (fun acc e =>
               let (out, st') := step checkInterval validTokens (snd acc) e in
               (match out with
                | Some r => fst acc ++ [r]
                | None => fst acc
                end, st'))
            events ([], st).

(** The state when [main] starts to listen. *)
Definition listening : ServerState := mkServerState None [] 0 [].

End Server.

(** * Proofs *)

Unset Implicit Arguments.

(** ** The string helpers on sample inputs *)
Module StrFacts.

Example replaceAll_instance :
  Str.replaceAll "{__instance__}" "07" "/p/{__instance__}/x{__instance__}"
  = "/p/07/x07".
Proof. reflexivity. Qed.

Example padStart_two_digits :
  Str.padStart 2 "0"%char (Str.toString 7) = "07"
  /\ Str.padStart 2 "0"%char (Str.toString 12) = "12"
  /\ Str.padStart 2 "0"%char (Str.toString 123) = "123".
Proof. repeat split; reflexivity. Qed.

Example normalize_code :
  Str.toUpperCase (Str.trim "  2sc-a6b ") = "2SC-A6B".
Proof. reflexivity. Qed.

Example includes_samples :
  Str.includes "order has a delivery issue" "delivery issue" = true
  /\ Str.includes "all good" "issue" = false
  /\ Str.includes "x" "" = true.
Proof. repeat split; reflexivity. Qed.

End StrFacts.

(** ** Facts about [waitRandomTime] *)
Module WaitFacts.
Import Wait.

Lemma Qfloor_scaled_range (r : Q) (n : Z) :
  (0 <= r)%Q -> (r < 1)%Q -> 0 < n -> 0 <= Qfloor (r * inject_Z n) < n.
Proof.
  intros H0 H1 Hn.
  assert (Hn' : (0 < inject_Z n)%Q).
  { change (inject_Z 0 < inject_Z n)%Q. rewrite <- Zlt_Qlt. exact Hn. }
  split.
  - change 0 with (Qfloor (inject_Z 0)). apply Qfloor_resp_le.
    apply Qmult_le_0_compat; [exact H0|]. apply Qlt_le_weak; exact Hn'.
  - apply Z.lt_nge. intros Hge.
    assert (H : (inject_Z n <= r * inject_Z n)%Q).
    { eapply Qle_trans; [|apply Qfloor_le]. rewrite <- Zle_Qle. exact Hge. }
    assert (H2 : (r * inject_Z n < 1 * inject_Z n)%Q)
      by (apply Qmult_lt_compat_r; assumption).
    rewrite Qmult_1_l in H2.
    exact (Qlt_not_le _ _ H2 H).
Qed.

(** C10. [waitRandomTime(minMs, maxMs)] with [minMs <= maxMs] asks for a
    delay of exactly [minMs] and does not call [Math.random()]; the
    generator is consulted exactly when the arguments come in reversed
    order, and the delay then lies between the two bounds. *)
Theorem C10_wait_is_min_unless_reversed :
  forall (minMs maxMs : Z) (g : Rng),
  (minMs <= maxMs -> waitRandomTime minMs maxMs g = (minMs, g))
  /\ (drawn (snd (waitRandomTime minMs maxMs g)) <> drawn g <-> maxMs < minMs)
  /\ (maxMs < minMs ->
      (0 <= draws g (drawn g))%Q -> (draws g (drawn g) < 1)%Q ->
      maxMs <= fst (waitRandomTime minMs maxMs g) <= minMs).
Proof.
  intros minMs maxMs g. unfold waitRandomTime.
  destruct (minMs >? maxMs) eqn:E.
  - apply Z.gtb_lt in E. split; [lia|]. split.
    + simpl. split; [intros _; exact E|intros _; lia].
    + intros _ H0 H1. cbn [random fst].
      pose proof (Qfloor_scaled_range (draws g (drawn g)) (minMs - maxMs + 1)
        H0 H1 ltac:(lia)). lia.
  - assert (minMs <= maxMs)
      by (rewrite Z.gtb_ltb in E; apply Z.ltb_ge in E; exact E).
    split; [reflexivity|]. split; [|lia].
    simpl. split; [intros H0; exfalso; apply H0; reflexivity|lia].
Qed.

(** C10 at a concrete call: [waitRandomTime(2000, 3000)] waits 2000 ms,
    whatever the generator holds. *)
Lemma C10_wait_is_min_unless_reversed_witness :
  fst (waitRandomTime 2000 3000 (mkRng (fun _ => 1 # 2) 0)) = 2000.
Proof.
  destruct (C10_wait_is_min_unless_reversed 2000 3000 (mkRng (fun _ => 1 # 2) 0))
    as [H _].
  rewrite H; [reflexivity|lia].
Defined.

End WaitFacts.

(** ** Facts about the session pool *)
Module PoolFacts.
Import Pool.

Lemma findIndex_lt (A : Type) (pred : A -> bool) (l : list A) (i : nat) :
  findIndex pred l = Some i -> (i < List.length l)%nat.
Proof.
  revert i; induction l as [|x rest IH]; simpl; intros i H; [discriminate|].
  destruct (pred x).
  - injection H as <-. lia.
  - destruct (findIndex pred rest) as [j|]; [|discriminate].
    injection H as <-. specialize (IH j eq_refl). lia.
Qed.

Lemma findIndex_pred (A : Type) (pred : A -> bool) (l : list A) (i : nat) (d : A) :
  findIndex pred l = Some i -> pred (nth i l d) = true.
Proof.
  revert i; induction l as [|x rest IH]; simpl; intros i H; [discriminate|].
  destruct (pred x) eqn:E.
  - injection H as <-. exact E.
  - destruct (findIndex pred rest) as [j|]; [|discriminate].
    injection H as <-. now apply IH.
Qed.

Lemma findIndex_None (A : Type) (pred : A -> bool) (l : list A) :
  findIndex pred l = None <-> forall x, In x l -> pred x = false.
Proof.
  induction l as [|x rest IH]; simpl.
  - split; [intros _ y []|reflexivity].
  - destruct (pred x) eqn:E.
    + split; [discriminate|]. intros H. rewrite (H x) in E by now left. discriminate.
    + destruct (findIndex pred rest) as [j|].
      * split; [discriminate|]. intros H.
        assert (Some j = None) by (apply IH; intros y Hy; apply H; now right).
        discriminate.
      * split; [|reflexivity]. intros _ y [<-|Hy]; [exact E|].
        now apply (proj1 IH).
Qed.

Lemma length_removeAt (A : Type) (i : nat) (l : list A) :
  (i < List.length l)%nat -> S (List.length (removeAt i l)) = List.length l.
Proof.
  revert i; induction l as [|x rest IH]; simpl; intros i H; [lia|].
  destruct i as [|i]; [reflexivity|]. simpl. rewrite IH; [reflexivity|lia].
Qed.

Lemma In_removeAt (A : Type) (i : nat) (l : list A) (x : A) :
  In x (removeAt i l) -> In x l.
Proof.
  revert i; induction l as [|y rest IH]; simpl; intros i H;
    [destruct i; exact H|].
  destruct i as [|i]; [now right|].
  destruct H as [H|H]; [now left|right; eauto].
Qed.

Section WithConfig.
Variable config : BotConfig.

(** The number of slots the pool holds, checked out or not. *)
Definition slotCount (st : State) : nat :=
  (availableCount st + usedCount st)%nat.

Lemma slotCount_get (context : string) (now : Z) (st : State) :
  slotCount (snd (getBrowserProfile context now st)) = slotCount st.
Proof.
  unfold getBrowserProfile, slotCount, availableCount, usedCount.
  destruct (available st) as [|r rest] eqn:E; simpl; rewrite ?E;
    [reflexivity|].
  rewrite length_app; simpl; lia.
Qed.

Lemma slotCount_return (p : Ref) (deleteFile unlinkFails : bool)
      (st : State) :
  slotCount (returnBrowserProfile config p deleteFile unlinkFails st)
  = slotCount st.
Proof.
  unfold returnBrowserProfile, slotCount, availableCount, usedCount.
  destruct (findIndex _ (used st)) as [index|] eqn:E; [|reflexivity].
  apply findIndex_lt in E. apply length_removeAt in E.
  destruct (deleteFile && _)%bool; [destruct unlinkFails|]; simpl;
    rewrite length_app; simpl; lia.
Qed.

Lemma slotCount_runCalls (calls : list PoolCall) (st : State) :
  slotCount (runCalls config calls st) = slotCount st.
Proof.
  unfold runCalls. revert st.
  induction calls as [|c calls IH]; intros st; simpl; [reflexivity|].
  rewrite IH. destruct c; simpl; [apply slotCount_get|apply slotCount_return].
Qed.

Lemma initSlots_shape (l : list Z) (st : State) :
  let st' := fold_left (initSlot config) l st in
  List.length (available st') = (List.length (available st) + List.length l)%nat
  /\ used st' = used st.
Proof.
  revert st; induction l as [|i l IH]; intros st; simpl.
  - split; [lia|reflexivity].
  - destruct (IH (initSlot config st i)) as [H1 H2]. simpl in *.
    rewrite H1, H2. unfold initSlot; simpl. rewrite length_app; simpl.
    split; [lia|reflexivity].
Qed.

Lemma newPool_shape (s0 : Ref -> BrowserProfile) (n0 : Ref) (fs : list string) :
  let st0 := newPool config s0 n0 fs in
  availableCount st0 = Z.to_nat (effectivePoolSize config) /\ used st0 = [].
Proof.
  unfold newPool, initPool, availableCount; simpl.
  destruct (initSlots_shape (slotNumbers (effectivePoolSize config))
    (mkState s0 n0 [] [] fs [])) as [H1 H2].
  simpl in *. rewrite H1, H2. unfold slotNumbers.
  rewrite length_map, length_seq. split; reflexivity.
Qed.

Lemma get_None_iff (context : string) (now : Z) (st : State) :
  fst (getBrowserProfile context now st) = None <-> available st = [].
Proof.
  unfold getBrowserProfile. destruct (available st); simpl; split; congruence.
Qed.

End WithConfig.

(** C1. Pool capacity invariant.  From a freshly constructed pool with
    N slots, after any sequence of [getBrowserProfile] and
    [returnBrowserProfile] calls (with any arguments) the number of
    checked-out slots is at most N, and a further [getBrowserProfile]
    returns null exactly when that number equals N; N is the configured
    pool size ([poolSize || 3]).  With pool size 3, three allocations
    succeed and the fourth returns null. *)
Theorem C1_pool_capacity :
  forall (config : BotConfig) (s0 : Ref -> BrowserProfile) (n0 : Ref)
         (fs : list string) (calls : list PoolCall),
  let st0 := newPool config s0 n0 fs in
  let N := availableCount st0 in
  let st := runCalls config calls st0 in
  N = Z.to_nat (effectivePoolSize config)
  /\ (usedCount st <= N)%nat
  /\ (forall context now,
        fst (getBrowserProfile context now st) = None <-> usedCount st = N)
  /\ (forall path c1 c2 c3 c4 t1 t2 t3 t4,
        let cfg3 := mkConfig path (Some 3) in
        let a1 := getBrowserProfile c1 t1 (newPool cfg3 s0 n0 fs) in
        let a2 := getBrowserProfile c2 t2 (snd a1) in
        let a3 := getBrowserProfile c3 t3 (snd a2) in
        let a4 := getBrowserProfile c4 t4 (snd a3) in
        fst a1 = Some n0 /\ fst a2 = Some (S n0)
        /\ fst a3 = Some (S (S n0)) /\ fst a4 = None).
Proof.
  intros config s0 n0 fs calls st0 N st.
  destruct (newPool_shape config s0 n0 fs) as [HN Hused].
  fold st0 in HN, Hused. fold N in HN.
  assert (Hcount : slotCount st = N).
  { unfold st. rewrite slotCount_runCalls. unfold slotCount, usedCount.
    rewrite Hused. simpl. unfold N. lia. }
  unfold slotCount in Hcount.
  split; [exact HN|]. split; [lia|]. split.
  - intros context now. rewrite get_None_iff. unfold availableCount in Hcount.
    split.
    + intros E. rewrite E in Hcount. simpl in Hcount. exact Hcount.
    + intros E. destruct (available st); [reflexivity|]. simpl in Hcount. lia.
  - intros. repeat split; reflexivity.
Qed.

(** *** Releasing a checked-out slot *)

Lemma NoDup_map_inj (A B : Type) (f : A -> B) (l : list A) (x y : A) :
  NoDup (map f l) -> In x l -> In y l -> f x = f y -> x = y.
Proof.
  induction l as [|a l IH]; simpl; intros ND Hx Hy E; [contradiction|].
  inversion ND as [|? ? Hnot ND']; subst.
  destruct Hx as [->|Hx], Hy as [->|Hy]; auto.
  - exfalso; apply Hnot. rewrite E. now apply in_map.
  - exfalso; apply Hnot. rewrite <- E. now apply in_map.
Qed.

Lemma map_removeAt (A B : Type) (f : A -> B) (i : nat) (l : list A) :
  map f (removeAt i l) = removeAt i (map f l).
Proof.
  revert i; induction l as [|a l IH]; intros [|i]; simpl; try reflexivity.
  now rewrite IH.
Qed.

Lemma NoDup_removeAt (A : Type) (i : nat) (l : list A) :
  NoDup l -> NoDup (removeAt i l).
Proof.
  revert i; induction l as [|a l IH]; intros i ND.
  - destruct i; exact ND.
  - inversion ND as [|? ? Hnot ND']; subst. destruct i as [|i]; simpl; [exact ND'|].
    constructor; [|now apply IH].
    intros H; apply Hnot. eapply In_removeAt; eassumption.
Qed.

Lemma In_removeAt_iff (A : Type) (i : nat) (l : list A) (d x : A) :
  NoDup l -> (i < List.length l)%nat ->
  In x (removeAt i l) <-> In x l /\ x <> nth i l d.
Proof.
  revert i; induction l as [|a l IH]; intros i ND Hi; simpl in Hi; [lia|].
  inversion ND as [|? ? Hnot ND']; subst.
  destruct i as [|i]; simpl.
  - split.
    + intros H. split; [now right|]. intros ->. contradiction.
    + intros [[->|H] Hne]; [congruence|exact H].
  - rewrite (IH i ND') by lia. split.
    + intros [->|[H Hne]].
      * split; [now left|]. intros E. apply Hnot. rewrite E. apply nth_In. lia.
      * split; [now right|exact Hne].
    + intros [[->|H] Hne]; [now left|right; now split].
Qed.

Section Release.
Variable config : BotConfig.

(** The object a slot's reference points to after its release. *)
Definition resetProfile (o : BrowserProfile) : BrowserProfile :=
  let instanceNum := instanceNumOf (instance o) in
  mkProfile (getProfilePath config instanceNum)
            (getPidFilePath config instanceNum)
            (instance o) None None (protected o).

Lemma findIndex_in_used (st : State) (p : Ref) :
  NoDup (map (instOf st) (used st)) -> In p (used st) ->
  exists index,
    findIndex (fun q => Z.eqb (instance (store st q)) (instance (store st p)))
              (used st) = Some index
    /\ (index < List.length (used st))%nat
    /\ nth index (used st) p = p.
Proof.
  intros ND Hin.
  destruct (findIndex _ (used st)) as [index|] eqn:E.
  - exists index. split; [reflexivity|].
    pose proof (findIndex_lt _ _ _ _ E) as Hlt. split; [exact Hlt|].
    pose proof (findIndex_pred _ _ _ _ p E) as Hp. cbv beta in Hp.
    apply Z.eqb_eq in Hp.
    apply (NoDup_map_inj _ _ (instOf st) (used st)); auto.
    apply nth_In; exact Hlt.
  - exfalso. rewrite findIndex_None in E. specialize (E p Hin).
    cbv beta in E. rewrite Z.eqb_refl in E. discriminate.
Qed.

Lemma return_used_spec (st : State) (p : Ref)
      (deleteFile unlinkFails : bool) :
  NoDup (map (instOf st) (used st)) -> In p (used st) ->
  let st' := returnBrowserProfile config p deleteFile unlinkFails st in
  (forall x, In x (used st') <-> In x (used st) /\ x <> p)
  /\ available st' = (available st ++ [p])%list
  /\ store st' = upd (store st) p (resetProfile (store st p))
  /\ NoDup (map (instOf st) (used st'))
  /\ exists new, events st' = (events st ++ new)%list
                 /\ forall q b, ~ In (CallClose q b) new.
Proof.
  intros ND Hin st'.
  destruct (findIndex_in_used st p ND Hin) as (index & E & Hlt & Hnth).
  assert (NDu : NoDup (used st)) by (eapply NoDup_map_inv; exact ND).
  subst st'. unfold returnBrowserProfile. rewrite E.
  assert (Hmem : forall x, In x (removeAt index (used st))
    <-> In x (used st) /\ x <> p).
  { intros x. rewrite (In_removeAt_iff _ index (used st) p x NDu Hlt), Hnth. tauto. }
  assert (NDr : NoDup (map (instOf st) (removeAt index (used st)))).
  { rewrite map_removeAt. now apply NoDup_removeAt. }
  destruct (deleteFile && _)%bool; [destruct unlinkFails|]; simpl;
    (split; [exact Hmem|split; [reflexivity|split; [reflexivity|split; [exact NDr|]]]]).
  - eexists. rewrite <- app_assoc. split; [reflexivity|].
    intros q b [H|[H|[]]]; discriminate.
  - eexists. rewrite <- app_assoc. split; [reflexivity|].
    intros q b [H|[H|[]]]; discriminate.
  - eexists. split; [reflexivity|].
    intros q b [H|[]]; discriminate.
Qed.

Lemma return_unknown (st : State) (p : Ref) (deleteFile unlinkFails : bool) :
  (forall q, In q (used st) -> instOf st q <> instOf st p) ->
  returnBrowserProfile config p deleteFile unlinkFails st
  = emit (WarnUnknownReturn (instance (store st p))) st.
Proof.
  intros H. unfold returnBrowserProfile.
  destruct (findIndex _ (used st)) as [index|] eqn:E; [|reflexivity].
  exfalso.
  pose proof (findIndex_lt _ _ _ _ E) as Hlt.
  pose proof (findIndex_pred _ _ _ _ p E) as Hp. cbv beta in Hp.
  apply Z.eqb_eq in Hp. apply (H (nth index (used st) p)); [|exact Hp].
  apply nth_In; exact Hlt.
Qed.

End Release.

(** *** The age sweep [forceCloseBrowsersOlderThan] *)

Section Sweep.
Variable config : BotConfig.
Variable maxTimeSeconds : Z.
Variable env : Ref -> SweepEnv.

(** The sweep reaches the release of [p]: the slot is over age, not
    protected, and closing its browser (if it has one) does not raise. *)
Definition evicts (st : State) (p : Ref) : bool :=
  ((getProfileAgeInSeconds (clock (env p)) (store st p) >=? maxTimeSeconds)
   && negb (truthy (protected (store st p)))
   && negb (match browser (store st p) with
            | Some _ => closeRaises (env p)
            | None => false
            end))%bool.

(** [stm] is [st] with more events, none of which closes a browser other
    than that of the unprotected slot [q]. *)
Definition quiet (st stm : State) (q : Ref) : Prop :=
  store stm = store st /\ used stm = used st
  /\ available stm = available st /\ files stm = files st
  /\ exists new,
       events stm = (events st ++ new)%list
       /\ forall r b, In (CallClose r b) new ->
                      r = q /\ truthy (protected (store st q)) = false.

Lemma quiet_emit (st stm : State) (q : Ref) (e : Event) :
  quiet st stm q -> (forall r b, e <> CallClose r b) -> quiet st (emit e stm) q.
Proof.
  intros (Hs & Hu & Ha & Hf & new & He & Hc) Hne.
  repeat (split; [assumption|]).
  exists (new ++ [e])%list. simpl. rewrite He, app_assoc. split; [reflexivity|].
  intros r b H. apply in_app_or in H. destruct H as [H|[H|[]]]; [eauto|].
  exfalso. exact (Hne r b H).
Qed.

Lemma quiet_refl (st : State) (q : Ref) : quiet st st q.
Proof.
  repeat (split; [reflexivity|]). exists []. rewrite app_nil_r.
  split; [reflexivity|]. intros r b [].
Qed.

Ltac quiet_from Q :=
  first [ exact Q
        | apply quiet_emit; [quiet_from Q | intros; discriminate] ].

Lemma sweepOne_shape (st : State) (res : SweepResult) (q : Ref) :
  exists stm,
    quiet st stm q
    /\ fst (sweepOne config maxTimeSeconds env (st, res) q)
       = if evicts st q
         then returnBrowserProfile config q true (unlinkRaises (env q)) stm
         else stm.
Proof.
  unfold sweepOne, evicts.
  destruct (_ >=? maxTimeSeconds); simpl.
  2:{ eexists. split; [|reflexivity]. apply quiet_emit; [apply quiet_refl|].
    intros; discriminate. }
  destruct (truthy (protected (store st q))) eqn:Hp; simpl.
  { eexists. split; [|reflexivity]. apply quiet_emit; [apply quiet_refl|].
    intros; discriminate. }
  assert (Q1 : quiet st (emit (LogOverAge (instance (store st q))
    (getProfileAgeInSeconds (clock (env q)) (store st q))) st) q).
  { apply quiet_emit; [apply quiet_refl|]. intros; discriminate. }
  destruct (browser (store st q)) as [b|] eqn:Hb; simpl.
  - assert (Q2 : quiet st
      (emit (CallClose q b) (emit (CallManageTabs q b)
         (emit (LogOverAge (instance (store st q))
            (getProfileAgeInSeconds (clock (env q)) (store st q))) st))) q).
    { destruct Q1 as (Hs & Hu & Ha & Hf & new & He & Hc).
      repeat (split; [assumption|]).
      exists (new ++ [CallManageTabs q b; CallClose q b])%list. simpl in *.
      rewrite He, <- !app_assoc. split; [reflexivity|].
      intros r b' H. apply in_app_or in H.
      destruct H as [H|[H|[H|[]]]]; [eauto|discriminate|].
      injection H as <- <-. split; [reflexivity|exact Hp]. }
    destruct (closeRaises (env q)); simpl.
    + eexists. split; [|reflexivity]. apply quiet_emit; [exact Q2|].
      intros; discriminate.
    + match goal with
        | |- context [if ?c then _ else _] => destruct c
        end;
        (eexists; split; [|reflexivity]); quiet_from Q2.
  - match goal with
      | |- context [if ?c then _ else _] => destruct c
      end;
      (eexists; split; [|reflexivity]); quiet_from Q1.
Qed.

(** What one round of the sweep's loop does to the pool, seen from the
    slot [q] it checks and from every other slot. *)
Definition stepFacts (st st1 : State) (q : Ref) : Prop :=
  (forall r, r <> q -> store st1 r = store st r)
  /\ (forall r, r <> q -> (In r (used st1) <-> In r (used st)))
  /\ (forall r, r <> q -> (In r (available st1) <-> In r (available st)))
  /\ (forall r, instOf st1 r = instOf st r)
  /\ NoDup (map (instOf st1) (used st1))
  /\ (exists new,
        events st1 = (events st ++ new)%list
        /\ forall r b, In (CallClose r b) new ->
                       r = q /\ truthy (protected (store st q)) = false)
  /\ (evicts st q = false ->
      store st1 q = store st q /\ In q (used st1)
      /\ (In q (available st1) -> In q (available st)))
  /\ (evicts st q = true ->
      ~ In q (used st1) /\ In q (available st1)
      /\ store st1 q = resetProfile config (store st q)).

Lemma sweepOne_step (st : State) (res : SweepResult) (q : Ref) :
  NoDup (map (instOf st) (used st)) -> In q (used st) ->
  stepFacts st (fst (sweepOne config maxTimeSeconds env (st, res) q)) q.
Proof.
  intros ND Hin. unfold stepFacts.
  destruct (sweepOne_shape st res q) as (stm & Q & E). rewrite E. clear E.
  destruct Q as (Hs & Hu & Ha & Hf & new & He & Hc).
  assert (Hinst : forall r, instOf stm r = instOf st r)
    by (intros r; unfold instOf; now rewrite Hs).
  destruct (evicts st q) eqn:Ev.
  - assert (ND' : NoDup (map (instOf stm) (used stm))).
    { rewrite Hu. erewrite map_ext; [exact ND|]. exact Hinst. }
    assert (Hin' : In q (used stm)) by now rewrite Hu.
    destruct (return_used_spec config stm q true (unlinkRaises (env q))
                               ND' Hin')
      as (Hmem & Hav & Hst & NDr & newr & Her & Hcr).
    set (st1 := returnBrowserProfile config q true (unlinkRaises (env q)) stm)
      in *.
    assert (Hinst1 : forall r, instOf st1 r = instOf st r).
    { intros r. unfold instOf. rewrite Hst. unfold upd.
      destruct (Nat.eqb r q) eqn:Erq.
      - apply Nat.eqb_eq in Erq. subst r. simpl. now rewrite Hs.
      - now rewrite Hs. }
    split; [|split; [|split; [|split; [|split; [|split; [|split]]]]]].
    + intros r Hr. rewrite Hst. unfold upd.
      apply Nat.eqb_neq in Hr. rewrite Hr. now rewrite Hs.
    + intros r Hr. rewrite (Hmem r), Hu. tauto.
    + intros r Hr. rewrite Hav, Ha. split; intros H0.
      * apply in_app_or in H0. destruct H0 as [H0|[H0|[]]]; [exact H0|].
        congruence.
      * apply in_or_app. now left.
    + exact Hinst1.
    + erewrite map_ext; [exact NDr|]. intros r.
      rewrite Hinst1. symmetry. apply Hinst.
    + exists (new ++ newr)%list. rewrite Her, He, app_assoc.
      split; [reflexivity|]. intros r b H. apply in_app_or in H.
      destruct H as [H|H]; [eauto|]. exfalso. exact (Hcr r b H).
    + discriminate.
    + intros _. split; [|split].
      * intros H. apply Hmem in H. tauto.
      * rewrite Hav. apply in_or_app. right. now left.
      * rewrite Hst. unfold upd. rewrite Nat.eqb_refl. now rewrite Hs.
  - split; [|split; [|split; [|split; [|split; [|split; [|split]]]]]].
    + intros r _. now rewrite Hs.
    + intros r _. now rewrite Hu.
    + intros r _. now rewrite Ha.
    + exact Hinst.
    + rewrite Hu. erewrite map_ext; [exact ND|]. exact Hinst.
    + exists new. split; [exact He|exact Hc].
    + intros _. rewrite Hs, Hu, Ha. tauto.
    + discriminate.
Qed.

Lemma evicts_ext (st st1 : State) (r : Ref) :
  store st1 r = store st r -> evicts st1 r = evicts st r.
Proof. intros E. unfold evicts. now rewrite E. Qed.

(** What the whole loop over the snapshot [l] does. *)
Definition loopFacts (st st' : State) (l : list Ref) : Prop :=
  (forall r, ~ In r l ->
     store st' r = store st r
     /\ (In r (used st') <-> In r (used st))
     /\ (In r (available st') <-> In r (available st)))
  /\ (exists new,
        events st' = (events st ++ new)%list
        /\ forall r b, In (CallClose r b) new ->
                       In r l /\ truthy (protected (store st r)) = false)
  /\ (forall r, In r l -> evicts st r = false ->
      store st' r = store st r /\ In r (used st')
      /\ (In r (available st') -> In r (available st)))
  /\ (forall r, In r l -> evicts st r = true ->
      ~ In r (used st') /\ In r (available st')
      /\ store st' r = resetProfile config (store st r)).

Lemma sweepLoop_facts (l : list Ref) :
  forall (st : State) (res : SweepResult),
  NoDup (map (instOf st) (used st)) -> NoDup l ->
  (forall r, In r l -> In r (used st)) ->
  loopFacts st
    (fst (fold_left (sweepOne config maxTimeSeconds env) l (st, res))) l.
Proof.
  induction l as [|q l IH]; intros st res ND NDl Hsub.
  - simpl. unfold loopFacts. split; [|split; [|split]].
    + intros r _. tauto.
    + exists []. rewrite app_nil_r. split; [reflexivity|]. intros r b [].
    + intros r [].
    + intros r [].
  - inversion NDl as [|? ? Hq NDl']; subst.
    cbn [fold_left].
    pose proof (sweepOne_step st res q ND (Hsub q (or_introl eq_refl))) as Step.
    destruct (sweepOne config maxTimeSeconds env (st, res) q) as [st1 res1].
    simpl fst in Step.
    destruct Step as (S2 & S3 & S4 & S1 & S5 & (new1 & He1 & Hc1) & S7 & S8).
    assert (Hsub1 : forall r, In r l -> In r (used st1)).
    { intros r Hr. apply S3; [intros ->; contradiction|].
      apply Hsub. now right. }
    specialize (IH st1 res1 S5 NDl' Hsub1).
    set (st' := fst (fold_left (sweepOne config maxTimeSeconds env) l (st1, res1)))
      in *.
    destruct IH as (F1 & (new2 & He2 & Hc2) & F3 & F4).
    assert (Hne : forall r, In r l -> r <> q) by (intros r Hr ->; contradiction).
    unfold loopFacts. split; [|split; [|split]].
    + intros r Hr. simpl in Hr.
      assert (r <> q) by (intros ->; apply Hr; now left).
      assert (~ In r l) by (intros H0; apply Hr; now right).
      destruct (F1 r) as (A1 & A2 & A3); [assumption|].
      rewrite A1, A2, A3, S2, S3, S4 by assumption. tauto.
    + exists (new1 ++ new2)%list. rewrite He2, He1, app_assoc.
      split; [reflexivity|]. intros r b H. apply in_app_or in H.
      destruct H as [H|H].
      * destruct (Hc1 r b H) as [-> Hp]. split; [now left|exact Hp].
      * destruct (Hc2 r b H) as [Hr Hp]. split; [now right|].
        rewrite <- (S2 r (Hne r Hr)). exact Hp.
    + intros r [<-|Hr] Ev.
      * destruct (S7 Ev) as (B1 & B2 & B3).
        destruct (F1 q Hq) as (A1 & A2 & A3).
        rewrite A1, A2, A3. tauto.
      * rewrite <- (evicts_ext st st1 r (S2 r (Hne r Hr))) in Ev.
        destruct (F3 r Hr Ev) as (B1 & B2 & B3).
        rewrite B1, (S2 r (Hne r Hr)).
        split; [reflexivity|]. split; [exact B2|].
        intros H. apply (S4 r (Hne r Hr)). now apply B3.
    + intros r [<-|Hr] Ev.
      * destruct (S8 Ev) as (B1 & B2 & B3).
        destruct (F1 q Hq) as (A1 & A2 & A3).
        rewrite A1, A2, A3. tauto.
      * rewrite <- (evicts_ext st st1 r (S2 r (Hne r Hr))) in Ev.
        destruct (F4 r Hr Ev) as (B1 & B2 & B3).
        rewrite B3, (S2 r (Hne r Hr)). tauto.
Qed.

Lemma forceClose_unfold (st : State) :
  used st <> [] ->
  fst (forceCloseBrowsersOlderThan config maxTimeSeconds env st)
  = emit (LogSweepDone
            (processed (snd (fold_left (sweepOne config maxTimeSeconds env)
                               (used st)
                               (emit (LogChecking maxTimeSeconds) st,
                                mkSweepResult 0 0))))
            (closed (snd (fold_left (sweepOne config maxTimeSeconds env)
                            (used st)
                            (emit (LogChecking maxTimeSeconds) st,
                             mkSweepResult 0 0)))))
         (fst (fold_left (sweepOne config maxTimeSeconds env) (used st)
                 (emit (LogChecking maxTimeSeconds) st, mkSweepResult 0 0))).
Proof.
  intros Hne. unfold forceCloseBrowsersOlderThan.
  destruct (used st) as [|u us] eqn:Eu; [congruence|].
  destruct (fold_left _ _ _) as [st' result]. reflexivity.
Qed.

Lemma forceClose_facts (st : State) :
  NoDup (map (instOf st) (used st)) ->
  used st <> [] ->
  loopFacts st (fst (forceCloseBrowsersOlderThan config maxTimeSeconds env st))
            (used st).
Proof.
  intros ND Hne. rewrite (forceClose_unfold st Hne).
  set (st0 := emit (LogChecking maxTimeSeconds) st).
  assert (L : loopFacts st0
    (fst (fold_left (sweepOne config maxTimeSeconds env) (used st)
            (st0, mkSweepResult 0 0))) (used st)).
  { apply sweepLoop_facts.
    - exact ND.
    - eapply NoDup_map_inv; exact ND.
    - intros r Hr; exact Hr. }
  destruct (fold_left _ _ _) as [st' result]. simpl fst in *. simpl snd.
  destruct L as (F1 & (new & He & Hc) & F3 & F4).
  unfold loopFacts. split; [|split; [|split]].
  - exact F1.
  - exists ([LogChecking maxTimeSeconds] ++ new
      ++ [LogSweepDone (processed result) (closed result)])%list.
    simpl. rewrite He. simpl. rewrite <- !app_assoc. split; [reflexivity|].
    intros r b [H|H]; [discriminate|]. apply in_app_or in H.
    destruct H as [H|[H|[]]]; [exact (Hc r b H)|discriminate].
  - exact F3.
  - exact F4.
Qed.

End Sweep.

(** *** The pool's invariant: one slot per instance number *)

(** No two slots of the pool, available or checked out, carry the same
    instance number. *)
Definition wf (st : State) : Prop :=
  NoDup (map (instOf st) (available st ++ used st)).

Lemma wf_used (st : State) : wf st -> NoDup (map (instOf st) (used st)).
Proof.
  unfold wf. rewrite map_app. apply NoDup_app_remove_l.
Qed.

Lemma removeAt_split (A : Type) (i : nat) (l : list A) (d : A) :
  (i < List.length l)%nat ->
  exists l1 l2, l = l1 ++ nth i l d :: l2 /\ removeAt i l = l1 ++ l2.
Proof.
  revert i; induction l as [|a l IH]; intros i Hi; simpl in Hi; [lia|].
  destruct i as [|i].
  - exists [], l. split; reflexivity.
  - destruct (IH i) as (l1 & l2 & E1 & E2); [lia|].
    exists (a :: l1), l2. simpl. rewrite <- E1, E2. split; reflexivity.
Qed.

Section Invariant.
Variable config : BotConfig.

Lemma wf_get (context : string) (now : Z) (st : State) :
  wf st -> wf (snd (getBrowserProfile context now st)).
Proof.
  unfold wf, getBrowserProfile.
  destruct (available st) as [|r rest] eqn:E; simpl; rewrite ?E; [trivial|].
  intros ND.
  assert (Hinst : forall x,
    instance (upd (store st) r
                (mkProfile
                   (Str.replaceAll "{__context__}" context
                                   (profile (store st r)))
                   (Str.replaceAll "{__context__}" context
                                   (pid (store st r)))
                   (instance (store st r)) (browser (store st r))
                   (Some now) (protected (store st r))) x)
    = instOf st x).
  { intros x. unfold upd, instOf. destruct (Nat.eqb x r) eqn:Ex; [|reflexivity].
    apply Nat.eqb_eq in Ex. now subst. }
  unfold instOf at 1. simpl. erewrite map_ext; [|exact Hinst].
  rewrite app_assoc, map_app. simpl.
  eapply Permutation_NoDup; [apply Permutation_cons_append|exact ND].
Qed.

Lemma wf_return (p : Ref) (deleteFile unlinkFails : bool) (st : State) :
  wf st -> wf (returnBrowserProfile config p deleteFile unlinkFails st).
Proof.
  unfold wf. intros ND. unfold returnBrowserProfile.
  destruct (findIndex _ (used st)) as [index|] eqn:E; [|exact ND].
  pose proof (findIndex_lt _ _ _ _ E) as Hlt.
  pose proof (findIndex_pred _ _ _ _ p E) as Hp. cbv beta in Hp.
  apply Z.eqb_eq in Hp.
  destruct (removeAt_split _ index (used st) p Hlt) as (l1 & l2 & E1 & E2).
  set (o' := mkProfile _ _ _ _ _ _).
  assert (Hinst : forall x, instance (upd (store st) p o' x) = instOf st x).
  { intros x. unfold upd, instOf. destruct (Nat.eqb x p) eqn:Ex; [|reflexivity].
    apply Nat.eqb_eq in Ex. now subst. }
  assert (Goal : NoDup (map (instOf st)
    ((available st ++ [p]) ++ removeAt index (used st)))).
  { rewrite E2, <- app_assoc. simpl.
    rewrite E1 in ND. rewrite !map_app in ND. simpl in ND.
    fold (instOf st (nth index (used st) p)) in Hp. rewrite Hp in ND.
    rewrite !map_app. simpl. rewrite map_app.
    change (instOf st p) with (instance (store st p)).
    eapply Permutation_NoDup; [|exact ND].
    apply Permutation_app_head. symmetry. apply Permutation_middle. }
  destruct (deleteFile && _)%bool; [destruct unlinkFails|]; simpl;
    unfold instOf at 1; simpl;
    (erewrite map_ext; [exact Goal|exact Hinst]).
Qed.

Lemma wf_newPool (s0 : Ref -> BrowserProfile) (n0 : Ref) (fs : list string) :
  wf (newPool config s0 n0 fs).
Proof.
  assert (Loop : forall l st,
    (forall r, In r (available st) -> (r < nextRef st)%nat) ->
    used st = [] ->
    let st' := fold_left (initSlot config) l st in
    map (instOf st') (available st')
    = map (instOf st) (available st) ++ l
    /\ used st' = []
    /\ forall r, In r (available st') -> (r < nextRef st')%nat).
  { induction l as [|i l IH]; intros st Hfresh Hused; simpl.
    - rewrite app_nil_r. auto.
    - destruct (IH (initSlot config st i)) as (M & U & Fr).
      + unfold initSlot; simpl. intros r Hr. apply in_app_or in Hr.
        destruct Hr as [Hr|[<-|[]]]; [specialize (Hfresh r Hr)|]; lia.
      + exact Hused.
      + split; [|split; assumption].
        rewrite M. unfold initSlot at 1 2. simpl. rewrite map_app. simpl.
        rewrite <- app_assoc. simpl. f_equal.
        * apply map_ext_in. intros r Hr. unfold instOf, upd. simpl.
          replace (Nat.eqb r (nextRef st)) with false; [reflexivity|].
          symmetry. apply Nat.eqb_neq. specialize (Hfresh r Hr). lia.
        * unfold instOf, upd. simpl. now rewrite Nat.eqb_refl. }
  unfold wf, newPool, initPool.
  destruct (Loop (slotNumbers (effectivePoolSize config))
                 (mkState s0 n0 [] [] fs []))
    as (M & U & _); [intros r []|reflexivity|].
  simpl in *. unfold instOf at 1. simpl.
  fold (instOf (fold_left (initSlot config)
    (slotNumbers (effectivePoolSize config))
    (mkState s0 n0 [] [] fs []))).
  rewrite U, app_nil_r, M. unfold slotNumbers.
  apply Injective_map_NoDup; [intros x y; apply Nat2Z.inj|apply seq_NoDup].
Qed.

Lemma wf_quiet (st stm : State) (q : Ref) : quiet st stm q -> wf st -> wf stm.
Proof.
  intros (Hs & Hu & Ha & _) W. unfold wf, instOf in *. now rewrite Hs, Hu, Ha.
Qed.

Lemma wf_sweep (maxTimeSeconds : Z) (env : Ref -> SweepEnv) (st : State) :
  wf st -> wf (fst (forceCloseBrowsersOlderThan config maxTimeSeconds env st)).
Proof.
  assert (Loop : forall l st res,
    wf st ->
    wf (fst (fold_left (sweepOne config maxTimeSeconds env) l (st, res)))).
  { induction l as [|q l IH]; intros st0 res W; [exact W|].
    cbn [fold_left].
    destruct (sweepOne_shape config maxTimeSeconds env st0 res q)
      as (stm & Q & E).
    destruct (sweepOne config maxTimeSeconds env (st0, res) q) as [st1 res1].
    simpl in E. apply IH. rewrite E.
    destruct (evicts maxTimeSeconds env st0 q);
      [apply wf_return|]; eapply wf_quiet; eassumption. }
  intros W. unfold forceCloseBrowsersOlderThan.
  destruct (used st) as [|u us] eqn:Eu; [exact W|]. rewrite <- Eu.
  specialize (Loop (used st) (emit (LogChecking maxTimeSeconds) st)
    (mkSweepResult 0 0) W).
  destruct (fold_left _ _ _) as [st' result]. exact Loop.
Qed.

Lemma wf_write (st st' : State) :
  (forall x, instOf st' x = instOf st x) ->
  available st' = available st -> used st' = used st -> wf st -> wf st'.
Proof.
  intros Hi Ha Hu W. unfold wf in *. rewrite Ha, Hu.
  erewrite map_ext; [exact W|exact Hi].
Qed.

(** The states a pool can be in: built by the constructor, then changed
    by the pool's methods, by the sweep, by callers' writes to
    [protected] and [browser], and by the PID files that [initBrowser]
    writes and removes.  The clock, the browser and the file system may
    answer anything during a step. *)
Inductive reachable : State -> Prop :=
  | reach_new (s0 : Ref -> BrowserProfile) (n0 : Ref) (fs : list string) :
      reachable (newPool config s0 n0 fs)
  | reach_get (context : string) (now : Z) (st : State) :
      reachable st -> reachable (snd (getBrowserProfile context now st))
  | reach_return (p : Ref) (deleteFile unlinkFails : bool) (st : State) :
      reachable st ->
      reachable (returnBrowserProfile config p deleteFile unlinkFails st)
  | reach_sweep (maxTimeSeconds : Z) (env : Ref -> SweepEnv) (st : State) :
      reachable st ->
      reachable (fst (forceCloseBrowsersOlderThan config maxTimeSeconds env st))
  | reach_protect (p : Ref) (b : bool) (st : State) :
      reachable st -> reachable (setProtected p b st)
  | reach_browser (p : Ref) (b : Browser) (st : State) :
      reachable st -> reachable (setBrowser p b st)
  | reach_writePid (p : Ref) (st : State) :
      reachable st -> reachable (writePidFile p st)
  | reach_dropPid (p : Ref) (st : State) :
      reachable st -> reachable (dropStalePidFile p st).

(** Every reachable pool state satisfies the invariant, and with it the
    hypothesis on instance numbers of the theorems in this module. *)
Lemma reachable_wf (st : State) : reachable st -> wf st.
Proof.
  induction 1.
  - apply wf_newPool.
  - now apply wf_get.
  - now apply wf_return.
  - now apply wf_sweep.
  - apply (wf_write st (setProtected p b st));
      [| reflexivity | reflexivity | assumption].
    intros x. unfold instOf, setProtected, upd; simpl.
    destruct (Nat.eqb x p) eqn:Ex; [|reflexivity].
    apply Nat.eqb_eq in Ex. now subst.
  - apply (wf_write st (setBrowser p b st));
      [| reflexivity | reflexivity | assumption].
    intros x. unfold instOf, setBrowser, upd; simpl.
    destruct (Nat.eqb x p) eqn:Ex; [|reflexivity].
    apply Nat.eqb_eq in Ex. now subst.
  - apply (wf_write st (writePidFile p st)); auto.
  - apply (wf_write st (dropStalePidFile p st)); auto.
Qed.

(** [initBrowser] keeps the pool among these states, whatever the PID
    check, the launch and the page set-up answer. *)
Lemma reachable_initBrowser (context : string) (env : Run.InitEnv)
      (st : State) :
  reachable st -> reachable (snd (Run.initBrowser config context env st)).
Proof.
  intros R. unfold Run.initBrowser.
  pose proof (reach_get context (Run.now env) st R) as G.
  destruct (getBrowserProfile context (Run.now env) st) as [[p|] ps1];
    simpl in G; [|exact G].
  destruct (Run.pidAlreadyRunning env); [now apply reach_return|].
  destruct (Run.launched env) as [b|]; [|now apply reach_dropPid].
  destruct (Run.pageReady env); simpl;
    apply reach_writePid, reach_browser, reach_dropPid; exact G.
Qed.

End Invariant.

(** *** Where the sweep calls [browser.close()] *)

Section SweepCalls.
Variable config : BotConfig.
Variable maxTimeSeconds : Z.
Variable env : Ref -> SweepEnv.

(** The sweep finds the slot over age, not protected and with the
    browser [b]: the conditions under which it calls [b.close()]. *)
Definition dueForClose (st : State) (q : Ref) (b : Browser) : Prop :=
  maxTimeSeconds <= getProfileAgeInSeconds (clock (env q)) (store st q)
  /\ truthy (protected (store st q)) = false
  /\ browser (store st q) = Some b.

Lemma return_events (p : Ref) (deleteFile unlinkFails : bool) (st : State) :
  exists new,
    events (returnBrowserProfile config p deleteFile unlinkFails st)
    = (events st ++ new)%list.
Proof.
  unfold returnBrowserProfile.
  destruct (findIndex _ (used st));
    [destruct (deleteFile && _)%bool; [destruct unlinkFails|]|];
    simpl; eexists; rewrite <- ?app_assoc; reflexivity.
Qed.

Lemma sweepOne_calls_close (st : State) (res : SweepResult) (q : Ref)
      (b : Browser) :
  dueForClose st q b ->
  exists new,
    events (fst (sweepOne config maxTimeSeconds env (st, res) q))
    = (events st ++ new)%list
    /\ In (CallClose q b) new.
Proof.
  intros (Hage & Hp & Hb). unfold sweepOne.
  replace (_ >=? maxTimeSeconds) with true
    by (symmetry; apply Z.geb_le; exact Hage).
  rewrite Hp, Hb.
  destruct (closeRaises (env q)).
  - simpl. eexists. rewrite <- !app_assoc. split; [reflexivity|].
    simpl. auto.
  - cbn [fst].
    match goal with
    | |- context [returnBrowserProfile config q true ?u ?stk] =>
        destruct (return_events q true u stk) as (newr & Er);
        assert (Ek : exists mid,
                   events stk = (events st ++ mid)%list
                   /\ In (CallClose q b) mid)
    end.
    { match goal with
      | |- context [if ?c then _ else _] => destruct c
      end; simpl; eexists; rewrite <- !app_assoc;
        (split; [reflexivity|]); simpl; auto. }
    destruct Ek as (mid & Ek & Hin).
    exists (mid ++ newr)%list. rewrite Er, Ek, app_assoc.
    split; [reflexivity|]. apply in_or_app. now left.
Qed.

Lemma sweepLoop_calls_close (l : list Ref) :
  forall (st : State) (res : SweepResult) (q : Ref) (b : Browser),
    NoDup (map (instOf st) (used st)) -> NoDup l ->
    (forall r, In r l -> In r (used st)) ->
    In q l -> dueForClose st q b ->
    exists new,
      events (fst (fold_left (sweepOne config maxTimeSeconds env) l (st, res)))
      = (events st ++ new)%list
      /\ In (CallClose q b) new.
Proof.
  induction l as [|h l IH]; intros st res q b ND NDl Hsub Hq Due;
    [destruct Hq|].
  inversion NDl as [|? ? Hh NDl']; subst.
  cbn [fold_left].
  pose proof (sweepOne_step config maxTimeSeconds env st res h ND
                (Hsub h (or_introl eq_refl))) as Step.
  pose proof (sweepOne_calls_close st res h) as Call.
  destruct (sweepOne config maxTimeSeconds env (st, res) h) as [st1 res1].
  simpl fst in Step, Call.
  destruct Step as (S2 & S3 & _ & _ & S5 & (new1 & He1 & _) & _ & _).
  assert (Hsub1 : forall r, In r l -> In r (used st1)).
  { intros r Hr. apply S3; [intros ->; contradiction|].
    apply Hsub. now right. }
  destruct Hq as [->|Hq].
  - destruct (Call b Due) as (newc & Ec & Hin).
    destruct (sweepLoop_facts config maxTimeSeconds env l st1 res1 S5 NDl' Hsub1)
      as (_ & (new2 & He2 & _) & _).
    exists (newc ++ new2)%list. rewrite He2, Ec, app_assoc.
    split; [reflexivity|]. apply in_or_app. now left.
  - assert (Hne : q <> h) by (intros ->; contradiction).
    assert (Due1 : dueForClose st1 q b).
    { unfold dueForClose in *. now rewrite (S2 q Hne). }
    destruct (IH st1 res1 q b S5 NDl' Hsub1 Hq Due1) as (new2 & He2 & Hin).
    exists (new1 ++ new2)%list. rewrite He2, He1, app_assoc.
    split; [reflexivity|]. apply in_or_app. now right.
Qed.

Lemma forceClose_calls_close (st : State) (q : Ref) (b : Browser) :
  NoDup (map (instOf st) (used st)) -> In q (used st) ->
  dueForClose st q b ->
  exists new,
    events (fst (forceCloseBrowsersOlderThan config maxTimeSeconds env st))
    = (events st ++ new)%list
    /\ In (CallClose q b) new.
Proof.
  intros ND Hin Due.
  assert (Hne : used st <> []) by (intros E; rewrite E in Hin; contradiction).
  rewrite (forceClose_unfold config maxTimeSeconds env st Hne).
  set (st0 := emit (LogChecking maxTimeSeconds) st).
  destruct (sweepLoop_calls_close (used st) st0 (mkSweepResult 0 0) q b)
    as (new & He & Hc); auto.
  { eapply NoDup_map_inv; exact ND. }
  destruct (fold_left _ _ _) as [st' result]. simpl fst in *. simpl snd.
  exists ([LogChecking maxTimeSeconds] ++ new
          ++ [LogSweepDone (processed result) (closed result)])%list.
  simpl. rewrite He. simpl. rewrite <- !app_assoc. split; [reflexivity|].
  right. apply in_or_app. now left.
Qed.

End SweepCalls.

(** *** A concrete pool used by the examples below *)

Definition exampleConfig : BotConfig :=
  mkConfig "/data/{__context__}/profile_{__instance__}" (Some 3).

Definition blankStore : Ref -> BrowserProfile :=
  fun _ => mkProfile "" "" 0 None None None.

(** A pool of three slots whose first slot (reference 0) has been
    allocated at time 1000 for context "default" and given browser 7. *)
Definition exampleCheckedOut : State :=
  setBrowser 0%nat 7%nat
    (snd (getBrowserProfile "default" 1000
            (newPool exampleConfig blankStore 0%nat []))).

Example exampleCheckedOut_slot :
  used exampleCheckedOut = [0%nat]
  /\ available exampleCheckedOut = [1%nat; 2%nat]
  /\ profile (store exampleCheckedOut 0%nat) = "/data/default/profile_01"
  /\ pid (store exampleCheckedOut 0%nat) = "/data/default/profile_01/pid.txt"
  /\ profile (store exampleCheckedOut 1%nat) = "/data/{__context__}/profile_02".
Proof. repeat split; reflexivity. Qed.

Lemma exampleCheckedOut_reachable : reachable exampleConfig exampleCheckedOut.
Proof. apply reach_browser, reach_get, reach_new. Qed.

Lemma exampleCheckedOut_wf : wf exampleCheckedOut.
Proof. exact (reachable_wf exampleConfig _ exampleCheckedOut_reachable). Qed.

Lemma NoDup_app_disjoint (A : Type) (l1 l2 : list A) (x : A) :
  NoDup (l1 ++ l2) -> In x l1 -> In x l2 -> False.
Proof.
  induction l1 as [|a l1 IH]; simpl; intros ND H1 H2; [contradiction|].
  inversion ND as [|? ? Hnot ND']; subst.
  destruct H1 as [->|H1]; [|now apply IH].
  apply Hnot. apply in_or_app. now right.
Qed.

(** C7. Idempotent release.  In every pool state that satisfies the
    pool's invariant [wf] (every state the constructor, the pool's
    methods, the sweep and [initBrowser] lead to, by [reachable_wf]),
    [returnBrowserProfile] called on a slot that is in the available
    list changes neither list, no field of any object and no file; it
    returns normally, and its only effect is one WARNING log line. *)
Theorem C7_release_of_available_slot :
  forall (config : BotConfig) (st : State) (p : Ref)
         (deleteFile unlinkFails : bool),
    wf st ->
    In p (available st) ->
    let st' := returnBrowserProfile config p deleteFile unlinkFails st in
    available st' = available st
    /\ used st' = used st
    /\ (forall r, store st' r = store st r)
    /\ files st' = files st
    /\ events st' = (events st ++ [WarnUnknownReturn (instOf st p)])%list.
Proof.
  intros config st p deleteFile unlinkFails ND Hin st'. unfold wf in ND.
  assert (E : st' = emit (WarnUnknownReturn (instance (store st p))) st).
  { apply return_unknown. intros q Hq Heq.
    assert (q = p).
    { apply (NoDup_map_inj _ _ (instOf st) (available st ++ used st)); auto;
        apply in_or_app; [now right|now left]. }
    subst q. exact (NoDup_app_disjoint _ _ _ p (NoDup_map_inv _ _ ND) Hin Hq). }
  rewrite E. repeat split; reflexivity.
Qed.

(** C7 at the example pool: slot 1 is available and is released again. *)
Lemma C7_release_of_available_slot_witness :
  available (returnBrowserProfile exampleConfig 1%nat true false
                                  exampleCheckedOut)
  = [1%nat; 2%nat]
  /\ used (returnBrowserProfile exampleConfig 1%nat true false
                                exampleCheckedOut)
     = [0%nat].
Proof.
  assert (Hin : In 1%nat (available exampleCheckedOut)) by (simpl; auto).
  destruct (C7_release_of_available_slot exampleConfig exampleCheckedOut 1%nat
    true false exampleCheckedOut_wf Hin) as (Ha & Hu & _).
  split; [exact Ha|exact Hu].
Defined.

(** C6 as stated fails: after the release of a checked-out, protected
    slot the flag is still set. *)
Lemma C6_protected_flag_survives_release :
  let st := setProtected 0%nat true exampleCheckedOut in
  In 0%nat (used st)
  /\ truthy (protected (store (returnBrowserProfile exampleConfig 0%nat true
                                                    false st)
                              0%nat)) = true.
Proof. split; [simpl; auto|reflexivity]. Qed.

(** C6 (amended). Release resets slot state.  In every pool state that
    satisfies the pool's invariant [wf] (every state the constructor,
    the pool's methods, the sweep and [initBrowser] lead to, by
    [reachable_wf]), for a checked-out slot [p], [returnBrowserProfile]
    sets [profile] and [pid] to the paths [getProfilePath] /
    [getPidFilePath] give for the slot's instance number (the template
    with only the instance filled in), sets [browser] and [usedSince] to
    null, removes [p] from the used list and appends it to the available
    list, whether or not the PID file is deleted.  The [protected] field
    is left as it was. *)
Theorem C6_release_resets_slot :
  forall (config : BotConfig) (st : State) (p : Ref)
         (deleteFile unlinkFails : bool),
    wf st ->
    In p (used st) ->
    let st' := returnBrowserProfile config p deleteFile unlinkFails st in
    let instanceNum := instanceNumOf (instOf st p) in
    profile (store st' p) = getProfilePath config instanceNum
    /\ pid (store st' p) = (getProfilePath config instanceNum ++ "/pid.txt")%string
    /\ browser (store st' p) = None
    /\ usedSince (store st' p) = None
    /\ protected (store st' p) = protected (store st p)
    /\ instOf st' p = instOf st p
    /\ ~ In p (used st')
    /\ available st' = (available st ++ [p])%list.
Proof.
  intros config st p deleteFile unlinkFails W Hin st' instanceNum.
  pose proof (wf_used st W) as ND.
  destruct (return_used_spec config st p deleteFile unlinkFails ND Hin)
    as (Hmem & Hav & Hstore & _ & _).
  fold st' in Hmem, Hav, Hstore.
  unfold instOf. rewrite Hstore. unfold upd. rewrite Nat.eqb_refl. simpl.
  repeat split; try reflexivity; try exact Hav.
  intros H. apply Hmem in H. tauto.
Qed.

(** C6 (amended) at the example pool: slot 0 goes back to its template
    paths. *)
Lemma C6_release_resets_slot_witness :
  let st' := returnBrowserProfile exampleConfig 0%nat true false
                                  exampleCheckedOut in
  profile (store st' 0%nat) = "/data/{__context__}/profile_01"
  /\ browser (store st' 0%nat) = None
  /\ available st' = [1%nat; 2%nat; 0%nat].
Proof.
  assert (Hin : In 0%nat (used exampleCheckedOut)) by (simpl; auto).
  destruct (C6_release_resets_slot exampleConfig exampleCheckedOut 0%nat true
              false exampleCheckedOut_wf Hin)
    as (Hp & _ & Hb & _ & _ & _ & _ & Hav).
  split; [exact Hp|split; [exact Hb|exact Hav]].
Defined.

(** The failing input of C2: slot 0 is not protected and 20 s old
    against a threshold of 15 s, but [browser.close()] rejects; the sweep
    counts it as checked, closes nothing, and the slot is still checked
    out. *)
Lemma C2_close_failure_blocks_eviction :
  let env := fun _ : Ref => mkSweepEnv 21000 true false false in
  let out := forceCloseBrowsersOlderThan exampleConfig 15 env exampleCheckedOut in
  truthy (protected (store exampleCheckedOut 0%nat)) = false
  /\ getProfileAgeInSeconds 21000 (store exampleCheckedOut 0%nat) = 20
  /\ used (fst out) = [0%nat]
  /\ available (fst out) = [1%nat; 2%nat]
  /\ snd out = mkSweepResult 1 0.
Proof. repeat split; reflexivity. Qed.

(** C2. Protection invariant of eviction, and where the code departs
    from it.  In every pool state that satisfies the pool's invariant
    [wf] (every state the constructor, the pool's methods, the sweep and
    [initBrowser] lead to, by [reachable_wf]), one run of
    [forceCloseBrowsersOlderThan] leaves a checked-out slot whose
    [protected] flag is true alone, however old it is: the slot stays in
    the used list, does not enter the available list, its object keeps
    every field, and no [browser.close()] is issued for it.  For a
    checked-out slot that is not protected and whose age is at least the
    threshold, [browser.close()] is called on its browser if it has one.
    If the slot has no browser or the call does not raise, the slot is
    released: removed from the used list, appended to the available
    list, fields reset.  If the call raises, the error passes the
    [try ... finally] around it and reaches the [catch] of the slot: the
    slot is not released, it stays in the used list with every field as
    it was. *)
Theorem C2_protected_slot_not_evicted :
  forall (config : BotConfig) (maxTimeSeconds : Z) (env : Ref -> SweepEnv)
         (st : State) (p : Ref),
    wf st ->
    In p (used st) ->
    let st' := fst (forceCloseBrowsersOlderThan config maxTimeSeconds env st) in
    (truthy (protected (store st p)) = true ->
       In p (used st')
       /\ (In p (available st') -> In p (available st))
       /\ store st' p = store st p
       /\ exists new, events st' = (events st ++ new)%list
                      /\ forall b, ~ In (CallClose p b) new)
    /\ (truthy (protected (store st p)) = false ->
        maxTimeSeconds <= getProfileAgeInSeconds (clock (env p)) (store st p) ->
        (forall b, browser (store st p) = Some b ->
                   exists new, events st' = (events st ++ new)%list
                               /\ In (CallClose p b) new)
        /\ ((browser (store st p) <> None -> closeRaises (env p) = false) ->
            ~ In p (used st')
            /\ In p (available st')
            /\ store st' p = resetProfile config (store st p))
        /\ (browser (store st p) <> None -> closeRaises (env p) = true ->
            In p (used st')
            /\ (In p (available st') -> In p (available st))
            /\ store st' p = store st p)).
Proof.
  intros config maxTimeSeconds env st p W Hin st'.
  pose proof (wf_used st W) as ND.
  assert (Hne : used st <> []) by (intros E; rewrite E in Hin; contradiction).
  destruct (forceClose_facts config maxTimeSeconds env st ND Hne)
    as (_ & (new & He & Hc) & F3 & F4).
  fold st' in He, F3, F4.
  split.
  - intros Hp.
    assert (Ev : evicts maxTimeSeconds env st p = false).
    { unfold evicts. rewrite Hp. simpl. now rewrite andb_false_r. }
    destruct (F3 p Hin Ev) as (B1 & B2 & B3).
    split; [exact B2|]. split; [exact B3|]. split; [exact B1|].
    exists new. split; [exact He|].
    intros b H. destruct (Hc p b H) as [_ Hf]. congruence.
  - intros Hp Hage.
    assert (Hgeb : (getProfileAgeInSeconds (clock (env p)) (store st p)
                    >=? maxTimeSeconds) = true)
      by (apply Z.geb_le; exact Hage).
    split; [|split].
    + intros b Hb.
      exact (forceClose_calls_close config maxTimeSeconds env st p b ND Hin
               (conj Hage (conj Hp Hb))).
    + intros Hclose.
      assert (Ev : evicts maxTimeSeconds env st p = true).
      { unfold evicts. rewrite Hp, Hgeb. simpl.
        destruct (browser (store st p)); [|reflexivity].
        rewrite Hclose; [reflexivity|discriminate]. }
      exact (F4 p Hin Ev).
    + intros Hb Hraise.
      assert (Ev : evicts maxTimeSeconds env st p = false).
      { unfold evicts. rewrite Hp, Hgeb. simpl.
        destruct (browser (store st p)); [|congruence].
        now rewrite Hraise. }
      destruct (F3 p Hin Ev) as (B1 & B2 & B3).
      split; [exact B2|]. split; [exact B3|exact B1].
Qed.

(** C2 at the example pool: slot 0, checked out at time 1000 ms and
    looked at when the clock shows 21000 ms, is 20 s old.  Against a
    threshold of 15 s it is released when unprotected and kept when
    protected. *)
Lemma C2_protected_slot_not_evicted_witness :
  let env := fun _ : Ref => mkSweepEnv 21000 false false false in
  let free := exampleCheckedOut in
  let held := setProtected 0%nat true exampleCheckedOut in
  getProfileAgeInSeconds 21000 (store free 0%nat) = 20
  /\ ~ In 0%nat (used (fst (forceCloseBrowsersOlderThan exampleConfig 15 env free)))
  /\ In 0%nat (used (fst (forceCloseBrowsersOlderThan exampleConfig 15 env held))).
Proof.
  intros env free held.
  assert (Wf : wf free) by exact exampleCheckedOut_wf.
  assert (Wh : wf held).
  { apply (reachable_wf exampleConfig). apply reach_protect.
    exact exampleCheckedOut_reachable. }
  assert (Hf : In 0%nat (used free)) by (simpl; auto).
  assert (Hh : In 0%nat (used held)) by (simpl; auto).
  split; [reflexivity|]. split.
  - destruct (C2_protected_slot_not_evicted exampleConfig 15 env free 0%nat Wf Hf)
      as [_ H].
    destruct H as (_ & H & _); [reflexivity|vm_compute; discriminate|].
    apply H. reflexivity.
  - destruct (C2_protected_slot_not_evicted exampleConfig 15 env held 0%nat Wh Hh)
      as [H _].
    apply H. reflexivity.
Defined.

(** Slot exclusivity.  In every state the pool can reach, each slot is
    in exactly one of the two lists: no instance number occurs twice in
    [available ++ used], so no reference is in both lists or twice in
    one. *)
Theorem slot_in_one_list :
  forall (config : BotConfig) (st : State),
    reachable config st ->
    NoDup (map (instOf st) (available st ++ used st))
    /\ NoDup (available st ++ used st)
    /\ forall p, In p (available st) -> ~ In p (used st).
Proof.
  intros config st R. pose proof (reachable_wf config st R) as W.
  split; [exact W|]. split; [exact (NoDup_map_inv _ _ W)|].
  intros p Ha Hu.
  exact (NoDup_app_disjoint _ _ _ p (NoDup_map_inv _ _ W) Ha Hu).
Qed.

(** Slot exclusivity at the example pool. *)
Lemma slot_in_one_list_witness :
  NoDup (available exampleCheckedOut ++ used exampleCheckedOut).
Proof.
  destruct (slot_in_one_list exampleConfig exampleCheckedOut
    exampleCheckedOut_reachable) as (_ & H & _).
  exact H.
Defined.

End PoolFacts.

(** ** Facts about the order-code tracking and the classification *)
Module TrackerFacts.
Import Tracker.

Lemma inList_In (x : string) (l : list string) :
  Str.inList x l = true <-> In x l.
Proof.
  unfold Str.inList. rewrite existsb_exists. split.
  - intros (y & Hy & E). apply String.eqb_eq in E. now subst.
  - intros H. exists x. split; [exact H|apply String.eqb_refl].
Qed.

Lemma inList_false (x : string) (l : list string) :
  Str.inList x l = false <-> ~ In x l.
Proof.
  rewrite <- inList_In. destruct (Str.inList x l); split; congruence.
Qed.

Lemma dedupe_from_In (l acc : list string) (x : string) :
  In x (fold_left (fun acc x => if Str.inList x acc then acc else acc ++ [x])
                  l acc)
  <-> In x acc \/ In x l.
Proof.
  revert acc; induction l as [|y l IH]; intros acc; simpl; [tauto|].
  rewrite IH. destruct (Str.inList y acc) eqn:E.
  - apply inList_In in E. split; [tauto|].
    intros [H|[<-|H]]; tauto.
  - rewrite in_app_iff. simpl. tauto.
Qed.

Lemma dedupe_In (l : list string) (x : string) : In x (dedupe l) <-> In x l.
Proof. unfold dedupe. rewrite dedupe_from_In. simpl. tauto. Qed.

Lemma addNotFound_In (processedSet l acc : list string) (c : string) :
  In c (fold_left (addNotFound processedSet) l acc) ->
  In c acc \/ (In c l /\ ~ In c processedSet).
Proof.
  revert acc; induction l as [|y l IH]; intros acc; simpl; [tauto|].
  intros H. apply IH in H. unfold addNotFound in H.
  destruct (Str.inList y processedSet) eqn:E1; simpl in H; [tauto|].
  apply inList_false in E1.
  destruct (Str.inList y acc); simpl in H; [tauto|].
  rewrite in_app_iff in H. simpl in H.
  destruct H as [[H|[<-|[]]]|H]; tauto.
Qed.

(** [g'] holds the tracking of [g] with possibly more processed codes;
    the valid and not-found arrays are untouched. *)
Definition grows (g g' : Globals) : Prop :=
  match orderCodeTracking g with
  | None => orderCodeTracking g' = None
  | Some t =>
      exists t', orderCodeTracking g' = Some t'
                 /\ valid t' = valid t /\ notFound t' = notFound t
                 /\ incl (processed t) (processed t')
  end.

Lemma grows_refl (g : Globals) : grows g g.
Proof.
  unfold grows. destruct (orderCodeTracking g) as [t|]; [|reflexivity].
  exists t. repeat split; try reflexivity. apply incl_refl.
Qed.

Lemma grows_trans (g1 g2 g3 : Globals) :
  grows g1 g2 -> grows g2 g3 -> grows g1 g3.
Proof.
  unfold grows. destruct (orderCodeTracking g1) as [t1|].
  - intros (t2 & E2 & V2 & N2 & I2). rewrite E2.
    intros (t3 & E3 & V3 & N3 & I3). exists t3.
    split; [exact E3|]. split; [congruence|]. split; [congruence|].
    eapply incl_tran; eassumption.
  - intros ->. trivial.
Qed.

Lemma grows_markProcessed (c : string) (g : Globals) :
  grows g (markProcessed c g).
Proof.
  unfold markProcessed, grows.
  destruct (orderCodeTracking g) as [t|] eqn:E; [|exact E].
  destruct (Str.inList c (processed t)).
  - exists t. rewrite E. repeat split; try reflexivity. apply incl_refl.
  - eexists. simpl. repeat split; try reflexivity. apply incl_appl, incl_refl.
Qed.

Lemma grows_pushResult (r : OrderResult) (g : Globals) :
  grows g (pushResult r g).
Proof.
  unfold pushResult, grows. simpl.
  destruct (orderCodeTracking g) as [t|]; [|reflexivity].
  exists t. repeat split; try reflexivity. apply incl_refl.
Qed.

Lemma grows_scanRows (targetCode : string) (user : option string)
      (rows : list RowOutcome) :
  forall (found : bool) (st : SearchState),
    grows (globals st)
          (globals (snd (scanRows targetCode user rows found st))).
Proof.
  induction rows as [|row rows IH]; intros found st; simpl.
  - apply grows_refl.
  - destruct row as [|code check backRaises]; [apply IH|].
    assert (G : grows (globals st)
      (globals (openRow targetCode code user check st))).
    { simpl. eapply grows_trans; [apply grows_markProcessed|].
      apply grows_pushResult. }
    destruct backRaises; simpl; [|exact G].
    eapply grows_trans; [exact G|apply IH].
Qed.

Lemma grows_searchOne (already : list string) (user : option string)
      (search : nat -> SearchOutcome) (st : SearchState) (entry : nat * string) :
  grows (globals st) (globals (searchOne already user search st entry)).
Proof.
  unfold searchOne. destruct entry as [k targetCode].
  destruct (Str.inList targetCode already); [apply grows_refl|].
  destruct (search k) as [|rows]; [apply grows_refl|].
  pose proof (grows_scanRows targetCode user rows false st) as G.
  destruct (scanRows targetCode user rows false st) as [found st'].
  simpl in G. destruct found; exact G.
Qed.

Lemma grows_search (orderCodes : list string) (user : option string)
      (search : nat -> SearchOutcome) (g : Globals) :
  grows g (snd (searchAndClickOrderCodes orderCodes user search g)).
Proof.
  unfold searchAndClickOrderCodes. simpl.
  set (already := match orderCodeTracking g with
                  | Some t => processed t
                  | None => []
                  end).
  change g with (globals (mkSearchState [] [] [] g)) at 1.
  generalize (mkSearchState [] [] [] g).
  induction (indexed (map normalize orderCodes)) as [|entry l IH];
    intros st; simpl; [apply grows_refl|].
  eapply grows_trans; [apply grows_searchOne|apply IH].
Qed.

(** The tracking splits its codes: no processed code is in [notFound]. *)
Definition partitioned (t : Tracking) : Prop :=
  forall c, In c (processed t) -> ~ In c (notFound t).

Lemma updateTracking_spec (r : SearchResult) (g : Globals) (t : Tracking) :
  orderCodeTracking g = Some t ->
  exists t', orderCodeTracking (updateTracking r g) = Some t'
             /\ valid t' = valid t
             /\ incl (processed t) (processed t')
             /\ incl (resultProcessed r) (processed t')
             /\ partitioned t'
             /\ (forall c, In c (notFound t') ->
                           In c (notFound t) \/ In c (resultNotFound r)).
Proof.
  intros E. unfold updateTracking. rewrite E. eexists. simpl.
  split; [reflexivity|]. split; [reflexivity|].
  split; [|split; [|split]].
  - intros c Hc. apply dedupe_In, in_or_app. now left.
  - intros c Hc. apply dedupe_In, in_or_app. now right.
  - intros c Hc Hn. simpl in *. apply addNotFound_In in Hn.
    destruct Hn as [Hn|[_ Hn]]; [|contradiction].
    apply filter_In in Hn. destruct Hn as [_ Hn].
    apply negb_true_iff, inList_false in Hn. contradiction.
  - intros c Hn. simpl in Hn. apply addNotFound_In in Hn.
    destruct Hn as [Hn|[Hn _]]; [|now right].
    apply filter_In in Hn. left. tauto.
Qed.

Lemma cleanNotFound_spec (g : Globals) (t : Tracking) :
  orderCodeTracking g = Some t ->
  exists t', orderCodeTracking (cleanNotFound g) = Some t'
             /\ valid t' = valid t /\ processed t' = processed t
             /\ partitioned t'.
Proof.
  intros E. unfold cleanNotFound. rewrite E. eexists. simpl.
  repeat split. intros c Hc Hn. simpl in *.
  apply filter_In in Hn. destruct Hn as [_ Hn].
  apply negb_true_iff, inList_false in Hn. contradiction.
Qed.

(** *** Fail-open classification *)

(** The detail view cannot be parsed: the element search gives no issue
    text (it raised, found nothing, or found text that is no issue) and
    the page body cannot be read. *)
Definition unparseable (env : CheckEnv) : Prop :=
  elementPhase (elementSearch env) = None /\ pageText env = None.

(** An exception leaves the body of [checkForDeliveryIssue]. *)
Definition checkRaises (env : CheckEnv) : Prop := checkBody env = None.

Lemma unparseable_raises (env : CheckEnv) : unparseable env -> checkRaises env.
Proof.
  intros [H1 H2]. unfold checkRaises, checkBody. now rewrite H1, H2.
Qed.

Lemma hasIssue_true_inv (env : CheckEnv) :
  hasIssue (checkForDeliveryIssue env) = true ->
  exists text, issueText (checkForDeliveryIssue env) = Some text
               /\ finalHasIssue text = true.
Proof.
  unfold checkForDeliveryIssue. destruct (checkBody env) as [r|] eqn:E;
    [|discriminate].
  unfold checkBody in E.
  destruct (match elementPhase (elementSearch env) with
            | Some t => Some (Some t)
            | None => _
            end) as [[text|]|]; try discriminate;
    injection E as <-; simpl.
  - destruct (finalHasIssue text) eqn:F; [|discriminate].
    intros _. exists text. split; [reflexivity|exact F].
  - discriminate.
Qed.

(** C9. Fail-open classification.  For a located order whose detail
    view cannot be parsed, or whose issue check raises,
    [checkForDeliveryIssue] answers no-issue, and the [OrderResult] that
    [searchAndClickOrderCodes] appends to [orderResults] for it has status
    success (and no issue details). *)
Theorem C9_fail_open_classification :
  forall (env : CheckEnv) (targetCode code : string) (user : option string)
         (st : SearchState),
    unparseable env \/ checkRaises env ->
    hasIssue (checkForDeliveryIssue env) = false
    /\ status (resultFor code user env) = success
    /\ exists earlier,
         orderResults (globals (openRow targetCode code user env st))
         = Some (earlier ++ [mkOrderResult code (accountName user) success None]).
Proof.
  intros env targetCode code user st H.
  assert (R : checkBody env = None).
  { destruct H as [H|H]; [now apply unparseable_raises|exact H]. }
  assert (C : checkForDeliveryIssue env = mkIssueCheck false None).
  { unfold checkForDeliveryIssue. now rewrite R. }
  split; [now rewrite C|].
  split; [unfold resultFor; now rewrite C|].
  unfold openRow, pushResult, resultFor. rewrite C. simpl.
  destruct (orderResults (markProcessed targetCode (globals st))) as [l|].
  - exists l. reflexivity.
  - exists []. reflexivity.
Qed.

(** C9 at a page on which every [page.evaluate] call rejects. *)
Lemma C9_fail_open_classification_witness :
  status (resultFor "#2SC-A6B" (Some "store1@example.com")
                    (mkCheckEnv ElemRaises None None)) = success.
Proof.
  destruct (C9_fail_open_classification (mkCheckEnv ElemRaises None None)
    "2SC-A6B" "#2SC-A6B" (Some "store1@example.com")
    (mkSearchState [] [] [] (mkGlobals None None))) as (_ & H & _).
  - left. split; reflexivity.
  - exact H.
Defined.

(** A page that names a delivery issue is classified as a failure. *)
Example delivery_issue_is_failure :
  status (resultFor "#2SC-A6B" None
            (mkCheckEnv ElemNone
               (Some "Order #2SC-A6B Delivery Issue: reported late")
               (Some "Order #2SC-A6B Delivery Issue: reported late")))
  = failure.
Proof. reflexivity. Qed.

End TrackerFacts.

(** ** Facts about the multi-account run *)
Module RunFacts.
Import Run.

(** *** The shared tracking across accounts *)

(** The tracking exists, holds the universe [v] and is partitioned. *)
Definition trackerOk (v : list string) (g : Tracker.Globals) : Prop :=
  exists t, Tracker.orderCodeTracking g = Some t
            /\ Tracker.valid t = v /\ TrackerFacts.partitioned t.

Definition processedGrows (g g' : Tracker.Globals) : Prop :=
  forall t t', Tracker.orderCodeTracking g = Some t ->
               Tracker.orderCodeTracking g' = Some t' ->
               incl (Tracker.processed t) (Tracker.processed t').

(** An account's pass leaves the globals alone or ends in one update
    of the tracking after one search. *)
Definition passShape (g g' : Tracker.Globals) : Prop :=
  g' = g
  \/ exists codes user search,
       g' = Tracker.updateTracking
              (fst (Tracker.searchAndClickOrderCodes codes user search g))
              (snd (Tracker.searchAndClickOrderCodes codes user search g)).

Lemma processCodes_shape (env : AccountEnv) (user : string) (st st' : RunState) :
  processCodes env user st = Some st' -> passShape (globals st) (globals st').
Proof.
  unfold processCodes.
  destruct (orderCodesToFilter env) as [[|code0 codes]|]; [| |discriminate].
  - intros E; injection E as <-. now left.
  - destruct (filter _ _) as [|c cs] eqn:F.
    + intros E; injection E as <-. now left.
    + destruct (Tracker.searchAndClickOrderCodes (c :: cs) (Some user)
        (search env) (globals st)) as [r g1] eqn:S.
      assert (Sh : passShape (globals st) (Tracker.updateTracking r g1)).
      { right. exists (c :: cs), (Some user), (search env). now rewrite S. }
      destruct (_ && _)%bool; intros E; injection E as <-; exact Sh.
Qed.

Lemma processAccount_shape (st : RunState) (entry : Account * AccountEnv) :
  passShape (globals st) (globals (processAccount st entry)).
Proof.
  unfold processAccount. destruct entry as [account env].
  destruct (_ && _)%bool; [now left|].
  set (st1 := if startOnSignIn env then st else _).
  assert (E1 : globals st1 = globals st)
    by (unfold st1; destruct (startOnSignIn env); reflexivity).
  destruct (loginWithRetry _ _ _) as [exit tr].
  destruct exit as [attempt|last|]; simpl; try (left; exact E1).
  destruct (postLoginRaises env); simpl; [left; exact E1|].
  destruct (completedLinkFound env).
  - destruct (processCodes env (username account) _) as [st'|] eqn:P.
    + apply processCodes_shape in P. simpl in P. rewrite E1 in P.
      destruct (finalLogoutRaises env); exact P.
    + left. exact E1.
  - destruct (finalLogoutRaises env); left; exact E1.
Qed.

Lemma passShape_tracker (v : list string) (g g' : Tracker.Globals) :
  passShape g g' -> trackerOk v g -> trackerOk v g' /\ processedGrows g g'.
Proof.
  intros [->|(codes & user & search & ->)] (t & E & V & P).
  - split; [exists t; auto|]. intros t1 t2 E1 E2.
    rewrite E1 in E2. injection E2 as <-. apply incl_refl.
  - pose proof (TrackerFacts.grows_search codes user search g) as G.
    unfold TrackerFacts.grows in G. rewrite E in G.
    destruct G as (t1 & E1 & V1 & _ & I1).
    destruct (TrackerFacts.updateTracking_spec
      (fst (Tracker.searchAndClickOrderCodes codes user search g))
      _ t1 E1) as (t2 & E2 & V2 & I2 & _ & P2 & _).
    split.
    + exists t2. split; [exact E2|]. split; [congruence|exact P2].
    + intros ta tb Ea Eb. rewrite E in Ea. injection Ea as <-.
      rewrite E2 in Eb. injection Eb as <-.
      eapply incl_tran; eassumption.
Qed.

Lemma processAccounts_tracker (v : list string)
      (l : list (Account * AccountEnv)) :
  forall st, trackerOk v (globals st) ->
             trackerOk v (globals (processAccounts l st))
             /\ processedGrows (globals st) (globals (processAccounts l st)).
Proof.
  unfold processAccounts.
  induction l as [|entry l IH]; intros st Ok; simpl.
  - split; [exact Ok|]. intros t1 t2 E1 E2.
    rewrite E1 in E2. injection E2 as <-. apply incl_refl.
  - destruct (passShape_tracker v _ _ (processAccount_shape st entry) Ok)
      as [Ok1 G1].
    destruct (IH _ Ok1) as [Ok2 G2]. split; [exact Ok2|].
    intros t1 t3 E1 E3. destruct Ok1 as (t2 & E2 & _).
    eapply incl_tran; [exact (G1 _ _ E1 E2)|exact (G2 _ _ E2 E3)].
Qed.

Lemma initTracking_ok (codes : list string) (g : Tracker.Globals) :
  codes <> [] ->
  trackerOk (map Tracker.normalize codes) (Tracker.initTracking codes g).
Proof.
  intros Hne. destruct codes as [|c cs]; [congruence|].
  eexists. simpl. repeat split. intros x [].
Qed.

(** C3. Tracker partition invariant.  Once the tracking is initialised
    from a non-empty list of codes, after the passes of any number of
    accounts (here: after those of [before], and after those of
    [before ++ after]) and after the final clean-up, no code is both in
    [processed] and in [notFound]; [processed] after the later passes
    contains [processed] after the earlier ones; and [valid] is still the
    list of normalised codes it was initialised with. *)
Theorem C3_tracker_partition :
  forall (codes : list string) (g0 : Tracker.Globals)
         (issues noOrders : list string) (tr : list RunEvent)
         (before after : list (Account * AccountEnv)),
    codes <> [] ->
    let rs0 := mkRunState (Tracker.initTracking codes g0) issues noOrders tr in
    let g1 := globals (processAccounts before rs0) in
    let g2 := globals (processAccounts (before ++ after) rs0) in
    let g3 := Tracker.cleanNotFound g2 in
    exists t1 t2 t3,
      Tracker.orderCodeTracking g1 = Some t1
      /\ Tracker.orderCodeTracking g2 = Some t2
      /\ Tracker.orderCodeTracking g3 = Some t3
      /\ (forall c, In c (Tracker.processed t1) -> ~ In c (Tracker.notFound t1))
      /\ (forall c, In c (Tracker.processed t2) -> ~ In c (Tracker.notFound t2))
      /\ (forall c, In c (Tracker.processed t3) -> ~ In c (Tracker.notFound t3))
      /\ incl (Tracker.processed t1) (Tracker.processed t2)
      /\ Tracker.processed t3 = Tracker.processed t2
      /\ Tracker.valid t1 = map Tracker.normalize codes
      /\ Tracker.valid t2 = map Tracker.normalize codes
      /\ Tracker.valid t3 = map Tracker.normalize codes.
Proof.
  intros codes g0 issues noOrders tr before after Hne rs0 g1 g2 g3.
  pose proof (initTracking_ok codes g0 Hne) as Ok0.
  destruct (processAccounts_tracker _ before rs0 Ok0) as [Ok1 _].
  fold g1 in Ok1.
  assert (E12 : g2 = globals (processAccounts after (processAccounts before rs0))).
  { unfold g2, processAccounts. now rewrite fold_left_app. }
  destruct (processAccounts_tracker _ after (processAccounts before rs0) Ok1)
    as [Ok2 G12].
  rewrite <- E12 in Ok2, G12. fold g1 in G12.
  destruct Ok1 as (t1 & E1 & V1 & P1). destruct Ok2 as (t2 & E2 & V2 & P2).
  destruct (TrackerFacts.cleanNotFound_spec g2 t2 E2) as (t3 & E3 & V3 & Pr3 & P3).
  exists t1, t2, t3.
  repeat (split; [first [assumption | congruence | exact (G12 _ _ E1 E2)]|]).
  congruence.
Qed.

(** *** The login retry loop *)

Section Retry.
Variable user : string.
Variable env : Z -> AttemptEnv.

(** The outcome of [performLogin] in round [k]. *)
Definition succeeds (k : Z) : bool :=
  Login.loginSuccess (fst (Login.performLogin (login (env k)))).

(** The events of a round of the loop that reaches [performLogin]:
    a navigation if the page is not on the sign-in URL, the logout step
    if this is a retry, the login attempt, and the backoff wait if the
    attempt failed and is not the last. *)
Definition roundEvents (k : Z) : list RunEvent :=
  (if onSignInBefore (env k) then []
   else [GotoSignIn; WaitRandomTime 2000 3000])
  ++ (if k >? 1 then logoutBeforeRetry (env k) [] else [])
  ++ [PerformLogin user k]
  ++ (if succeeds k then []
      else if k <? MAX_LOGIN_ATTEMPTS
           then [WaitRandomTime (3000 + k * 1000) (3000 + k * 1000)]
           else []).

Lemma logoutBeforeRetry_app (e : AttemptEnv) (tr : list RunEvent) :
  logoutBeforeRetry e tr = tr ++ logoutBeforeRetry e [].
Proof.
  unfold logoutBeforeRetry.
  destruct (logoutRaises e), (recoveryGotoRaises e), (onSignInAfterLogout e),
    (gotoAfterLogoutRaises e); simpl; rewrite <- ?app_assoc; reflexivity.
Qed.

(** The logout step starts with the logout call; it navigates to the
    sign-in page exactly when the logout raised or left the page on
    another URL. *)
Lemma logout_step_shape (e : AttemptEnv) :
  exists rest,
    logoutBeforeRetry e [] = PerformLogout :: rest
    /\ (In GotoSignIn rest
        <-> logoutRaises e = true \/ onSignInAfterLogout e = false).
Proof.
  unfold logoutBeforeRetry.
  destruct (logoutRaises e), (recoveryGotoRaises e), (onSignInAfterLogout e),
    (gotoAfterLogoutRaises e); simpl; eexists; (split; [reflexivity|]);
    simpl; split; intros H; auto;
    repeat (destruct H as [H|H]; try discriminate); try contradiction.
Qed.

Lemma loginAttempts_rounds (l : list Z) :
  forall (last : Login.LoginResult) (tr : list RunEvent),
  exists made tail,
    (exists rest, l = made ++ rest)
    /\ snd (loginAttempts user env l last tr)
       = tr ++ List.concat (map roundEvents made) ++ tail
    /\ match fst (loginAttempts user env l last tr) with
       | LoginOk k =>
           tail = [] /\ succeeds k = true /\ exists made', made = made' ++ [k]
       | LoginExhausted _ =>
           tail = [] /\ made = l /\ forall k, In k l -> succeeds k = false
       | LoopRaised => tail = [GotoSignIn]
       end.
Proof.
  induction l as [|k l IH]; intros last tr.
  - exists [], []. simpl. rewrite app_nil_r.
    split; [exists []; reflexivity|]. split; [reflexivity|].
    split; [reflexivity|]. split; [reflexivity|]. intros k [].
  - cbn [loginAttempts].
    destruct (negb (onSignInBefore (env k)) && gotoBeforeRaises (env k))%bool
      eqn:Raise.
    + exists [], [GotoSignIn]. simpl.
      split; [exists (k :: l); reflexivity|]. split; reflexivity.
    + set (nav := if onSignInBefore (env k) then []
        else [GotoSignIn; WaitRandomTime 2000 3000]).
      assert (E1 : (if onSignInBefore (env k) then tr
         else tr ++ [GotoSignIn; WaitRandomTime 2000 3000])
        = tr ++ nav).
      { unfold nav. destruct (onSignInBefore (env k));
          [now rewrite app_nil_r|reflexivity]. }
      rewrite E1.
      set (lo := if k >? 1 then logoutBeforeRetry (env k) [] else []).
      assert (E2 : (if k >? 1 then logoutBeforeRetry (env k) (tr ++ nav)
        else tr ++ nav) = (tr ++ nav) ++ lo).
      { unfold lo. destruct (k >? 1);
          [apply logoutBeforeRetry_app|now rewrite app_nil_r]. }
      rewrite E2.
      fold (succeeds k).
      destruct (succeeds k) eqn:Ok.
      * exists [k], []. simpl.
        split; [exists l; reflexivity|]. split.
        -- unfold roundEvents. fold nav. fold lo. rewrite Ok.
           rewrite !app_nil_r, <- !app_assoc. reflexivity.
        -- split; [reflexivity|]. split; [exact Ok|]. exists []. reflexivity.
      * set (bo := if k <? MAX_LOGIN_ATTEMPTS
          then [WaitRandomTime (3000 + k * 1000) (3000 + k * 1000)]
          else []).
        assert (E3 : (if k <? MAX_LOGIN_ATTEMPTS
           then (((tr ++ nav) ++ lo) ++ [PerformLogin user k])
                ++ [WaitRandomTime (3000 + k * 1000) (3000 + k * 1000)]
           else ((tr ++ nav) ++ lo) ++ [PerformLogin user k])
          = tr ++ roundEvents k).
        { unfold roundEvents. fold nav. fold lo. rewrite Ok.
          destruct (k <? MAX_LOGIN_ATTEMPTS);
            rewrite <- ?app_assoc; rewrite ?app_nil_r; reflexivity. }
        rewrite E3.
        destruct (IH (fst (Login.performLogin (login (env k))))
          (tr ++ roundEvents k)) as (made & tail & (rest & Hl) & Htr & Hx).
        exists (k :: made), tail.
        split; [exists rest; simpl; now rewrite Hl|]. split.
        -- rewrite Htr. simpl. rewrite <- !app_assoc. reflexivity.
        -- destruct (fst (loginAttempts user env l _ _)) as [k'|last'|].
           ++ destruct Hx as (Ht & Hs & made' & Hm).
              split; [exact Ht|]. split; [exact Hs|].
              exists (k :: made'). simpl. now rewrite Hm.
           ++ destruct Hx as (Ht & Hm & Hf).
              split; [exact Ht|]. split; [now rewrite Hm|].
              intros k' [<-|Hk]; [exact Ok|now apply Hf].
           ++ exact Hx.
Qed.

Definition isLogin (e : RunEvent) : bool :=
  match e with
  | PerformLogin _ _ => true
  | _ => false
  end.

(** The number of [performLogin] calls in a trace. *)
Definition countLogins (tr : list RunEvent) : nat :=
  List.length (filter isLogin tr).

Lemma countLogins_app (a b : list RunEvent) :
  countLogins (a ++ b) = (countLogins a + countLogins b)%nat.
Proof. unfold countLogins. now rewrite filter_app, length_app. Qed.

Lemma countLogins_logout (e : AttemptEnv) :
  countLogins (logoutBeforeRetry e []) = 0%nat.
Proof.
  unfold logoutBeforeRetry.
  destruct (logoutRaises e), (recoveryGotoRaises e), (onSignInAfterLogout e),
    (gotoAfterLogoutRaises e); reflexivity.
Qed.

Lemma countLogins_round (k : Z) : countLogins (roundEvents k) = 1%nat.
Proof.
  unfold roundEvents. rewrite !countLogins_app.
  replace (countLogins (if onSignInBefore (env k) then []
                        else [GotoSignIn; WaitRandomTime 2000 3000]))
    with 0%nat by (destruct (onSignInBefore (env k)); reflexivity).
  replace (countLogins (if k >? 1 then logoutBeforeRetry (env k) [] else []))
    with 0%nat
    by (destruct (k >? 1); [now rewrite countLogins_logout|reflexivity]).
  destruct (succeeds k); [reflexivity|].
  destruct (k <? MAX_LOGIN_ATTEMPTS); reflexivity.
Qed.

Lemma countLogins_rounds (made : list Z) :
  countLogins (List.concat (map roundEvents made)) = List.length made.
Proof.
  induction made as [|k made IH]; simpl; [reflexivity|].
  now rewrite countLogins_app, countLogins_round, IH.
Qed.

(** Every round of the loop reaches [performLogin] and gets a failure. *)
Definition allAttemptsFail : Prop :=
  forall k, 1 <= k <= MAX_LOGIN_ATTEMPTS ->
            (onSignInBefore (env k) = true \/ gotoBeforeRaises (env k) = false)
            /\ succeeds k = false.

Lemma loginAttempts_exhausted (l : list Z) :
  (forall k, In k l ->
             (onSignInBefore (env k) = true \/ gotoBeforeRaises (env k) = false)
             /\ succeeds k = false) ->
  forall last tr, exists last',
    fst (loginAttempts user env l last tr) = LoginExhausted last'.
Proof.
  induction l as [|k l IH]; intros H last tr.
  - exists last. reflexivity.
  - cbn [loginAttempts].
    destruct (H k (or_introl eq_refl)) as [Hnav Hfail].
    replace (negb (onSignInBefore (env k)) && gotoBeforeRaises (env k))%bool
      with false
      by (destruct Hnav as [-> | ->];
          [reflexivity|now rewrite andb_false_r]).
    fold (succeeds k). rewrite Hfail.
    apply IH. intros k' Hk'. apply H. now right.
Qed.

Lemma attemptNumbers_range (n k : Z) :
  In k (Login.attemptNumbers n) <-> 1 <= k <= n.
Proof.
  unfold Login.attemptNumbers. rewrite in_map_iff. split.
  - intros (j & <- & Hj). apply in_seq in Hj. lia.
  - intros Hk. exists (Z.to_nat k). split; [lia|]. apply in_seq. lia.
Qed.

End Retry.

(** *** Example environments *)

(** A login attempt in which the challenge appears and neither source
    ever answers a code: the attempt fails. *)
Definition neverACode : Login.LoginEnv :=
  Login.mkLoginEnv true None true true None None
                   (fun _ => None) (fun _ => None)
                   (Login.CodePageOk true) true false.

(** A login attempt without a challenge and without a configured
    logged-in indicator: the attempt succeeds. *)
Definition plainLogin : Login.LoginEnv :=
  Login.mkLoginEnv true None false false None None
                   (fun _ => None) (fun _ => None)
                   (Login.CodePageOk true) false false.

(** A round in which the page is on the sign-in URL before the attempt
    and after the logout, and nothing raises. *)
Definition quietRound (l : Login.LoginEnv) : AttemptEnv :=
  mkAttemptEnv true false false true false false l.

Example four_failed_attempts :
  loginWithRetry "store1@example.com" (fun _ => quietRound neverACode) []
  = (LoginExhausted
       (Login.mkLoginResult false
          (Some "Could not retrieve verification code from Gmail")),
     [PerformLogin "store1@example.com" 1; WaitRandomTime 4000 4000;
      PerformLogout; WaitRandomTime 2000 3000;
      PerformLogin "store1@example.com" 2; WaitRandomTime 5000 5000;
      PerformLogout; WaitRandomTime 2000 3000;
      PerformLogin "store1@example.com" 3; WaitRandomTime 6000 6000;
      PerformLogout; WaitRandomTime 2000 3000;
      PerformLogin "store1@example.com" 4]).
Proof. reflexivity. Qed.

(** C4 as stated fails: when the logout leaves the page on the sign-in
    URL, the retries run without any navigation to the sign-in page. *)
Lemma C4_retry_without_renavigation :
  let tr := snd (loginWithRetry "store1@example.com"
                                (fun _ => quietRound neverACode) []) in
  In (PerformLogin "store1@example.com" 2) tr
  /\ In PerformLogout tr
  /\ ~ In GotoSignIn tr.
Proof.
  cbv zeta. rewrite four_failed_attempts. cbn [snd].
  split; [simpl; tauto|]. split; [simpl; tauto|].
  intros H. simpl in H.
  repeat (destruct H as [H|H]; [discriminate|]). exact H.
Qed.

(** C4 (amended). Retry bound and cleanup.  The retry loop makes its
    attempts in the order 1, 2, 3, 4 and stops early on a success or on
    an exception, so [performLogin] is called at most 4 times.  A round
    [k > 1] consists of: a possible navigation, then the logout call, then
    a navigation to the sign-in page exactly when the logout raised or
    left the page on another URL, then the one login attempt.  After a
    failed attempt [k < 4] the loop waits exactly [3000 + 1000 * k]
    milliseconds.  When all four attempts fail, the account's user name is
    appended to [accountsWithLoginIssues], the shared globals are left
    alone, and the loop over the accounts goes on with the next account. *)
Theorem C4_login_retry :
  forall (user : string) (env : Z -> AttemptEnv) (tr : list RunEvent),
    (exists made tail rest,
        Login.attemptNumbers MAX_LOGIN_ATTEMPTS = made ++ rest
        /\ snd (loginWithRetry user env tr)
           = tr ++ List.concat (map (roundEvents user env) made) ++ tail
        /\ (tail = [] \/ tail = [GotoSignIn])
        /\ (countLogins (snd (loginWithRetry user env tr))
            <= countLogins tr + 4)%nat)
    /\ (forall k, 1 < k ->
          exists nav rest backoff,
            roundEvents user env k
            = nav ++ (PerformLogout :: rest) ++ [PerformLogin user k] ++ backoff
            /\ countLogins nav = 0%nat /\ countLogins rest = 0%nat
            /\ (In GotoSignIn rest
                <-> logoutRaises (env k) = true
                    \/ onSignInAfterLogout (env k) = false))
    /\ (forall k, k < MAX_LOGIN_ATTEMPTS -> succeeds env k = false ->
          (exists before,
              roundEvents user env k
              = before ++ [WaitRandomTime (3000 + 1000 * k) (3000 + 1000 * k)])
          /\ forall g, fst (Wait.waitRandomTime (3000 + 1000 * k)
                                                (3000 + 1000 * k) g)
                       = 3000 + 1000 * k)
    /\ (allAttemptsFail env ->
        forall (account : Account) (aenv : AccountEnv) (st : RunState)
               (others : list (Account * AccountEnv)),
          username account = user -> attemptEnv aenv = env ->
          startOnSignIn aenv = true \/ startGotoRaises aenv = false ->
          let st' := processAccount st (account, aenv) in
          accountsWithLoginIssues st' = accountsWithLoginIssues st ++ [user]
          /\ accountsWithNoOrders st' = accountsWithNoOrders st
          /\ globals st' = globals st
          /\ processAccounts ((account, aenv) :: others) st
             = processAccounts others st').
Proof.
  intros user env tr. split; [|split; [|split]].
  - unfold loginWithRetry.
    destruct (loginAttempts_rounds user env
                (Login.attemptNumbers MAX_LOGIN_ATTEMPTS)
                (Login.mkLoginResult false None) tr)
      as (made & tail & (rest & Hl) & Htr & Hx).
    exists made, tail, rest. split; [exact Hl|]. split; [exact Htr|].
    assert (Htail : tail = [] \/ tail = [GotoSignIn]).
    { destruct (fst (loginAttempts _ _ _ _ _)); [left|left|right]; tauto. }
    split; [exact Htail|].
    rewrite Htr, !countLogins_app, countLogins_rounds.
    assert (List.length made <= 4)%nat.
    { apply (f_equal (@List.length Z)) in Hl. rewrite length_app in Hl.
      change (List.length (Login.attemptNumbers MAX_LOGIN_ATTEMPTS))
        with 4%nat in Hl. lia. }
    destruct Htail as [-> | ->];
      [change (countLogins []) with 0%nat
      |change (countLogins [GotoSignIn]) with 0%nat]; lia.
  - intros k Hk. unfold roundEvents.
    replace (k >? 1) with true by (symmetry; apply Z.gtb_lt; lia).
    destruct (logout_step_shape (env k)) as (rest & Hs & Hnav).
    exists (if onSignInBefore (env k) then []
      else [GotoSignIn; WaitRandomTime 2000 3000]), rest.
    eexists. rewrite Hs. split; [reflexivity|].
    split; [destruct (onSignInBefore (env k)); reflexivity|].
    split; [|exact Hnav].
    pose proof (countLogins_logout (env k)) as C. rewrite Hs in C. exact C.
  - intros k Hk Hfail. split.
    + unfold roundEvents. rewrite Hfail.
      replace (k <? MAX_LOGIN_ATTEMPTS) with true
        by (symmetry; apply Z.ltb_lt; exact Hk).
      replace (3000 + 1000 * k) with (3000 + k * 1000) by lia.
      eexists. rewrite !app_assoc. reflexivity.
    + intros g.
      unfold Wait.waitRandomTime.
      replace (3000 + 1000 * k >? 3000 + 1000 * k) with false
        by (symmetry; rewrite Z.gtb_ltb; apply Z.ltb_irrefl).
      reflexivity.
  - intros Hall account aenv st others Hu He Hstart st'.
    assert (Hex : forall tr0, exists last',
      fst (loginWithRetry user env tr0) = LoginExhausted last').
    { intros tr0. apply loginAttempts_exhausted.
      intros k Hk. apply Hall. now apply attemptNumbers_range. }
    assert (Last : processAccounts ((account, aenv) :: others) st
      = processAccounts others st') by reflexivity.
    assert (P : exists st1 tr1,
      st' = recordLoginIssue user (setTrace tr1 st1)
      /\ accountsWithLoginIssues st1 = accountsWithLoginIssues st
      /\ accountsWithNoOrders st1 = accountsWithNoOrders st
      /\ globals st1 = globals st).
    { subst st'. unfold processAccount. rewrite Hu, He.
      replace (negb (startOnSignIn aenv) && startGotoRaises aenv)%bool with false
        by (destruct Hstart as [-> | ->];
            [reflexivity|now rewrite andb_false_r]).
      set (st1 := if startOnSignIn aenv then st else _).
      destruct (Hex (trace st1)) as (last' & Hlast).
      destruct (loginWithRetry user env (trace st1)) as [exit tr1].
      simpl in Hlast. subst exit. exists st1, tr1.
      split; [reflexivity|].
      unfold st1; destruct (startOnSignIn aenv); repeat split. }
    destruct P as (st1 & tr1 & -> & E1 & E2 & E3). simpl.
    rewrite E1, E2, E3. repeat split. exact Last.
Qed.

Definition account1 : Account := mkAccount "store1@example.com" "secret" None.
Definition account2 : Account := mkAccount "store2@example.com" "secret" None.

Definition emptyRun : RunState :=
  mkRunState (Tracker.mkGlobals None None) [] [] [].

(** An account whose four login attempts all fail. *)
Definition lockedOut : AccountEnv :=
  mkAccountEnv true false (fun _ => quietRound neverACode) false true
               (Some ["A"; "B"]) (fun _ => Tracker.SearchFailed) false.

(** C4 (amended) at an account whose four attempts fail: it is recorded
    and the run goes on. *)
Lemma C4_login_retry_witness :
  accountsWithLoginIssues (processAccount emptyRun (account1, lockedOut))
  = ["store1@example.com"]
  /\ processAccounts [(account1, lockedOut); (account2, lockedOut)] emptyRun
     = processAccounts [(account2, lockedOut)]
         (processAccount emptyRun (account1, lockedOut)).
Proof.
  destruct (C4_login_retry "store1@example.com"
    (fun _ => quietRound neverACode) []) as (_ & _ & _ & H).
  assert (Hall : allAttemptsFail (fun _ => quietRound neverACode)).
  { intros k Hk. split; [left; reflexivity|reflexivity]. }
  destruct (H Hall account1 lockedOut emptyRun [(account2, lockedOut)]
    eq_refl eq_refl (or_introl eq_refl)) as (H1 & _ & _ & H4).
  split; [exact H1|exact H4].
Defined.

(** A page without any issue text. *)
Definition cleanPage : Tracker.CheckEnv :=
  Tracker.mkCheckEnv Tracker.ElemNone (Some "Order details") None.

Definition located (code : string) : Tracker.SearchOutcome :=
  Tracker.SearchRows [Tracker.RowOpened code cleanPage false].

(** Scenario B: of the codes A, B, C the first account locates A and
    B, the second locates C. *)
Definition firstFindsAB : AccountEnv :=
  mkAccountEnv true false (fun _ => quietRound plainLogin) false true
               (Some ["a"; " b "; "C"])
               (fun k => match k with
                         | O => located "#A"
                         | S O => located "#B"
                         | _ => Tracker.SearchFailed
                         end)
               false.

Definition secondFindsC : AccountEnv :=
  mkAccountEnv true false (fun _ => quietRound plainLogin) false true
               (Some ["a"; " b "; "C"])
               (fun _ => located "#C") false.

Definition scenarioB_start : RunState :=
  mkRunState (Tracker.initTracking ["a"; " b "; "C"] (Tracker.mkGlobals None None))
             [] [] [].

Example scenarioB_after_first_account :
  Tracker.orderCodeTracking
    (globals (processAccounts [(account1, firstFindsAB)] scenarioB_start))
  = Some (Tracker.mkTracking ["A"; "B"; "C"] ["A"; "B"] ["C"]).
Proof. vm_compute. reflexivity. Qed.

(** Scenario C: of the codes A, B no account locates A. *)
Example scenarioC :
  let findsB := mkAccountEnv true false (fun _ => quietRound plainLogin) false
                  true (Some ["A"; "B"])
                  (fun k => match k with
                            | S O => located "#B"
                            | _ => Tracker.SearchFailed
                            end) false in
  let findsNone := mkAccountEnv true false (fun _ => quietRound plainLogin)
                     false true (Some ["A"; "B"])
                     (fun _ => Tracker.SearchFailed) false in
  let start := mkRunState
                 (Tracker.initTracking ["A"; "B"] (Tracker.mkGlobals None None))
                 [] [] [] in
  let done := processAccounts [(account1, findsB); (account2, findsNone)] start in
  Tracker.orderCodeTracking (globals done)
  = Some (Tracker.mkTracking ["A"; "B"] ["B"] ["A"])
  /\ accountsWithNoOrders done = ["store2@example.com"].
Proof. vm_compute. split; reflexivity. Qed.

(** C3 at Scenario B: after both accounts everything is processed and
    nothing is left in [notFound]. *)
Lemma C3_tracker_partition_witness :
  exists t,
    Tracker.orderCodeTracking
      (globals (processAccounts ([(account1, firstFindsAB)]
                                   ++ [(account2, secondFindsC)])
                                scenarioB_start)) = Some t
    /\ Tracker.processed t = ["A"; "B"; "C"]
    /\ Tracker.notFound t = []
    /\ (forall c, In c (Tracker.processed t) -> ~ In c (Tracker.notFound t)).
Proof.
  assert (Hne : ["a"; " b "; "C"] <> []) by discriminate.
  destruct (C3_tracker_partition ["a"; " b "; "C"] (Tracker.mkGlobals None None)
              [] [] [] [(account1, firstFindsAB)] [(account2, secondFindsC)] Hne)
    as (t1 & t2 & t3 & _ & E2 & _ & _ & P2 & _).
  exists t2. split; [exact E2|].
  vm_compute in E2. injection E2 as <-.
  split; [reflexivity|]. split; [reflexivity|]. exact P2.
Defined.

(** *** The protection bracket of a run *)

Lemma runBody_raises_without_codes (env : RunEnv) (rs : RunState) :
  allOrderCodes env = None -> fst (runBody env rs) = true.
Proof.
  intros E. unfold runBody. rewrite E.
  destruct (alreadyLoggedIn env && firstLogoutRaises env)%bool; reflexivity.
Qed.

(** C5 (what the code does). When a run of [testIntegrated] has
    protected its slot [p] and an exception then reaches the outer
    [catch], the [finally] block tests the outer [profile] variable, which
    is still null, and the slot's [protected] flag is still true when the
    process exits with code 0.  Only a run whose body completes clears
    the flag. *)
Theorem C5_protection_survives_failed_run :
  forall (config : Pool.BotConfig) (env : RunEnv) (ps ps1 : Pool.State)
         (rs : RunState) (b : Pool.Browser) (p : Pool.Ref),
    configHasAccounts env = true ->
    configHasGmail env = true ->
    initBrowser config "default" (init env) ps
    = (mkInitResult (Some b) true (Some p) None, ps1) ->
    let out := testIntegrated config env ps rs in
    (fst (runBody env rs) = true ->
       raised out = true /\ exitCode out = 0
       /\ Pool.protected (Pool.store (pool out) p) = Some true
       /\ Pool.used (pool out) = Pool.used ps1)
    /\ (fst (runBody env rs) = false ->
        raised out = false
        /\ Pool.protected (Pool.store (pool out) p) = Some false).
Proof.
  intros config env ps ps1 rs b p Ha Hg Hi out.
  subst out. unfold testIntegrated. rewrite Ha, Hg, Hi. simpl.
  destruct (runBody env rs) as [bodyRaised rs']. simpl.
  split; intros ->; simpl; unfold Pool.upd; rewrite Nat.eqb_refl;
    repeat split.
Qed.

(** A run whose configuration lists an order code that is not a string:
    [getOrderCodesFromConfig] raises a TypeError in [code.trim()]. *)
Definition badCodesRun : RunEnv :=
  mkRunEnv true true (mkInitEnv 1000 false (Some 7%nat) true) false false None
           [(account1, firstFindsAB)] false.

(** C5 at that run, on a fresh pool of three slots: slot 0 is still
    checked out and still protected when the process exits. *)
Lemma C5_protection_survives_failed_run_witness :
  let out := testIntegrated PoolFacts.exampleConfig badCodesRun
               (Pool.newPool PoolFacts.exampleConfig PoolFacts.blankStore 0%nat [])
               emptyRun in
  raised out = true
  /\ exitCode out = 0
  /\ Pool.protected (Pool.store (pool out) 0%nat) = Some true
  /\ Pool.used (pool out) = [0%nat].
Proof.
  set (ps0 := Pool.newPool PoolFacts.exampleConfig PoolFacts.blankStore 0%nat []).
  set (ps1 := snd (initBrowser PoolFacts.exampleConfig "default"
    (init badCodesRun) ps0)).
  assert (Hi : initBrowser PoolFacts.exampleConfig "default" (init badCodesRun) ps0
               = (mkInitResult (Some 7%nat) true (Some 0%nat) None, ps1))
    by reflexivity.
  destruct (C5_protection_survives_failed_run PoolFacts.exampleConfig
              badCodesRun ps0 ps1 emptyRun 7%nat 0%nat eq_refl eq_refl Hi)
    as [H _].
  destruct (H (runBody_raises_without_codes badCodesRun emptyRun eq_refl))
    as (H1 & H2 & H3 & H4).
  split; [exact H1|]. split; [exact H2|]. split; [exact H3|].
  rewrite H4. reflexivity.
Defined.

(** The same exception in the accounts branch of [checkListAndClick]:
    the [finally] block releases the slot, and the released slot is still
    marked protected. *)
Example checkListAndClick_releases_protected_slot :
  let ps := checkListAndClick PoolFacts.exampleConfig
              (mkInitEnv 1000 false (Some 7%nat) true) true false
              (Pool.newPool PoolFacts.exampleConfig PoolFacts.blankStore 0%nat [])
  in
  Pool.available ps = [1%nat; 2%nat; 0%nat]
  /\ Pool.used ps = []
  /\ Pool.protected (Pool.store ps 0%nat) = Some true.
Proof. repeat split; reflexivity. Qed.

End RunFacts.

(** ** Facts about [performLogin] *)
Module LoginFacts.
Import Login.

Section Acquire.
Variable env : LoginEnv.

(** What the acquisition loop adds to the trace while it runs through
    the attempts [l]. *)
Definition fallbackFacts (l : list Z) (new : list LoginEvent) : Prop :=
  (forall k a, In (AskPrimary k a) new -> truthyCode a = false ->
               k < maxRetries env -> exists a', In (AskSecondary k a') new)
  /\ (canUseGmailAPI env = true ->
      forall k a, In (AskSecondary k a) new -> k < maxRetries env)
  /\ (forall c, ~ In (TypeCode c) new) /\ ~ In SubmitCode new.

Lemma endOfRound_trace (k : Z) (st : AcqState) :
  exists w, loginTrace (endOfRound env k st) = loginTrace st ++ w
            /\ forall e, In e w -> exists a b, e = WaitRandom a b.
Proof.
  unfold endOfRound. destruct (k <? maxRetries env); simpl.
  - eexists. split; [reflexivity|]. intros e [<-|[]]. eauto.
  - exists []. rewrite app_nil_r. split; [reflexivity|]. intros e [].
Qed.

Lemma acquireFrom_trace (l : list Z) :
  forall st, exists new,
    loginTrace (snd (acquireFrom env l st)) = loginTrace st ++ new
    /\ fallbackFacts l new.
Proof.
  induction l as [|k l IH]; intros st.
  - exists []. simpl. rewrite app_nil_r. split; [reflexivity|].
    unfold fallbackFacts. split; [|split; [|split]]; simpl.
    + intros k a [].
    + intros _ k a [].
    + intros c [].
    + intros [].
  - cbn [acquireFrom]. unfold askPrimary, askSecondary.
    destruct (canUseGmailAPI env) eqn:Api.
    + destruct (truthyCode (primary env (nPrimary st))) eqn:T1.
      * eexists. simpl. split; [reflexivity|]. unfold fallbackFacts.
        split; [|split; [|split]].
        -- intros k' a [H|[]] Ha. injection H as <- <-. congruence.
        -- intros _ k' a [H|[]]. discriminate.
        -- intros c [H|[]]. discriminate.
        -- intros [H|[]]. discriminate.
      * destruct (k <? maxRetries env) eqn:Lt.
        -- apply Z.ltb_lt in Lt. cbn [nPrimary nSecondary loginTrace].
           destruct (truthyCode (secondary env (nSecondary st))) eqn:T2.
           ++ eexists. simpl. rewrite <- app_assoc. split; [reflexivity|].
              unfold fallbackFacts. split; [|split; [|split]].
              ** intros k' a [H|[H|[]]] _ _; [|discriminate].
                 injection H as <- <-. eexists. right. left. reflexivity.
              ** intros _ k' a [H|[H|[]]]; [discriminate|].
                 injection H as <- <-. exact Lt.
              ** intros c [H|[H|[]]]; discriminate.
              ** intros [H|[H|[]]]; discriminate.
           ++ match goal with
                | |- context [acquireFrom env l (endOfRound env k ?s)] =>
                    destruct (endOfRound_trace k s) as (w & Hw & Hwait);
                    destruct (IH (endOfRound env k s)) as (new & Hn & F)
                end.
              simpl in Hw.
              exists ([AskPrimary k (primary env (nPrimary st));
                 AskSecondary k (secondary env (nSecondary st))]
                ++ w ++ new).
              split; [rewrite Hn, Hw, <- !app_assoc; reflexivity|].
              destruct F as (F1 & F2 & F3 & F4).
              unfold fallbackFacts. split; [|split; [|split]].
              ** intros k' a H Ha Hk. simpl in H.
                 destruct H as [H|[H|H]]; [| discriminate |].
                 --- injection H as <- <-. eexists. right. left. reflexivity.
                 --- apply in_app_or in H. destruct H as [H|H].
                     +++ destruct (Hwait _ H) as (x & y & E). discriminate.
                     +++ destruct (F1 k' a H Ha Hk) as (a' & H').
                         exists a'. simpl. rewrite !in_app_iff. tauto.
              ** intros HA k' a H. simpl in H.
                 destruct H as [H|[H|H]]; [discriminate| |].
                 --- injection H as <- <-. exact Lt.
                 --- apply in_app_or in H. destruct H as [H|H].
                     +++ destruct (Hwait _ H) as (x & y & E). discriminate.
                     +++ exact (F2 HA k' a H).
              ** intros c H. simpl in H.
                 destruct H as [H|[H|H]]; [discriminate|discriminate|].
                 apply in_app_or in H. destruct H as [H|H].
                 --- destruct (Hwait _ H) as (x & y & E). discriminate.
                 --- exact (F3 c H).
              ** intros H. simpl in H.
                 destruct H as [H|[H|H]]; [discriminate|discriminate|].
                 apply in_app_or in H. destruct H as [H|H].
                 --- destruct (Hwait _ H) as (x & y & E). discriminate.
                 --- exact (F4 H).
        -- apply Z.ltb_ge in Lt.
           match goal with
             | |- context [acquireFrom env l (endOfRound env k ?s)] =>
                 destruct (endOfRound_trace k s) as (w & Hw & Hwait);
                 destruct (IH (endOfRound env k s)) as (new & Hn & F)
             end.
           simpl in Hw.
           exists ([AskPrimary k (primary env (nPrimary st))] ++ w ++ new).
           split; [rewrite Hn, Hw, <- !app_assoc; reflexivity|].
           destruct F as (F1 & F2 & F3 & F4).
           unfold fallbackFacts. split; [|split; [|split]].
           ++ intros k' a H Ha Hk. simpl in H. destruct H as [H|H].
              ** injection H as <- <-. lia.
              ** apply in_app_or in H. destruct H as [H|H].
                 --- destruct (Hwait _ H) as (x & y & E). discriminate.
                 --- destruct (F1 k' a H Ha Hk) as (a' & H').
                     exists a'. simpl. rewrite !in_app_iff. tauto.
           ++ intros HA k' a H. simpl in H. destruct H as [H|H]; [discriminate|].
              apply in_app_or in H. destruct H as [H|H].
              ** destruct (Hwait _ H) as (x & y & E). discriminate.
              ** exact (F2 HA k' a H).
           ++ intros c H. simpl in H. destruct H as [H|H]; [discriminate|].
              apply in_app_or in H. destruct H as [H|H].
              ** destruct (Hwait _ H) as (x & y & E). discriminate.
              ** exact (F3 c H).
           ++ intros H. simpl in H. destruct H as [H|H]; [discriminate|].
              apply in_app_or in H. destruct H as [H|H].
              ** destruct (Hwait _ H) as (x & y & E). discriminate.
              ** exact (F4 H).
    + destruct (truthyCode (secondary env (nSecondary st))) eqn:T2.
      * eexists. simpl. split; [reflexivity|]. unfold fallbackFacts.
        split; [|split; [|split]].
        -- intros k' a [H|[]]. discriminate.
        -- intros HA; congruence.
        -- intros c [H|[]]. discriminate.
        -- intros [H|[]]. discriminate.
      * match goal with
          | |- context [acquireFrom env l (endOfRound env k ?s)] =>
              destruct (endOfRound_trace k s) as (w & Hw & Hwait);
              destruct (IH (endOfRound env k s)) as (new & Hn & F)
          end.
        simpl in Hw.
        exists ([AskSecondary k (secondary env (nSecondary st))] ++ w ++ new).
        split; [rewrite Hn, Hw, <- !app_assoc; reflexivity|].
        destruct F as (F1 & F2 & F3 & F4).
        unfold fallbackFacts. split; [|split; [|split]].
        -- intros k' a H Ha Hk. simpl in H. destruct H as [H|H]; [discriminate|].
           apply in_app_or in H. destruct H as [H|H].
           ++ destruct (Hwait _ H) as (x & y & E). discriminate.
           ++ destruct (F1 k' a H Ha Hk) as (a' & H').
              exists a'. simpl. rewrite !in_app_iff. tauto.
        -- intros HA; congruence.
        -- intros c H. simpl in H. destruct H as [H|H]; [discriminate|].
           apply in_app_or in H. destruct H as [H|H].
           ++ destruct (Hwait _ H) as (x & y & E). discriminate.
           ++ exact (F3 c H).
        -- intros H. simpl in H. destruct H as [H|H]; [discriminate|].
           apply in_app_or in H. destruct H as [H|H].
           ++ destruct (Hwait _ H) as (x & y & E). discriminate.
           ++ exact (F4 H).
Qed.

End Acquire.

(** The trace of [performLogin] is empty, or it is the 30 s wait, the
    events of the acquisition loop, and the typing and submitting of the
    code. *)
Lemma performLogin_trace (env : LoginEnv) :
  snd (performLogin env) = []
  \/ exists new extra,
       snd (performLogin env) = [WaitRandom 30000 30000] ++ new ++ extra
       /\ fallbackFacts env (attemptNumbers (maxRetries env)) new
       /\ forall e, In e extra -> (exists c, e = TypeCode c) \/ e = SubmitCode.
Proof.
  unfold performLogin.
  destruct (negb (hasGmailConfig env)); [now left|].
  destruct (credentialError env); [now left|].
  destruct (challenge env); [|now left].
  right. unfold acquireCode.
  destruct (acquireFrom_trace env (attemptNumbers (maxRetries env))
    (mkAcqState 0 0 [WaitRandom 30000 30000])) as (new & Hn & F).
  destruct (acquireFrom env _ _) as [code st]. simpl in Hn.
  exists new.
  destruct (truthyCode code); [|exists []; simpl; rewrite Hn, app_nil_r;
    split; [reflexivity|split; [exact F|intros e []]]].
  destruct code as [c|];
    [|exists []; simpl; rewrite Hn, app_nil_r;
      split; [reflexivity|split; [exact F|intros e []]]].
  destruct (codePage env) as [[|]| |]; simpl; rewrite Hn.
  - exists [TypeCode c; SubmitCode]. split; [reflexivity|]. split; [exact F|].
    intros e [<-|[<-|[]]]; eauto.
  - exists []. rewrite app_nil_r. split; [reflexivity|].
    split; [exact F|intros e []].
  - exists []. rewrite app_nil_r. split; [reflexivity|].
    split; [exact F|intros e []].
  - exists [TypeCode c]. split; [reflexivity|]. split; [exact F|].
    intros e [<-|[]]; eauto.
Qed.

Lemma attemptNumbers_head (n : Z) :
  1 <= n -> exists rest, attemptNumbers n = 1 :: rest.
Proof.
  intros Hn. unfold attemptNumbers.
  destruct (Z.to_nat n) as [|m] eqn:E; [lia|]. simpl. eauto.
Qed.

(** A login in which the mail API never finds the code and the inbox
    page would show it on the third look. *)
Definition lateSecondary : LoginEnv :=
  mkLoginEnv true None true true None None
             (fun _ => None)
             (fun n => match n with
                       | S (S O) => Some "482913"
                       | _ => None
                       end)
             (CodePageOk true) false false.

Example lateSecondary_trace :
  performLogin lateSecondary
  = (mkLoginResult false
       (Some "Could not retrieve verification code from Gmail"),
     [WaitRandom 30000 30000;
      AskPrimary 1 None; AskSecondary 1 None; WaitRandom 30000 30000;
      AskPrimary 2 None; AskSecondary 2 None; WaitRandom 30000 30000;
      AskPrimary 3 None]).
Proof. reflexivity. Qed.

(** C8 as stated fails: in the last acquisition attempt the primary
    source answers null and the secondary source is not asked, although it
    would have answered the code; the login attempt fails. *)
Lemma C8_no_fallback_in_last_attempt :
  let tr := snd (performLogin lateSecondary) in
  maxRetries lateSecondary = 3
  /\ In (AskPrimary 3 None) tr
  /\ (forall a, ~ In (AskSecondary 3 a) tr)
  /\ secondary lateSecondary 2%nat = Some "482913"
  /\ loginSuccess (fst (performLogin lateSecondary)) = false.
Proof.
  cbv zeta. rewrite lateSecondary_trace. cbn [fst snd].
  split; [reflexivity|]. split; [simpl; tauto|].
  split; [|split; reflexivity].
  intros a H. simpl in H.
  repeat (destruct H as [H|H]; [discriminate|]). exact H.
Qed.

(** C8 (amended). Code-source fallback, except in the last attempt.  In
    every acquisition attempt but the last ([attempt < maxRetries]), when
    the primary source answers null the secondary source is asked in that
    same attempt; in the last attempt it is not asked.  In particular,
    with at least two acquisition attempts configured, if the primary
    source answers null and the secondary then answers "482913", that code
    is typed and submitted, and the login attempt reports success once
    the logged-in check passes. *)
Theorem C8_fallback_except_last_attempt :
  forall (env : LoginEnv),
    let tr := snd (performLogin env) in
    (forall k a, In (AskPrimary k a) tr -> truthyCode a = false ->
                 k < maxRetries env -> exists a', In (AskSecondary k a') tr)
    /\ (canUseGmailAPI env = true ->
        forall a, ~ In (AskSecondary (maxRetries env) a) tr)
    /\ (hasGmailConfig env = true -> credentialError env = None ->
        challenge env = true -> canUseGmailAPI env = true ->
        2 <= maxRetries env ->
        primary env 0%nat = None -> secondary env 0%nat = Some "482913" ->
        codePage env = CodePageOk true ->
        indicatorConfigured env = false \/ indicatorSeen env = true ->
        performLogin env
        = (mkLoginResult true None,
           [WaitRandom 30000 30000; AskPrimary 1 None;
            AskSecondary 1 (Some "482913"); TypeCode "482913"; SubmitCode])).
Proof.
  intros env tr. split; [|split].
  - intros k a H Ha Hk. subst tr.
    destruct (performLogin_trace env) as [E|(new & extra & E & F & X)];
      rewrite E in *; [contradiction|].
    destruct F as (F1 & _).
    simpl in H. destruct H as [H|H]; [discriminate|].
    apply in_app_or in H. destruct H as [H|H].
    + destruct (F1 k a H Ha Hk) as (a' & H'). exists a'.
      simpl. rewrite in_app_iff. tauto.
    + destruct (X _ H) as [(c & E')|E']; discriminate.
  - intros HA a H. subst tr.
    destruct (performLogin_trace env) as [E|(new & extra & E & F & X)];
      rewrite E in *; [contradiction|].
    destruct F as (_ & F2 & _).
    simpl in H. destruct H as [H|H]; [discriminate|].
    apply in_app_or in H. destruct H as [H|H].
    + pose proof (F2 HA _ _ H). lia.
    + destruct (X _ H) as [(c & E')|E']; discriminate.
  - intros Hg Hc Hch HA Hn Hp Hs Hcp Hind.
    unfold performLogin. rewrite Hg, Hc, Hch. simpl.
    unfold acquireCode.
    destruct (attemptNumbers_head (maxRetries env)) as (rest & ->); [lia|].
    cbn [acquireFrom]. rewrite HA. unfold askPrimary, askSecondary. simpl.
    rewrite Hp. simpl.
    replace (1 <? maxRetries env) with true by (symmetry; apply Z.ltb_lt; lia).
    rewrite Hs. simpl. rewrite Hcp.
    unfold verifyLogin, isLoggedIn.
    destruct Hind as [-> | ->]; simpl;
      [reflexivity|destruct (indicatorConfigured env); reflexivity].
Qed.

(** C8 (amended) at Scenario D: the mail API finds nothing, the inbox
    page shows "482913" at once. *)
Lemma C8_fallback_except_last_attempt_witness :
  let env := mkLoginEnv true None true true None None
               (fun _ => None) (fun _ => Some "482913")
               (CodePageOk true) false false in
  loginSuccess (fst (performLogin env)) = true
  /\ In (TypeCode "482913") (snd (performLogin env)).
Proof.
  intros env.
  destruct (C8_fallback_except_last_attempt env) as (_ & _ & H).
  rewrite H; try reflexivity.
  - split; [reflexivity|simpl; tauto].
  - vm_compute. discriminate.
  - left. reflexivity.
Defined.

End LoginFacts.

(** ** More facts about the session pool *)
Module PoolMore.
Import Pool PoolFacts.

(** *** The pool a constructor call builds *)

Lemma initSlots_layout (config : BotConfig) (l : list Z) :
  forall (st : State),
    let st' := fold_left (initSlot config) l st in
    available st' = available st ++ seq (nextRef st) (List.length l)
    /\ nextRef st' = (nextRef st + List.length l)%nat
    /\ used st' = used st /\ files st' = files st /\ events st' = events st
    /\ (forall r, (r < nextRef st)%nat -> store st' r = store st r)
    /\ (forall k, (k < List.length l)%nat ->
          store st' (nextRef st + k)%nat
          = mkProfile (getProfilePath config (instanceNumOf (nth k l 0)))
                      (getPidFilePath config (instanceNumOf (nth k l 0)))
                      (nth k l 0) None None None).
Proof.
  induction l as [|i l IH]; intros st; simpl.
  - rewrite app_nil_r, Nat.add_0_r. repeat split; try reflexivity. intros k Hk; lia.
  - destruct (IH (initSlot config st i)) as (A & N & U & F & E & S1 & S2).
    simpl in *. rewrite A, N, U, F, E. rewrite <- app_assoc. simpl.
    split; [reflexivity|]. split; [lia|]. repeat (split; [reflexivity|]).
    split.
    + intros r Hr. rewrite S1 by lia. unfold upd.
      replace (Nat.eqb r (nextRef st)) with false; [reflexivity|].
      symmetry. apply Nat.eqb_neq. lia.
    + intros [|k] Hk.
      * rewrite Nat.add_0_r, S1 by lia. unfold upd. now rewrite Nat.eqb_refl.
      * replace (nextRef st + S k)%nat with (S (nextRef st) + k)%nat by lia.
        apply S2. lia.
Qed.


(** Fresh pool.  [new BrowserPool(config)] builds [poolSize || 3] slots,
    all available and none checked out, in ascending order of their
    instance numbers 1, 2, ..., N.  Slot number [i] has the path templates
    with [{__instance__}] replaced by [i] written with at least two digits,
    its PID path is its profile path followed by [/pid.txt], its [browser]
    and [usedSince] are null and its [protected] field is absent.  The
    constructor touches no file and no object that existed before. *)
Theorem fresh_pool_layout :
  forall (config : BotConfig) (s0 : Ref -> BrowserProfile) (n0 : Ref)
         (fs : list string),
    let st := newPool config s0 n0 fs in
    let N := Z.to_nat (effectivePoolSize config) in
    available st = seq n0 N
    /\ used st = []
    /\ files st = fs
    /\ (forall r, (r < n0)%nat -> store st r = s0 r)
    /\ (forall k, (k < N)%nat ->
          let i := Z.of_nat (S k) in
          store st (n0 + k)%nat
          = mkProfile
              (Str.replaceAll "{__instance__}" (instanceNumOf i)
                              (userDataPath config))
              (Str.replaceAll "{__instance__}" (instanceNumOf i)
                              (userDataPath config) ++ "/pid.txt")%string
              i None None None).
Proof.
  intros config s0 n0 fs st N.
  destruct (initSlots_layout config (slotNumbers (effectivePoolSize config))
              (mkState s0 n0 [] [] fs []))
    as (A & _ & U & F & _ & S1 & S2).
  unfold slotNumbers in A, U, F, S1, S2.
  rewrite length_map, length_seq in A, S2. simpl in A, U, F, S1, S2.
  fold N in A, S2.
  split; [exact A|]. split; [exact U|]. split; [exact F|]. split; [exact S1|].
  intros k Hk i. unfold st, newPool, initPool, slotNumbers. simpl.
  fold N. rewrite (S2 k Hk).
  assert (E : nth k (map (fun k0 : nat => Z.of_nat k0) (seq 1 N)) 0 = i).
  { change 0 with (Z.of_nat 0). rewrite map_nth, seq_nth by exact Hk.
    reflexivity. }
  rewrite E. reflexivity.
Qed.

(** *** Allocation followed by release *)

Lemma findIndex_last (A : Type) (pred : A -> bool) (l : list A) (x : A) :
  (forall y, In y l -> pred y = false) -> pred x = true ->
  findIndex pred (l ++ [x]) = Some (List.length l).
Proof.
  induction l as [|a l IH]; simpl; intros Hl Hx.
  - now rewrite Hx.
  - rewrite (Hl a) by now left. rewrite IH; auto.
Qed.

Lemma removeAt_last (A : Type) (l : list A) (x : A) :
  removeAt (List.length l) (l ++ [x]) = l.
Proof. induction l as [|a l IH]; simpl; [reflexivity|now rewrite IH]. Qed.

Lemma allocate_release_wf :
  forall (config : BotConfig) (st : State) (context : string) (now : Z)
         (deleteFile unlinkFails : bool) (r : Ref) (rest : list Ref),
    wf st ->
    available st = r :: rest ->
    let st1 := snd (getBrowserProfile context now st) in
    let st2 := returnBrowserProfile config r deleteFile unlinkFails st1 in
    fst (getBrowserProfile context now st) = Some r
    /\ usedSince (store st1 r) = Some now
    /\ available st2 = (rest ++ [r])%list
    /\ used st2 = used st
    /\ store st2 r
       = mkProfile (getProfilePath config (instanceNumOf (instOf st r)))
                   (getPidFilePath config (instanceNumOf (instOf st r)))
                   (instOf st r) None None (protected (store st r))
    /\ (forall q, q <> r -> store st2 q = store st q).
Proof.
  intros config st context now deleteFile unlinkFails r rest W Ha st1 st2.
  unfold wf in W.
  rewrite Ha in W.
  assert (G : getBrowserProfile context now st
              = (Some r,
                 emit (LogAllocated
                         (Str.replaceAll "{__context__}" context
                                         (profile (store st r)))
                         (List.length rest))
                      (mkState
                         (upd (store st) r
                              (mkProfile
                                 (Str.replaceAll "{__context__}" context
                                                 (profile (store st r)))
                                 (Str.replaceAll "{__context__}" context
                                                 (pid (store st r)))
                                 (instance (store st r)) (browser (store st r))
                                 (Some now) (protected (store st r))))
                         (nextRef st) rest (used st ++ [r]) (files st)
                         (events st)))).
  { unfold getBrowserProfile. rewrite Ha. reflexivity. }
  subst st2 st1. rewrite G. cbn [fst snd].
  split; [reflexivity|].
  split; [simpl; unfold upd; now rewrite Nat.eqb_refl|].
  unfold returnBrowserProfile. cbn [store used emit available nextRef files events].
  assert (Hr : upd (store st) r
                   (mkProfile
                      (Str.replaceAll "{__context__}" context
                                      (profile (store st r)))
                      (Str.replaceAll "{__context__}" context (pid (store st r)))
                      (instance (store st r)) (browser (store st r))
                      (Some now) (protected (store st r))) r
               = mkProfile
                   (Str.replaceAll "{__context__}" context (profile (store st r)))
                   (Str.replaceAll "{__context__}" context (pid (store st r)))
                   (instance (store st r)) (browser (store st r))
                   (Some now) (protected (store st r))).
  { unfold upd. now rewrite Nat.eqb_refl. }
  rewrite Hr. cbn [instance pid protected].
  rewrite findIndex_last.
  - rewrite removeAt_last.
    destruct (deleteFile && _)%bool; [destruct unlinkFails|]; cbn;
      (split; [reflexivity|]); (split; [reflexivity|]);
      (split; [unfold upd; now rewrite Nat.eqb_refl|]);
      intros q Hq; unfold upd; apply Nat.eqb_neq in Hq; now rewrite Hq.
  - intros y Hy. apply Z.eqb_neq. unfold upd.
    destruct (Nat.eqb y r) eqn:E.
    + apply Nat.eqb_eq in E. subst y. exfalso.
      simpl in W. inversion W as [|? ? Hnot _]. subst.
      apply Hnot. rewrite map_app. apply in_or_app. right.
      now apply in_map.
    + intros Heq. simpl in W. inversion W as [|? ? Hnot _]. subst.
      apply Hnot. rewrite map_app. apply in_or_app. right.
      unfold instOf. rewrite <- Heq. now apply (in_map (instOf st)).
  - unfold upd. rewrite Nat.eqb_refl. apply Z.eqb_refl.
Qed.

(** Round trip.  In every pool state that satisfies the pool's
    invariant [wf] (every state the constructor, the pool's methods, the
    sweep and [initBrowser] lead to, by [reachable_wf]),
    [getBrowserProfile] hands out the slot at the head of the available
    list; releasing that slot again, with or without the deletion of the
    PID file, puts it at the end of the available list, leaves the list
    of checked-out slots as it was before the allocation, undoes the
    [{__context__}] substitution (paths are back to the instance
    template), clears [browser] and [usedSince], and changes no other
    slot.  So slots are handed out first in, first out. *)
Theorem allocate_release_round_trip :
  forall (config : BotConfig) (st : State) (context : string) (now : Z)
         (deleteFile unlinkFails : bool) (r : Ref) (rest : list Ref),
    wf st ->
    available st = r :: rest ->
    let st1 := snd (getBrowserProfile context now st) in
    let st2 := returnBrowserProfile config r deleteFile unlinkFails st1 in
    fst (getBrowserProfile context now st) = Some r
    /\ usedSince (store st1 r) = Some now
    /\ available st2 = (rest ++ [r])%list
    /\ used st2 = used st
    /\ store st2 r
       = mkProfile (getProfilePath config (instanceNumOf (instOf st r)))
                   (getPidFilePath config (instanceNumOf (instOf st r)))
                   (instOf st r) None None (protected (store st r))
    /\ (forall q, q <> r -> store st2 q = store st q).
Proof.
  intros config st context now deleteFile unlinkFails r rest W Ha.
  exact (allocate_release_wf config st context now deleteFile unlinkFails
           r rest W Ha).
Qed.

(** The round trip at the example pool: slot 1 is taken and given back,
    and ends up last in the available list. *)
Lemma allocate_release_round_trip_witness :
  let st1 := snd (getBrowserProfile "default" 2000 exampleCheckedOut) in
  let st2 := returnBrowserProfile exampleConfig 1%nat true false st1 in
  available st2 = [2%nat; 1%nat] /\ used st2 = [0%nat].
Proof.
  destruct (allocate_release_round_trip exampleConfig exampleCheckedOut
              "default" 2000 true false 1%nat [2%nat] exampleCheckedOut_wf
              eq_refl)
    as (_ & _ & Ha & Hu & _).
  split; [exact Ha|exact Hu].
Defined.

Lemma return_last (config : BotConfig) (st : State) (r : Ref) (l : list Ref)
      (deleteFile unlinkFails : bool) :
  wf st -> used st = (l ++ [r])%list ->
  used (returnBrowserProfile config r deleteFile unlinkFails st) = l
  /\ available (returnBrowserProfile config r deleteFile unlinkFails st)
     = (available st ++ [r])%list
  /\ (forall q, q <> r ->
        store (returnBrowserProfile config r deleteFile unlinkFails st) q
        = store st q).
Proof.
  intros W Hu. unfold wf in W. rewrite Hu in W.
  rewrite !map_app in W. apply NoDup_app_remove_l in W.
  unfold returnBrowserProfile. rewrite Hu.
  rewrite findIndex_last.
  - rewrite removeAt_last.
    destruct (deleteFile && _)%bool; [destruct unlinkFails|]; simpl;
      (split; [reflexivity|]); (split; [reflexivity|]);
      intros q Hq; unfold upd; apply Nat.eqb_neq in Hq; now rewrite Hq.
  - intros y Hy. apply Z.eqb_neq. intros Heq.
    apply NoDup_remove_2 in W. rewrite app_nil_r in W. apply W.
    unfold instOf. rewrite <- Heq. now apply (in_map (instOf st)).
  - apply Z.eqb_refl.
Qed.

(** *** Release and the PID marker file *)

(** Release and the PID file.  In every pool state that satisfies the
    pool's invariant [wf], releasing a checked-out slot with
    [deleteFile = true] calls [unlinkSync] on the slot's PID path (the
    path it had while checked out) if a file is there.  If the call
    succeeds, no file is left at that path and every other file stays;
    if it raises, the error is only logged and every file stays, the PID
    file too.  With [deleteFile = false] no file is touched.  In each
    case the slot is released. *)
Theorem release_removes_pid_file :
  forall (config : BotConfig) (st : State) (p : Ref),
    wf st ->
    In p (used st) ->
    let path := pid (store st p) in
    let gone := returnBrowserProfile config p true false st in
    let kept := returnBrowserProfile config p true true st in
    fileExists path gone = false
    /\ (forall f, f <> path -> (In f (files gone) <-> In f (files st)))
    /\ files kept = files st
    /\ (fileExists path st = true ->
        exists new, events kept = (events st ++ new)%list
                    /\ In (ErrDeletePid path) new)
    /\ (forall unlinkFails,
          files (returnBrowserProfile config p false unlinkFails st)
          = files st)
    /\ (forall deleteFile unlinkFails,
          let st' := returnBrowserProfile config p deleteFile unlinkFails st in
          ~ In p (used st')
          /\ available st' = (available st ++ [p])%list).
Proof.
  intros config st p W Hin path gone kept.
  pose proof (wf_used st W) as ND.
  destruct (findIndex_in_used st p ND Hin) as (index & E & _).
  assert (Last : forall deleteFile unlinkFails,
             let st' := returnBrowserProfile config p deleteFile unlinkFails
                                             st in
             ~ In p (used st')
             /\ available st' = (available st ++ [p])%list).
  { intros deleteFile unlinkFails st'.
    destruct (return_used_spec config st p deleteFile unlinkFails ND Hin)
      as (Hmem & Hav & _).
    fold st' in Hmem, Hav. split; [|exact Hav].
    intros H. apply Hmem in H. tauto. }
  subst gone kept. unfold returnBrowserProfile at 1 2 3 4 5. rewrite E.
  fold path.
  split; [|split; [|split; [|split; [|split]]]].
  - destruct (true && fileExists path _)%bool eqn:D; unfold fileExists in *;
      cbn in *.
    + apply TrackerFacts.inList_false. unfold removeFile.
      intros H. apply filter_In in H. destruct H as [_ H].
      rewrite String.eqb_refl in H. discriminate.
    + exact D.
  - intros f Hf.
    destruct (true && fileExists path _)%bool; cbn; [|tauto].
    unfold removeFile. rewrite filter_In. split; [tauto|].
    intros H. split; [exact H|].
    apply negb_true_iff, String.eqb_neq. exact Hf.
  - destruct (true && fileExists path _)%bool; reflexivity.
  - intros Hf.
    destruct (true && fileExists path _)%bool eqn:D;
      [|unfold fileExists, Str.inList in *; cbn in D, Hf; unfold path in *;
        rewrite Hf in D; discriminate].
    cbn. eexists. rewrite <- app_assoc. split; [reflexivity|]. now left.
  - reflexivity.
  - exact Last.
Qed.

(** A pool whose first slot is checked out next to its PID file. *)
Definition exampleWithPidFile : State :=
  setBrowser 0%nat 7%nat
    (snd (getBrowserProfile "default" 1000
            (newPool exampleConfig blankStore 0%nat
                     ["/data/default/profile_01/pid.txt"]))).

(** The PID file of slot 0 is gone after a release whose [unlinkSync]
    succeeds and still there after one whose [unlinkSync] raises. *)
Lemma release_removes_pid_file_witness :
  fileExists "/data/default/profile_01/pid.txt" exampleWithPidFile = true
  /\ fileExists "/data/default/profile_01/pid.txt"
       (returnBrowserProfile exampleConfig 0%nat true false
                             exampleWithPidFile)
     = false
  /\ fileExists "/data/default/profile_01/pid.txt"
       (returnBrowserProfile exampleConfig 0%nat true true
                             exampleWithPidFile)
     = true.
Proof.
  split; [reflexivity|].
  assert (W : wf exampleWithPidFile).
  { apply (reachable_wf exampleConfig).
    apply reach_browser, reach_get, reach_new. }
  assert (Hin : In 0%nat (used exampleWithPidFile)) by (simpl; auto).
  split; [|reflexivity].
  exact (proj1 (release_removes_pid_file exampleConfig exampleWithPidFile
                  0%nat W Hin)).
Defined.

(** *** What the age sweep counts and what it closes *)

Section SweepMore.
Variable config : BotConfig.
Variable maxTimeSeconds : Z.
Variable env : Ref -> SweepEnv.

Lemma sweepOne_counters (st : State) (res : SweepResult) (q : Ref) :
  snd (sweepOne config maxTimeSeconds env (st, res) q)
  = mkSweepResult (processed res + 1)
                  (closed res
                   + (if evicts maxTimeSeconds env st q then 1 else 0)).
Proof.
  unfold sweepOne, evicts.
  destruct (_ >=? maxTimeSeconds); simpl; [|now rewrite Z.add_0_r].
  destruct (truthy (protected (store st q))); simpl; [now rewrite Z.add_0_r|].
  destruct (browser (store st q)) as [b|]; simpl.
  - destruct (closeRaises (env q)); simpl; [now rewrite Z.add_0_r|].
    reflexivity.
  - reflexivity.
Qed.

Lemma used_length_step (st st1 : State) (q : Ref) :
  NoDup (used st) -> In q (used st) ->
  stepFacts config maxTimeSeconds env st st1 q ->
  (List.length (used st1)
   + (if evicts maxTimeSeconds env st q then 1 else 0)
   = List.length (used st))%nat.
Proof.
  intros ND Hin (S2 & S3 & S4 & S1 & S5 & _ & S7 & S8).
  assert (ND1 : NoDup (used st1)) by (eapply NoDup_map_inv; exact S5).
  destruct (evicts maxTimeSeconds env st q) eqn:Ev.
  - destruct (S8 eq_refl) as (Hnot & _).
    assert (P : Permutation (q :: used st1) (used st)).
    { apply NoDup_Permutation; [constructor; assumption|exact ND|].
      intros x. simpl. destruct (Nat.eq_dec x q) as [->|Hx].
      - tauto.
      - rewrite (S3 x Hx). split; [intros [H|H]; congruence|tauto]. }
    apply Permutation_length in P. simpl in P. lia.
  - destruct (S7 eq_refl) as (_ & Hq & _).
    assert (P : Permutation (used st1) (used st)).
    { apply NoDup_Permutation; [exact ND1|exact ND|].
      intros x. destruct (Nat.eq_dec x q) as [->|Hx]; [tauto|].
      apply S3; exact Hx. }
    apply Permutation_length in P. lia.
Qed.

Lemma sweepLoop_counters (l : list Ref) :
  forall (st : State) (res : SweepResult),
    NoDup (map (instOf st) (used st)) -> NoDup l ->
    (forall r, In r l -> In r (used st)) ->
    let out := fold_left (sweepOne config maxTimeSeconds env) l (st, res) in
    processed (snd out) = processed res + Z.of_nat (List.length l)
    /\ closed (snd out)
       = closed res
         + Z.of_nat (List.length (filter (evicts maxTimeSeconds env st) l))
    /\ (List.length (used (fst out))
        + List.length (filter (evicts maxTimeSeconds env st) l)
        = List.length (used st))%nat.
Proof.
  induction l as [|q l IH]; intros st res ND NDl Hsub.
  - simpl. split; [lia|]. split; lia.
  - inversion NDl as [|? ? Hq NDl']; subst.
    cbn [fold_left].
    pose proof (sweepOne_step config maxTimeSeconds env st res q ND
                  (Hsub q (or_introl eq_refl))) as Step.
    pose proof (sweepOne_counters st res q) as Cnt.
    destruct (sweepOne config maxTimeSeconds env (st, res) q) as [st1 res1].
    simpl fst in Step. simpl snd in Cnt.
    pose proof (used_length_step st st1 q (NoDup_map_inv _ _ ND)
                  (Hsub q (or_introl eq_refl)) Step) as Len.
    destruct Step as (S2 & S3 & S4 & S1 & S5 & _ & S7 & S8).
    assert (Hne : forall r, In r l -> r <> q) by (intros r Hr ->; contradiction).
    assert (Hsub1 : forall r, In r l -> In r (used st1)).
    { intros r Hr. apply S3; [now apply Hne|]. apply Hsub. now right. }
    destruct (IH st1 res1 S5 NDl' Hsub1) as (P & C & L).
    assert (Ef : filter (evicts maxTimeSeconds env st1) l
                 = filter (evicts maxTimeSeconds env st) l).
    { apply filter_ext_in. intros r Hr.
      apply evicts_ext. apply S2. now apply Hne. }
    rewrite Ef in C, L. subst res1. simpl in P, C.
    simpl filter. simpl List.length.
    destruct (evicts maxTimeSeconds env st q); simpl List.length; lia.
Qed.

(** [stm] is [st] with more events; every [browser.close()] among them
    satisfies [P]. *)
Definition closesWithin (P : Ref -> Browser -> Prop) (st stm : State) : Prop :=
  exists new, events stm = (events st ++ new)%list
              /\ forall r b, In (CallClose r b) new -> P r b.

Lemma closesWithin_refl (P : Ref -> Browser -> Prop) (st : State) :
  closesWithin P st st.
Proof. exists []. rewrite app_nil_r. split; [reflexivity|intros r b []]. Qed.

Lemma closesWithin_trans (P : Ref -> Browser -> Prop) (a b c : State) :
  closesWithin P a b -> closesWithin P b c -> closesWithin P a c.
Proof.
  intros (n1 & E1 & H1) (n2 & E2 & H2). exists (n1 ++ n2)%list.
  rewrite E2, E1, app_assoc. split; [reflexivity|].
  intros r x H. apply in_app_or in H. destruct H; eauto.
Qed.

Lemma closesWithin_emit (P : Ref -> Browser -> Prop) (st : State) (e : Event) :
  (forall r b, e = CallClose r b -> P r b) -> closesWithin P st (emit e st).
Proof.
  intros H. exists [e]. split; [reflexivity|].
  intros r b [E|[]]. now apply H.
Qed.

Lemma closesWithin_weaken (P Q : Ref -> Browser -> Prop) (a b : State) :
  (forall r x, P r x -> Q r x) -> closesWithin P a b -> closesWithin Q a b.
Proof. intros H (n & E & Hn). exists n. split; [exact E|eauto]. Qed.

Lemma closesWithin_return (P : Ref -> Browser -> Prop) (st : State) (p : Ref)
      (deleteFile unlinkFails : bool) :
  closesWithin P st (returnBrowserProfile config p deleteFile unlinkFails st).
Proof.
  unfold returnBrowserProfile, closesWithin.
  destruct (findIndex _ (used st)) as [index|].
  - destruct (deleteFile && _)%bool; [destruct unlinkFails|]; simpl.
    + eexists. rewrite <- app_assoc. split; [reflexivity|].
      intros r b [H|[H|[]]]; discriminate.
    + eexists. rewrite <- app_assoc. split; [reflexivity|].
      intros r b [H|[H|[]]]; discriminate.
    + eexists. split; [reflexivity|]. intros r b [H|[]]; discriminate.
  - apply closesWithin_emit. intros; discriminate.
Qed.

(** The slot [q] is checked for its own browser [b], unprotected and
    over age. *)
Definition overdue (st : State) (q : Ref) (b : Browser) : Prop :=
  browser (store st q) = Some b
  /\ truthy (protected (store st q)) = false
  /\ maxTimeSeconds <= getProfileAgeInSeconds (clock (env q)) (store st q).

Ltac within_steps :=
  repeat first
    [ apply closesWithin_refl
    | eapply closesWithin_trans;
      [| first [ apply closesWithin_return
               | apply closesWithin_emit; intros; discriminate ] ] ].

Lemma sweepOne_closes (st : State) (res : SweepResult) (q : Ref) :
  closesWithin (fun r b => r = q /\ overdue st q b) st
               (fst (sweepOne config maxTimeSeconds env (st, res) q)).
Proof.
  unfold sweepOne.
  destruct (_ >=? maxTimeSeconds) eqn:Age; simpl; [|within_steps].
  apply Z.geb_le in Age.
  destruct (truthy (protected (store st q))) eqn:Hp; simpl; [within_steps|].
  destruct (browser (store st q)) as [b|] eqn:Hb; simpl.
  - assert (C : closesWithin (fun r x => r = q /\ overdue st q x) st
                  (emit (CallClose q b)
                     (emit (CallManageTabs q b)
                        (emit (LogOverAge (instance (store st q))
                                 (getProfileAgeInSeconds (clock (env q))
                                                         (store st q))) st)))).
    { eapply closesWithin_trans; [|apply closesWithin_emit].
      - within_steps.
      - intros r x H. injection H as <- <-.
        split; [reflexivity|]. split; [exact Hb|]. split; [exact Hp|exact Age]. }
    destruct (closeRaises (env q)); simpl.
    + eapply closesWithin_trans; [exact C|].
      apply closesWithin_emit; intros; discriminate.
    + match goal with
      | |- context [if ?c then _ else _] => destruct c
      end;
        (eapply closesWithin_trans; [exact C|]); within_steps.
  - match goal with
    | |- context [if ?c then _ else _] => destruct c
    end; within_steps.
Qed.

Lemma sweepLoop_closes (l : list Ref) :
  forall (st : State) (res : SweepResult),
    NoDup (map (instOf st) (used st)) -> NoDup l ->
    (forall r, In r l -> In r (used st)) ->
    closesWithin (fun r b => In r l /\ overdue st r b) st
      (fst (fold_left (sweepOne config maxTimeSeconds env) l (st, res))).
Proof.
  induction l as [|q l IH]; intros st res ND NDl Hsub.
  - apply closesWithin_refl.
  - inversion NDl as [|? ? Hq NDl']; subst.
    cbn [fold_left].
    pose proof (sweepOne_step config maxTimeSeconds env st res q ND
                  (Hsub q (or_introl eq_refl))) as Step.
    pose proof (sweepOne_closes st res q) as C1.
    destruct (sweepOne config maxTimeSeconds env (st, res) q) as [st1 res1].
    simpl fst in Step, C1.
    destruct Step as (S2 & S3 & S4 & S1 & S5 & _ & S7 & S8).
    assert (Hne : forall r, In r l -> r <> q) by (intros r Hr ->; contradiction).
    assert (Hsub1 : forall r, In r l -> In r (used st1)).
    { intros r Hr. apply S3; [now apply Hne|]. apply Hsub. now right. }
    eapply closesWithin_trans.
    + eapply closesWithin_weaken; [|exact C1].
      intros r x [-> H]. split; [now left|exact H].
    + eapply closesWithin_weaken; [|exact (IH st1 res1 S5 NDl' Hsub1)].
      intros r x [Hr H]. split; [now right|].
      unfold overdue in *. now rewrite (S2 r (Hne r Hr)) in H.
Qed.

End SweepMore.

(** Sweep counters.  In every pool state that satisfies the pool's
    invariant [wf] (every state the constructor, the pool's methods, the
    sweep and [initBrowser] lead to, by [reachable_wf]), one run of
    [forceCloseBrowsersOlderThan], with no other task changing the pool
    at its [await]s, reports as [processed] the number of slots that
    were checked out when it started and as [closed] the number of those
    it released (the slots that are over age, not protected, and whose
    browser closed without an error); the list of checked-out slots
    shrinks by exactly [closed]. *)
Theorem sweep_counters :
  forall (config : BotConfig) (maxTimeSeconds : Z) (env : Ref -> SweepEnv)
         (st : State),
    wf st ->
    let out := forceCloseBrowsersOlderThan config maxTimeSeconds env st in
    let released := filter (evicts maxTimeSeconds env st) (used st) in
    processed (snd out) = Z.of_nat (List.length (used st))
    /\ closed (snd out) = Z.of_nat (List.length released)
    /\ (List.length (used (fst out)) + List.length released
        = List.length (used st))%nat
    /\ 0 <= closed (snd out) <= processed (snd out).
Proof.
  intros config maxTimeSeconds env st W out released.
  pose proof (wf_used st W) as ND.
  assert (Hle : (List.length released <= List.length (used st))%nat)
    by apply filter_length_le.
  assert (Main : processed (snd out) = Z.of_nat (List.length (used st))
                 /\ closed (snd out) = Z.of_nat (List.length released)
                 /\ (List.length (used (fst out)) + List.length released
                     = List.length (used st))%nat).
  { subst out released. unfold forceCloseBrowsersOlderThan.
    destruct (used st) as [|u us] eqn:Eu; [simpl; rewrite Eu; repeat split|].
    rewrite <- Eu in *.
    pose proof (sweepLoop_counters config maxTimeSeconds env (used st)
                  (emit (LogChecking maxTimeSeconds) st) (mkSweepResult 0 0)
                  ND (NoDup_map_inv _ _ ND) (fun r H => H)) as L.
    destruct (fold_left _ _ _) as [st' result]. simpl in L. simpl.
    exact L. }
  destruct Main as (P & C & L).
  split; [exact P|]. split; [exact C|]. split; [exact L|]. lia.
Qed.

(** The sweep of the example pool at 21 s with a threshold of 15 s checks
    one slot and closes it. *)
Lemma sweep_counters_witness :
  let env := fun _ : Ref => mkSweepEnv 21000 false false false in
  let out := forceCloseBrowsersOlderThan exampleConfig 15 env exampleCheckedOut in
  processed (snd out) = 1 /\ closed (snd out) = 1.
Proof.
  destruct (sweep_counters exampleConfig 15
              (fun _ : Ref => mkSweepEnv 21000 false false false)
              exampleCheckedOut exampleCheckedOut_wf)
    as (Hp & Hc & _).
  split; [exact Hp|exact Hc].
Defined.

(** What the sweep closes and what it leaves alone.  In every pool
    state that satisfies the pool's invariant [wf] (every state the
    constructor, the pool's methods, the sweep and [initBrowser] lead
    to, by [reachable_wf]), every [browser.close()] that one run of
    [forceCloseBrowsersOlderThan] issues is for the browser of a slot that
    was checked out, not protected and at least [maxTimeSeconds] old when
    it was looked at; a slot that was not checked out keeps every field,
    stays out of the checked-out list, and is available afterwards exactly
    if it was before. *)
Theorem sweep_closes_only_overdue :
  forall (config : BotConfig) (maxTimeSeconds : Z) (env : Ref -> SweepEnv)
         (st : State),
    wf st ->
    let st' := fst (forceCloseBrowsersOlderThan config maxTimeSeconds env st) in
    (exists new,
        events st' = (events st ++ new)%list
        /\ forall r b, In (CallClose r b) new ->
             In r (used st)
             /\ browser (store st r) = Some b
             /\ truthy (protected (store st r)) = false
             /\ maxTimeSeconds
                <= getProfileAgeInSeconds (clock (env r)) (store st r))
    /\ (forall r, ~ In r (used st) ->
          store st' r = store st r
          /\ ~ In r (used st')
          /\ (In r (available st') <-> In r (available st))).
Proof.
  intros config maxTimeSeconds env st W st'.
  pose proof (wf_used st W) as ND.
  destruct (used st) as [|u us] eqn:Eu.
  - subst st'. unfold forceCloseBrowsersOlderThan. rewrite Eu. simpl.
    split.
    + exists [LogNoUsed]. split; [reflexivity|]. intros r b [H|[]]; discriminate.
    + intros r _. rewrite Eu. simpl. tauto.
  - rewrite <- Eu in *.
    assert (Hne : used st <> []) by (rewrite Eu; discriminate).
    split.
    + subst st'. rewrite (forceClose_unfold config maxTimeSeconds env st Hne).
      pose proof (sweepLoop_closes config maxTimeSeconds env (used st)
                    (emit (LogChecking maxTimeSeconds) st) (mkSweepResult 0 0)
                    ND (NoDup_map_inv _ _ ND) (fun r H => H)) as C.
      destruct (fold_left _ _ _) as [st1 result]. simpl fst in *. simpl snd.
      destruct C as (new & E & H).
      exists ([LogChecking maxTimeSeconds] ++ new
              ++ [LogSweepDone (processed result) (closed result)])%list.
      simpl. rewrite E. simpl. rewrite <- !app_assoc. split; [reflexivity|].
      intros r b [H0|H0]; [discriminate|]. apply in_app_or in H0.
      destruct H0 as [H0|[H0|[]]]; [|discriminate].
      destruct (H r b H0) as (Hr & Hb & Hp & Ha). auto.
    + intros r Hr.
      destruct (forceClose_facts config maxTimeSeconds env st ND Hne)
        as (F1 & _).
      destruct (F1 r Hr) as (A1 & A2 & A3). fold st' in A1, A2, A3.
      split; [exact A1|]. split; [rewrite A2; exact Hr|exact A3].
Qed.

(** The sweep of the example pool leaves slot 1, which is not checked
    out, as it is. *)
Lemma sweep_closes_only_overdue_witness :
  let env := fun _ : Ref => mkSweepEnv 21000 false false false in
  let st' := fst (forceCloseBrowsersOlderThan exampleConfig 15 env
                    exampleCheckedOut) in
  store st' 1%nat = store exampleCheckedOut 1%nat.
Proof.
  destruct (sweep_closes_only_overdue exampleConfig 15
              (fun _ : Ref => mkSweepEnv 21000 false false false)
              exampleCheckedOut exampleCheckedOut_wf)
    as (_ & H).
  assert (Hn : ~ In 1%nat (used exampleCheckedOut))
    by (simpl; intros [E|[]]; discriminate).
  exact (proj1 (H 1%nat Hn)).
Defined.

End PoolMore.

(** ** Facts about [initBrowser] and the accounts branch of [checkListAndClick] *)
Module TaskFacts.
Import Run Task.

Lemma wf_files (st st' : Pool.State) :
  Pool.store st' = Pool.store st -> Pool.available st' = Pool.available st ->
  Pool.used st' = Pool.used st -> PoolFacts.wf st -> PoolFacts.wf st'.
Proof.
  intros Hs Ha Hu. apply PoolFacts.wf_write; [|exact Ha|exact Hu].
  intros x. unfold Pool.instOf. now rewrite Hs.
Qed.

Lemma wf_setBrowser (p : Pool.Ref) (b : Pool.Browser) (st : Pool.State) :
  PoolFacts.wf st -> PoolFacts.wf (Pool.setBrowser p b st).
Proof.
  apply PoolFacts.wf_write; [|reflexivity|reflexivity].
  intros x. unfold Pool.instOf, Pool.setBrowser, Pool.upd; simpl.
  destruct (Nat.eqb x p) eqn:Ex; [|reflexivity].
  apply Nat.eqb_eq in Ex. now subst.
Qed.

Lemma wf_setProtected (p : Pool.Ref) (b : bool) (st : Pool.State) :
  PoolFacts.wf st -> PoolFacts.wf (Pool.setProtected p b st).
Proof.
  apply PoolFacts.wf_write; [|reflexivity|reflexivity].
  intros x. unfold Pool.instOf, Pool.setProtected, Pool.upd; simpl.
  destruct (Nat.eqb x p) eqn:Ex; [|reflexivity].
  apply Nat.eqb_eq in Ex. now subst.
Qed.

(** The pool after an [initBrowser] call that found the slot [r] at the
    head of the available list. *)
Lemma initBrowser_taken (config : Pool.BotConfig) (context : string)
      (env : InitEnv) (ps : Pool.State) (r : Pool.Ref) (rest : list Pool.Ref) :
  PoolFacts.wf ps -> Pool.available ps = r :: rest ->
  let res := fst (initBrowser config context env ps) in
  let ps' := snd (initBrowser config context env ps) in
  PoolFacts.wf ps'
  /\ (forall q, q <> r -> Pool.store ps' q = Pool.store ps q)
  /\ if pidAlreadyRunning env then
       Pool.used ps' = Pool.used ps
       /\ Pool.available ps' = (rest ++ [r])%list
       /\ Pool.files ps' = Pool.files ps
       /\ resBrowser res = None /\ resPage res = false /\ resProfile res = None
       /\ Pool.browser (Pool.store ps' r) = None
     else
       Pool.used ps' = (Pool.used ps ++ [r])%list
       /\ Pool.available ps' = rest
       /\ match launched env with
          | Some b =>
              Pool.browser (Pool.store ps' r) = Some b
              /\ if pageReady env
                 then res = mkInitResult (Some b) true (Some r) None
                 else resBrowser res = None /\ resPage res = false
                      /\ resProfile res = None
          | None =>
              Pool.browser (Pool.store ps' r) = Pool.browser (Pool.store ps r)
              /\ resBrowser res = None /\ resPage res = false
              /\ resProfile res = None
          end.
Proof.
  intros W Ha res ps'.
  destruct (PoolMore.allocate_release_wf config ps context (now env) false
              false r rest W Ha) as (G & _ & A2 & U2 & S2 & O2).
  pose proof (PoolFacts.wf_get context (now env) ps W) as W1.
  assert (U1 : Pool.used (snd (Pool.getBrowserProfile context (now env) ps))
               = (Pool.used ps ++ [r])%list).
  { unfold Pool.getBrowserProfile. rewrite Ha. reflexivity. }
  assert (A1 : Pool.available (snd (Pool.getBrowserProfile context (now env) ps))
               = rest).
  { unfold Pool.getBrowserProfile. rewrite Ha. reflexivity. }
  assert (F1 : Pool.files (snd (Pool.getBrowserProfile context (now env) ps))
               = Pool.files ps).
  { unfold Pool.getBrowserProfile. rewrite Ha. reflexivity. }
  assert (O1 : forall q, q <> r ->
                 Pool.store (snd (Pool.getBrowserProfile context (now env) ps)) q
                 = Pool.store ps q).
  { intros q Hq. unfold Pool.getBrowserProfile. rewrite Ha. simpl.
    unfold Pool.upd. apply Nat.eqb_neq in Hq. now rewrite Hq. }
  assert (B1 : Pool.browser
                 (Pool.store (snd (Pool.getBrowserProfile context (now env) ps)) r)
               = Pool.browser (Pool.store ps r)).
  { unfold Pool.getBrowserProfile. rewrite Ha. simpl.
    unfold Pool.upd. now rewrite Nat.eqb_refl. }
  subst res ps'. unfold initBrowser.
  destruct (Pool.getBrowserProfile context (now env) ps) as [p ps1].
  simpl in G, A2, U2, S2, O2, W1, U1, A1, F1, O1, B1. subst p.
  destruct (pidAlreadyRunning env); simpl.
  - split; [now apply PoolFacts.wf_return|]. split; [exact O2|].
    split; [exact U2|]. split; [exact A2|].
    split; [|split; [|split; [|split]]]; try reflexivity.
    + rewrite <- F1. unfold Pool.returnBrowserProfile.
      destruct (Pool.findIndex _ _); reflexivity.
    + rewrite S2. reflexivity.
  - assert (Wd : PoolFacts.wf (Pool.dropStalePidFile r ps1))
      by (apply (wf_files ps1); auto).
    destruct (launched env) as [b|]; simpl.
    + assert (Wb : PoolFacts.wf
                     (Pool.writePidFile r
                        (Pool.setBrowser r b (Pool.dropStalePidFile r ps1))))
        by (apply (wf_files (Pool.setBrowser r b (Pool.dropStalePidFile r ps1)));
            auto; now apply wf_setBrowser).
      assert (Ob : forall q, q <> r ->
                     Pool.store
                       (Pool.writePidFile r
                          (Pool.setBrowser r b (Pool.dropStalePidFile r ps1))) q
                     = Pool.store ps q).
      { intros q Hq. simpl. unfold Pool.upd. rewrite <- (O1 q Hq).
        apply Nat.eqb_neq in Hq. now rewrite Hq. }
      assert (Bb : Pool.browser
                     (Pool.store
                        (Pool.writePidFile r
                           (Pool.setBrowser r b (Pool.dropStalePidFile r ps1)))
                        r) = Some b).
      { simpl. unfold Pool.upd. now rewrite Nat.eqb_refl. }
      destruct (pageReady env); simpl;
        (split; [exact Wb|]); (split; [exact Ob|]);
        (split; [exact U1|]); (split; [exact A1|]); (split; [exact Bb|]); auto.
    + split; [exact Wd|]. split; [exact O1|]. split; [exact U1|].
      split; [exact A1|]. split; [exact B1|]. auto.
Qed.

Lemma initBrowser_none (config : Pool.BotConfig) (context : string)
      (env : InitEnv) (ps : Pool.State) :
  Pool.available ps = [] ->
  initBrowser config context env ps
  = (mkInitResult None false None
       (Some "No browser profiles available in the pool"),
     Pool.emit Pool.LogNoAvailable ps).
Proof.
  intros Ha. unfold initBrowser, Pool.getBrowserProfile. now rewrite Ha.
Qed.


(** Slot accounting of [initBrowser].  On a pool that satisfies its
    invariant, [initBrowser] either returns browser, page and profile
    together or none of them.  With no slot available it reports "No
    browser profiles available in the pool" and takes nothing.  If the PID
    file shows a running process, the slot it took goes back to the end of
    the available list and no file is deleted.  In every other case the
    slot stays checked out: also when the launch or the page set-up raised
    and the caller gets no profile to release. *)
Theorem initBrowser_slot_accounting :
  forall (config : Pool.BotConfig) (context : string) (env : InitEnv)
         (ps : Pool.State),
    PoolFacts.wf ps ->
    let res := fst (initBrowser config context env ps) in
    let ps' := snd (initBrowser config context env ps) in
    (resProfile res <> None <-> resBrowser res <> None /\ resPage res = true)
    /\ match Pool.available ps with
       | [] =>
           resError res = Some "No browser profiles available in the pool"
           /\ resBrowser res = None
           /\ Pool.used ps' = Pool.used ps /\ Pool.available ps' = []
       | r :: rest =>
           if pidAlreadyRunning env then
             resBrowser res = None
             /\ Pool.used ps' = Pool.used ps
             /\ Pool.available ps' = (rest ++ [r])%list
             /\ Pool.files ps' = Pool.files ps
           else
             Pool.used ps' = (Pool.used ps ++ [r])%list
             /\ Pool.available ps' = rest
             /\ (resProfile res = None
                 <-> launched env = None \/ pageReady env = false)
       end.
Proof.
  intros config context env ps W res ps'.
  destruct (Pool.available ps) as [|r rest] eqn:Ha.
  - subst res ps'. rewrite (initBrowser_none config context env ps Ha). simpl.
    split; [|auto]. split; [congruence|intros [H _]; congruence].
  - destruct (initBrowser_taken config context env ps r rest W Ha)
      as (_ & _ & H). fold res ps' in H.
    destruct (pidAlreadyRunning env).
    + destruct H as (U & A & F & B & P & Pr & _).
      split; [rewrite Pr, B; split; [congruence|intros [? _]; congruence]|].
      auto.
    + destruct H as (U & A & H).
      destruct (launched env) as [b|].
      * destruct H as (_ & H). destruct (pageReady env).
        -- rewrite H. simpl. split; [split; [intros _; split; congruence|congruence]|].
           split; [exact U|]. split; [exact A|].
           split; [congruence|intros [?|?]; congruence].
        -- destruct H as (B & P & Pr). rewrite Pr, B.
           split; [split; [congruence|intros [? _]; congruence]|].
           split; [exact U|]. split; [exact A|]. split; auto.
      * destruct H as (_ & B & P & Pr). rewrite Pr, B.
        split; [split; [congruence|intros [? _]; congruence]|].
        split; [exact U|]. split; [exact A|]. split; auto.
Qed.

(** A pool in which [initBrowser] finds a slot, takes it and fails. *)
Lemma initBrowser_slot_accounting_witness :
  let ps := Pool.newPool PoolFacts.exampleConfig PoolFacts.blankStore 0%nat [] in
  let env := mkInitEnv 1000 false None true in
  Pool.used (snd (initBrowser PoolFacts.exampleConfig "default" env ps))
  = [0%nat]
  /\ resProfile (fst (initBrowser PoolFacts.exampleConfig "default" env ps))
     = None.
Proof.
  intros ps env.
  destruct (initBrowser_slot_accounting PoolFacts.exampleConfig "default" env ps
              (PoolFacts.wf_newPool PoolFacts.exampleConfig PoolFacts.blankStore
                                    0%nat []))
    as (_ & H).
  change (Pool.available ps) with [0%nat; 1%nat; 2%nat] in H.
  change (pidAlreadyRunning env) with false in H. cbv iota in H.
  destruct H as (U & _ & P). split; [exact U|].
  apply P. left. reflexivity.
Defined.






(** *** The three sessions of the accounts branch *)

Lemma find_last (A : Type) (pred : A -> bool) (l : list A) (x : A) :
  (forall y, In y l -> pred y = false) -> pred x = true ->
  find pred (l ++ [x]) = Some x.
Proof.
  induction l as [|a l IH]; simpl; intros Hl Hx.
  - now rewrite Hx.
  - rewrite (Hl a) by now left. apply IH; auto.
Qed.

(** No slot object holds the browser handle [b]. *)
Definition freshHandle (b : Pool.Browser) (ps : Pool.State) : Prop :=
  forall q, Pool.browser (Pool.store ps q) <> Some b.

Lemma freshHandle_preliminary (config : Pool.BotConfig) (env : InitEnv)
      (ps : Pool.State) (b : Pool.Browser) :
  PoolFacts.wf ps -> freshHandle b ps -> launched env <> Some b ->
  freshHandle b (preliminarySession config env ps).
Proof.
  intros W Fr Hl. unfold preliminarySession.
  destruct (Pool.available ps) as [|r rest] eqn:Ha.
  - rewrite (initBrowser_none config "default" env ps Ha). exact Fr.
  - destruct (initBrowser_taken config "default" env ps r rest W Ha)
      as (_ & O & H).
    intros q. destruct (Nat.eq_dec q r) as [->|Hq]; [|rewrite (O q Hq); apply Fr].
    destruct (pidAlreadyRunning env).
    + destruct H as (_ & _ & _ & _ & _ & _ & B). rewrite B. discriminate.
    + destruct H as (_ & _ & H). destruct (launched env) as [b'|].
      * destruct H as (B & _). rewrite B. exact Hl.
      * destruct H as (B & _). rewrite B. apply Fr.
Qed.

(** The accounts branch fails at its third session. *)
Lemma accounts_run_exhausted (config : Pool.BotConfig)
      (first second main : InitEnv) (bodyError : option string)
      (closeRaises unlinkFails : bool) (ps : Pool.State) :
  Pool.available (preliminarySession config second
                    (preliminarySession config first ps)) = [] ->
  checkListAndClickAccounts config first second main bodyError closeRaises
                            unlinkFails ps
  = (mkTaskResult 0 0 (Some "No browser profiles available in the pool"),
     Pool.emit Pool.LogNoAvailable
               (preliminarySession config second
                  (preliminarySession config first ps))).
Proof.
  intros Ha. unfold checkListAndClickAccounts.
  now rewrite (initBrowser_none config "default" main _ Ha).
Qed.

(** Three slots per run.  The accounts branch of [checkListAndClick]
    calls [initBrowser] three times and gives back only the slot of the
    third call.  On a pool that satisfies its invariant, with no other
    task touching the pool in between, and when the PID check of
    [initBrowser] finds no running process in the two preliminary
    sessions (otherwise [initBrowser] hands that slot back itself):
    - with at least three slots available, when the third session also
      passes the PID check, its launch succeeds (with a browser handle
      [b] no slot holds yet) and [browser.close()] does not reject, the
      first two slots taken are still checked out afterwards and the
      third is back at the end of the available list; [processed] and
      [clicked] are both reported as 0;
    - with fewer than three slots available, the run ends with the error
      "No browser profiles available in the pool" and every slot that was
      available is checked out afterwards. *)
Theorem accounts_run_keeps_two_slots :
  forall (config : Pool.BotConfig) (first second main : InitEnv)
         (bodyError : option string) (ps : Pool.State),
    PoolFacts.wf ps ->
    pidAlreadyRunning first = false ->
    pidAlreadyRunning second = false ->
    (forall (r1 r2 r3 : Pool.Ref) (rest : list Pool.Ref) (b : Pool.Browser)
            (unlinkFails : bool),
        Pool.available ps = r1 :: r2 :: r3 :: rest ->
        pidAlreadyRunning main = false ->
        launched main = Some b -> pageReady main = true ->
        freshHandle b ps ->
        launched first <> Some b -> launched second <> Some b ->
        let out := checkListAndClickAccounts config first second main
                                             bodyError false unlinkFails ps in
        Pool.used (snd out) = (Pool.used ps ++ [r1; r2])%list
        /\ Pool.available (snd out) = (rest ++ [r3])%list
        /\ fst out = mkTaskResult 0 0 bodyError)
    /\ ((List.length (Pool.available ps) <= 2)%nat ->
        forall closeRaises unlinkFails,
          let out := checkListAndClickAccounts config first second main
                                               bodyError closeRaises
                                               unlinkFails ps in
          taskError (fst out)
          = Some "No browser profiles available in the pool"
          /\ Pool.available (snd out) = []
          /\ Pool.used (snd out) = (Pool.used ps ++ Pool.available ps)%list).
Proof.
  intros config first second main bodyError ps W P1 P2.
  split.
  - intros r1 r2 r3 rest b unlinkFails Ha Pm Lm Rm Fr L1 L2 out.
    destruct (initBrowser_taken config "default" first ps r1 (r2 :: r3 :: rest)
                W Ha) as (W1 & O1 & H1).
    rewrite P1 in H1. destruct H1 as (U1 & A1 & _).
    pose proof (freshHandle_preliminary config first ps b W Fr L1) as Fr1.
    fold (preliminarySession config first ps) in W1, O1, U1, A1.
    set (ps1 := preliminarySession config first ps) in *.
    destruct (initBrowser_taken config "default" second ps1 r2 (r3 :: rest)
                W1 A1) as (W2 & O2 & H2).
    rewrite P2 in H2. destruct H2 as (U2 & A2 & _).
    pose proof (freshHandle_preliminary config second ps1 b W1 Fr1 L2) as Fr2.
    fold (preliminarySession config second ps1) in W2, O2, U2, A2.
    set (ps2 := preliminarySession config second ps1) in *.
    destruct (initBrowser_taken config "default" main ps2 r3 rest W2 A2)
      as (W3 & O3 & H3).
    rewrite Pm, Lm, Rm in H3. destruct H3 as (U3 & A3 & B3 & R3).
    subst out. unfold checkListAndClickAccounts.
    fold ps1. fold ps2.
    destruct (initBrowser config "default" main ps2) as [res ps3].
    simpl in W3, O3, U3, A3, B3, R3. subst res. simpl.
    set (ps4 := match bodyError with
                | Some _ => Pool.setProtected r3 true ps3
                | None => Pool.setProtected r3 false
                            (Pool.setProtected r3 true ps3)
                end).
    assert (W4 : PoolFacts.wf ps4).
    { unfold ps4. destruct bodyError; repeat apply wf_setProtected; exact W3. }
    assert (U4 : Pool.used ps4 = ((Pool.used ps ++ [r1; r2]) ++ [r3])%list).
    { unfold ps4. destruct bodyError; simpl; rewrite U3, U2, U1;
        rewrite <- !app_assoc; reflexivity. }
    assert (A4 : Pool.available ps4 = rest).
    { unfold ps4. destruct bodyError; simpl; exact A3. }
    assert (B4 : forall q, Pool.browser (Pool.store ps4 q)
                           = Pool.browser (Pool.store ps3 q)).
    { intros q. unfold ps4. destruct bodyError; simpl; unfold Pool.upd;
        destruct (Nat.eqb q r3) eqn:E; try reflexivity;
        apply Nat.eqb_eq in E; subst q; simpl; try reflexivity.
      rewrite Nat.eqb_refl. reflexivity. }
    assert (Hfind : findProfileByBrowser b ps4 = Some r3).
    { unfold findProfileByBrowser. rewrite U4. apply find_last.
      - intros y Hy. rewrite B4.
        assert (Hne : y <> r3).
        { intros ->. unfold PoolFacts.wf in W2. rewrite A2, U2, U1 in W2.
          apply NoDup_map_inv in W2.
          apply (PoolFacts.NoDup_app_disjoint _ _ _ r3 W2); [now left|].
          rewrite <- app_assoc. exact Hy. }
        rewrite (O3 y Hne).
        destruct (Pool.browser (Pool.store ps2 y)) as [b'|] eqn:E; [|reflexivity].
        apply Nat.eqb_neq. intros ->. exact (Fr2 y E).
      - rewrite B4, B3. apply Nat.eqb_refl. }
    rewrite Hfind.
    destruct (PoolMore.return_last config ps4 r3 (Pool.used ps ++ [r1; r2])
                true unlinkFails W4 U4) as (Ur & Ar & _).
    rewrite Ur, Ar, A4. repeat split.
  - intros Hlen closeRaises unlinkFails out.
    assert (Two : Pool.available (preliminarySession config second
                                    (preliminarySession config first ps)) = []
                  /\ Pool.used (preliminarySession config second
                                  (preliminarySession config first ps))
                     = (Pool.used ps ++ Pool.available ps)%list).
    { unfold preliminarySession.
      destruct (Pool.available ps) as [|r1 [|r2 [|r3 rest]]] eqn:Ha;
        [| | |simpl in Hlen; lia].
      - rewrite (initBrowser_none config "default" first ps Ha). simpl.
        rewrite (initBrowser_none config "default" second
                   (Pool.emit Pool.LogNoAvailable ps) Ha). simpl.
        rewrite Ha, app_nil_r. split; reflexivity.
      - destruct (initBrowser_taken config "default" first ps r1 [] W Ha)
          as (W1 & _ & H1).
        rewrite P1 in H1. destruct H1 as (U1 & A1 & _).
        rewrite (initBrowser_none config "default" second _ A1). simpl.
        rewrite A1, U1. split; reflexivity.
      - destruct (initBrowser_taken config "default" first ps r1 [r2] W Ha)
          as (W1 & _ & H1).
        rewrite P1 in H1. destruct H1 as (U1 & A1 & _).
        destruct (initBrowser_taken config "default" second _ r2 [] W1 A1)
          as (W2 & _ & H2).
        rewrite P2 in H2. destruct H2 as (U2 & A2 & _).
        rewrite A2, U2, U1, <- app_assoc. split; reflexivity. }
    destruct Two as (A & U).
    subst out.
    rewrite (accounts_run_exhausted config first second main bodyError
               closeRaises unlinkFails ps A).
    simpl. rewrite A, U. repeat split.
Qed.

(** A run on a fresh pool of three slots: slots 0 and 1 stay checked
    out, slot 2 is back. *)
Lemma accounts_run_keeps_two_slots_witness :
  let ps := Pool.newPool PoolFacts.exampleConfig PoolFacts.blankStore 0%nat [] in
  let out := checkListAndClickAccounts PoolFacts.exampleConfig
               (mkInitEnv 1000 false (Some 5%nat) true)
               (mkInitEnv 2000 false (Some 6%nat) true)
               (mkInitEnv 3000 false (Some 7%nat) true) None false false ps in
  Pool.used (snd out) = [0%nat; 1%nat]
  /\ Pool.available (snd out) = [2%nat].
Proof.
  intros ps out.
  destruct (accounts_run_keeps_two_slots PoolFacts.exampleConfig
              (mkInitEnv 1000 false (Some 5%nat) true)
              (mkInitEnv 2000 false (Some 6%nat) true)
              (mkInitEnv 3000 false (Some 7%nat) true) None ps
              (PoolFacts.wf_newPool PoolFacts.exampleConfig PoolFacts.blankStore
                                    0%nat [])
              eq_refl eq_refl) as (H & _).
  destruct (H 0%nat 1%nat 2%nat [] 7%nat false) as (U & A & _);
    try reflexivity; try discriminate.
  - intros q. vm_compute.
    destruct q as [|[|[|q]]]; discriminate.
  - split; [exact U|exact A].
Defined.

End TaskFacts.

(** ** Facts about the string helpers and code normalisation *)
Module NormalizeFacts.
Import Str.

Lemma isSpace_upperChar (c : ascii) : isSpace (upperChar c) = isSpace c.
Proof. destruct c as [[] [] [] [] [] [] [] []]; reflexivity. Qed.

Lemma upperChar_idem (c : ascii) : upperChar (upperChar c) = upperChar c.
Proof. destruct c as [[] [] [] [] [] [] [] []]; reflexivity. Qed.

Lemma upperChar_not_lower (c : ascii) :
  (Nat.leb 97 (nat_of_ascii (upperChar c))
   && Nat.leb (nat_of_ascii (upperChar c)) 122)%bool = false.
Proof. destruct c as [[] [] [] [] [] [] [] []]; reflexivity. Qed.

Lemma toUpperCase_idem (s : string) : toUpperCase (toUpperCase s) = toUpperCase s.
Proof.
  unfold toUpperCase. induction s as [|c s IH]; simpl; [reflexivity|].
  now rewrite upperChar_idem, IH.
Qed.

Lemma trimStart_upper (s : string) :
  trimStart (toUpperCase s) = toUpperCase (trimStart s).
Proof.
  unfold toUpperCase. induction s as [|c s IH]; simpl; [reflexivity|].
  rewrite isSpace_upperChar. destruct (isSpace c); [exact IH|reflexivity].
Qed.

Lemma mapChars_empty (f : ascii -> ascii) (s : string) :
  mapChars f s = EmptyString <-> s = EmptyString.
Proof. destruct s; simpl; split; congruence. Qed.

Lemma trimEnd_upper (s : string) :
  trimEnd (toUpperCase s) = toUpperCase (trimEnd s).
Proof.
  unfold toUpperCase. induction s as [|c s IH]; simpl; [reflexivity|].
  rewrite IH. destruct (trimEnd s) as [|d t]; simpl.
  - rewrite isSpace_upperChar. destruct (isSpace c); reflexivity.
  - reflexivity.
Qed.

Lemma trim_upper (s : string) : trim (toUpperCase s) = toUpperCase (trim s).
Proof. unfold trim. now rewrite trimStart_upper, trimEnd_upper. Qed.

(** The string is empty or starts with a character that is no white
    space. *)
Definition noLeadingSpace (s : string) : Prop :=
  match s with
  | EmptyString => True
  | String c _ => isSpace c = false
  end.

Lemma trimStart_noLeadingSpace (s : string) : noLeadingSpace (trimStart s).
Proof.
  induction s as [|c s IH]; simpl; [exact I|].
  destruct (isSpace c) eqn:E; [exact IH|exact E].
Qed.

Lemma trimStart_fixed (s : string) : noLeadingSpace s -> trimStart s = s.
Proof. destruct s as [|c s]; simpl; [reflexivity|]. now intros ->. Qed.

Lemma trimEnd_noLeadingSpace (s : string) :
  noLeadingSpace s -> noLeadingSpace (trimEnd s).
Proof.
  destruct s as [|c s]; simpl; [trivial|]. intros E.
  destruct (trimEnd s); simpl; [rewrite E; exact E|exact E].
Qed.

(** The string is empty or ends with a character that is no white
    space. *)
Fixpoint noTrailingSpace (s : string) : Prop :=
  match s with
  | EmptyString => True
  | String c EmptyString => isSpace c = false
  | String _ rest => noTrailingSpace rest
  end.

Lemma trimEnd_noTrailingSpace (s : string) : noTrailingSpace (trimEnd s).
Proof.
  induction s as [|c s IH]; simpl; [exact I|].
  destruct (trimEnd s) as [|d t] eqn:E.
  - destruct (isSpace c) eqn:Ec; simpl; [exact I|exact Ec].
  - exact IH.
Qed.

Lemma trimEnd_fixed (s : string) : noTrailingSpace s -> trimEnd s = s.
Proof.
  induction s as [|c s IH]; simpl; [reflexivity|].
  destruct s as [|d t].
  - simpl. now intros ->.
  - intros H. rewrite (IH H). reflexivity.
Qed.

Lemma trim_idem (s : string) : trim (trim s) = trim s.
Proof.
  unfold trim.
  rewrite (trimStart_fixed (trimEnd (trimStart s)))
    by apply trimEnd_noLeadingSpace, trimStart_noLeadingSpace.
  apply trimEnd_fixed, trimEnd_noTrailingSpace.
Qed.

Lemma normalize_idem (code : string) :
  Tracker.normalize (Tracker.normalize code) = Tracker.normalize code.
Proof.
  unfold Tracker.normalize.
  now rewrite trim_upper, trim_idem, toUpperCase_idem.
Qed.

(** No character of the string is a lower-case ASCII letter. *)
Fixpoint noLowerCase (s : string) : Prop :=
  match s with
  | EmptyString => True
  | String c rest =>
      (Nat.leb 97 (nat_of_ascii c) && Nat.leb (nat_of_ascii c) 122)%bool = false
      /\ noLowerCase rest
  end.

Lemma toUpperCase_noLowerCase (s : string) : noLowerCase (toUpperCase s).
Proof.
  unfold toUpperCase. induction s as [|c s IH]; simpl; [exact I|].
  split; [apply upperChar_not_lower|exact IH].
Qed.

(** Normal form of order codes.  [code.trim().toUpperCase()] (on ASCII
    text) returns a string without white space at either end and without
    lower-case letters, and applying it again changes nothing: the code
    lists that [getOrderCodesFromConfig], [testIntegrated] and
    [searchAndClickOrderCodes] each normalise once more stay the same. *)
Theorem normalize_normal_form :
  forall (code : string),
    let n := Tracker.normalize code in
    Tracker.normalize n = n
    /\ noLeadingSpace n /\ noTrailingSpace n /\ noLowerCase n
    /\ forall codes, map Tracker.normalize (map Tracker.normalize codes)
                     = map Tracker.normalize codes.
Proof.
  intros code n. split; [apply normalize_idem|].
  assert (T : Tracker.normalize code = Str.trim (Str.toUpperCase code))
    by (unfold Tracker.normalize; now rewrite trim_upper).
  split; [subst n; rewrite T; apply trimEnd_noLeadingSpace,
                                trimStart_noLeadingSpace|].
  split; [subst n; rewrite T; apply trimEnd_noTrailingSpace|].
  split; [apply toUpperCase_noLowerCase|].
  intros codes. rewrite map_map. apply map_ext. intros c. apply normalize_idem.
Qed.

End NormalizeFacts.

(** ** More facts about the search over order codes and the tracking *)
Module TrackerMore.
Import Tracker.

(** *** What one search call returns *)

(** [global.orderResults || []] *)
Definition resultsOf (g : Globals) : list OrderResult :=
  match orderResults g with
  | Some l => l
  | None => []
  end.

(** A stored result is consistent: it is a failure exactly if it carries
    issue details, and details are never empty. *)
Definition consistentResult (user : option string) (r : OrderResult) : Prop :=
  account r = accountName user
  /\ (status r = failure <-> issueDetails r <> None)
  /\ forall t, issueDetails r = Some t -> t <> "".

Lemma checkForDeliveryIssue_shape (env : CheckEnv) :
  (hasIssue (checkForDeliveryIssue env) = true
   /\ exists t, issueText (checkForDeliveryIssue env) = Some t
                /\ finalHasIssue t = true)
  \/ (hasIssue (checkForDeliveryIssue env) = false
      /\ issueText (checkForDeliveryIssue env) = None).
Proof.
  unfold checkForDeliveryIssue.
  destruct (checkBody env) as [r|] eqn:E; [|right; split; reflexivity].
  unfold checkBody in E.
  destruct (match elementPhase (elementSearch env) with
            | Some t => Some (Some t)
            | None => _
            end) as [[text|]|]; try discriminate;
    injection E as <-; simpl.
  - destruct (finalHasIssue text) eqn:F.
    + left. split; [reflexivity|]. exists text. split; [reflexivity|exact F].
    + right. split; reflexivity.
  - right. split; reflexivity.
Qed.

Lemma finalHasIssue_nonEmpty (t : string) : finalHasIssue t = true -> t <> "".
Proof.
  unfold finalHasIssue, nonEmpty. intros H ->. discriminate.
Qed.

Lemma resultFor_consistent (code : string) (user : option string)
      (check : CheckEnv) :
  consistentResult user (resultFor code user check).
Proof.
  unfold consistentResult, resultFor. simpl.
  split; [reflexivity|].
  destruct (checkForDeliveryIssue_shape check) as [(H & t & E & F)|(H & E)];
    rewrite H, E.
  - split; [split; [discriminate|reflexivity]|].
    intros t' [= <-]. now apply finalHasIssue_nonEmpty.
  - split; [split; [discriminate|congruence]|]. discriminate.
Qed.

Lemma resultsOf_markProcessed (c : string) (g : Globals) :
  resultsOf (markProcessed c g) = resultsOf g.
Proof.
  unfold markProcessed, resultsOf.
  destruct (orderCodeTracking g) as [t|]; [|reflexivity].
  destruct (Str.inList c (processed t)); reflexivity.
Qed.

Lemma resultsOf_pushResult (r : OrderResult) (g : Globals) :
  resultsOf (pushResult r g) = (resultsOf g ++ [r])%list.
Proof. unfold pushResult, resultsOf. simpl. destruct (orderResults g); reflexivity. Qed.

(** What the loop over the rows of one search result does: it opens [k]
    order pages, each time recording the searched code and one result. *)
Lemma scanRows_shape (targetCode : string) (user : option string)
      (rows : list RowOutcome) :
  forall (found : bool) (st : SearchState),
    let out := scanRows targetCode user rows found st in
    exists (k : nat) (new : list OrderResult),
      clicked (snd out) = (clicked st ++ repeat targetCode k)%list
      /\ localProcessed (snd out)
         = (localProcessed st ++ repeat targetCode k)%list
      /\ localNotFound (snd out) = localNotFound st
      /\ resultsOf (globals (snd out)) = (resultsOf (globals st) ++ new)%list
      /\ List.length new = k
      /\ Forall (consistentResult user) new
      /\ (fst out = true <-> found = true \/ (0 < k)%nat).
Proof.
  induction rows as [|row rows IH]; intros found st; simpl.
  - exists 0%nat, []. simpl. rewrite !app_nil_r.
    repeat (split; [reflexivity|]). split; [constructor|].
    split; [now left|intros [H|H]; [exact H|lia]].
  - destruct row as [|code check backRaises]; [apply IH|].
    assert (R : resultsOf (globals (openRow targetCode code user check st))
                = (resultsOf (globals st) ++ [resultFor code user check])%list).
    { simpl. now rewrite resultsOf_pushResult, resultsOf_markProcessed. }
    destruct backRaises.
    + destruct (IH true (openRow targetCode code user check st))
        as (k & new & C & P & N & G & L & F & Hf).
      exists (S k), (resultFor code user check :: new).
      rewrite C, P, N, G, R. simpl. rewrite <- !app_assoc. simpl.
      repeat (split; [reflexivity|]).
      split; [now rewrite L|].
      split; [constructor; [apply resultFor_consistent|exact F]|].
      split; [intros _; right; lia|intros _; apply Hf; now left].
    + exists 1%nat, [resultFor code user check]. simpl fst. simpl snd.
      rewrite R. simpl.
      repeat (split; [reflexivity|]).
      split; [constructor; [apply resultFor_consistent|constructor]|].
      split; [intros _; right; lia|reflexivity].
Qed.

(** The state of the search after the codes [done]. *)
Definition searchInv (already done : list string) (user : option string)
           (g0 : Globals) (st : SearchState) : Prop :=
  clicked st = localProcessed st
  /\ (forall c, In c (localProcessed st) \/ In c (localNotFound st) <->
                In c done /\ ~ In c already)
  /\ (NoDup done ->
      NoDup (localNotFound st)
      /\ forall c, In c (localProcessed st) -> ~ In c (localNotFound st))
  /\ exists new, resultsOf (globals st) = (resultsOf g0 ++ new)%list
                 /\ List.length new = List.length (clicked st)
                 /\ Forall (consistentResult user) new.

Lemma searchOne_inv (already done : list string) (user : option string)
      (search : nat -> SearchOutcome) (g0 : Globals) (st : SearchState)
      (k : nat) (targetCode : string) :
  searchInv already done user g0 st ->
  searchInv already (done ++ [targetCode]) user g0
            (searchOne already user search st (k, targetCode)).
Proof.
  intros (C & M & D & new & G & L & F). unfold searchOne.
  destruct (Str.inList targetCode already) eqn:Al.
  - apply TrackerFacts.inList_In in Al.
    split; [exact C|]. split.
    + intros c. rewrite (M c), in_app_iff. simpl. split; [tauto|].
      intros [[H|[<-|[]]] Hn]; [tauto|contradiction].
    + split.
      * intros ND. apply NoDup_remove_1 in ND. rewrite app_nil_r in ND. auto.
      * exists new. auto.
  - apply TrackerFacts.inList_false in Al.
    assert (NF : forall st',
               clicked st' = localProcessed st' ->
               localProcessed st' = localProcessed st ->
               localNotFound st' = localNotFound st ->
               (exists new', resultsOf (globals st')
                             = (resultsOf g0 ++ new')%list
                             /\ List.length new' = List.length (clicked st')
                             /\ Forall (consistentResult user) new') ->
               searchInv already (done ++ [targetCode]) user g0
                         (pushNotFound targetCode st')).
    { intros st' C' P' N' R'. unfold searchInv, pushNotFound. simpl.
      split; [exact C'|]. split.
      - intros c. rewrite P', N', !in_app_iff. simpl.
        specialize (M c). split.
        + intros [H|[H|[<-|[]]]]; [tauto|tauto|tauto].
        + intros [[H|[<-|[]]] Hn]; [|tauto].
          destruct (proj2 M (conj H Hn)); tauto.
      - split; [|exact R'].
        intros ND. assert (ND' := ND).
        apply NoDup_remove in ND'. rewrite app_nil_r in ND'.
        destruct ND' as [ND' Hnot].
        destruct (D ND') as (D1 & D2). rewrite P', N'. split.
        + apply NoDup_app; [exact D1|repeat constructor; intros []|].
          intros x Hx [<-|[]]. apply Hnot. apply (M targetCode). now right.
        + intros c Hc Hn. apply in_app_or in Hn.
          destruct Hn as [Hn|[<-|[]]]; [exact (D2 c Hc Hn)|].
          apply Hnot. apply (M targetCode). now left. }
    destruct (search k) as [|rows].
    + apply NF; auto. exists new. auto.
    + destruct (scanRows_shape targetCode user rows false st)
        as (n & new1 & C1 & P1 & N1 & G1 & L1 & F1 & Hf).
      destruct (scanRows targetCode user rows false st) as [found st'].
      simpl in C1, P1, N1, G1, Hf.
      assert (R' : exists new',
                 resultsOf (globals st') = (resultsOf g0 ++ new')%list
                 /\ List.length new' = List.length (clicked st')
                 /\ Forall (consistentResult user) new').
      { exists (new ++ new1)%list. rewrite G1, G, <- app_assoc.
        split; [reflexivity|]. split.
        - rewrite C1, !length_app, repeat_length. lia.
        - apply Forall_app. auto. }
      destruct found.
      * assert (Hn : (0 < n)%nat)
          by (destruct (proj1 Hf eq_refl) as [?|?]; [discriminate|assumption]).
        split; [rewrite C1, P1, C; reflexivity|]. split.
        -- intros c. rewrite P1, N1, !in_app_iff. specialize (M c). split.
           ++ intros [[H|H]|H]; [tauto| |tauto].
              apply repeat_spec in H. subst c. split; [right; now left|exact Al].
           ++ intros [[H|[<-|[]]] Hnot]; [destruct (proj2 M (conj H Hnot)); tauto|].
              left. right. destruct n; [lia|now left].
        -- split; [|exact R'].
           intros ND. assert (ND' := ND).
           apply NoDup_remove in ND'. rewrite app_nil_r in ND'.
           destruct ND' as [ND' Hnot].
           destruct (D ND') as (D1 & D2). rewrite P1, N1.
           split; [exact D1|].
           intros c Hc Hnf. apply in_app_or in Hc.
           destruct Hc as [Hc|Hc]; [exact (D2 c Hc Hnf)|].
           apply repeat_spec in Hc. subst c.
           apply Hnot. apply (M targetCode). now right.
      * assert (Hn : n = 0%nat).
        { destruct n; [reflexivity|].
          assert (false = true) by (apply Hf; right; lia). discriminate. }
        rewrite Hn in C1, P1. cbn [repeat] in C1, P1.
        rewrite app_nil_r in C1, P1.
        apply NF; auto. congruence.
Qed.

Lemma searchLoop_inv (already : list string) (user : option string)
      (search : nat -> SearchOutcome) (g0 : Globals)
      (entries : list (nat * string)) :
  forall (done : list string) (st : SearchState),
    searchInv already done user g0 st ->
    searchInv already (done ++ map snd entries) user g0
              (fold_left (searchOne already user search) entries st).
Proof.
  induction entries as [|[k c] entries IH]; intros done st Inv; simpl.
  - now rewrite app_nil_r.
  - replace (done ++ c :: map snd entries)%list
      with ((done ++ [c]) ++ map snd entries)%list
      by (rewrite <- app_assoc; reflexivity).
    apply IH. now apply searchOne_inv.
Qed.

Lemma indexed_snd (codes : list string) : map snd (indexed codes) = codes.
Proof.
  unfold indexed. generalize 0%nat.
  induction codes as [|c codes IH]; intros n; simpl; [reflexivity|].
  now rewrite IH.
Qed.

(** The processed codes of the tracking [searchAndClickOrderCodes]
    starts from. *)
Definition alreadyProcessed (g : Globals) : list string :=
  match orderCodeTracking g with
  | Some t => processed t
  | None => []
  end.

Lemma search_inv (orderCodes : list string) (user : option string)
      (search : nat -> SearchOutcome) (g : Globals) :
  exists st,
    searchAndClickOrderCodes orderCodes user search g
    = (mkSearchResult (List.length (clicked st)) (localNotFound st)
                      (localProcessed st), globals st)
    /\ searchInv (alreadyProcessed g) (map normalize orderCodes) user g st.
Proof.
  eexists. split; [reflexivity|].
  pose proof (searchLoop_inv (alreadyProcessed g) user search g
                (indexed (map normalize orderCodes)) []
                (mkSearchState [] [] [] g)) as H.
  rewrite indexed_snd in H. simpl in H. apply H.
  split; [reflexivity|]. split; [simpl; tauto|].
  split; [intros _; split; [constructor|intros c []]|].
  exists []. simpl. rewrite app_nil_r. repeat split. constructor.
Qed.

(** Every code is accounted for.  [searchAndClickOrderCodes] puts each
    normalised code that the tracking does not list as processed into
    [processed] (an order page was opened for it) or into [notFound], and
    puts no other code there; [clicked] is the length of [processed].
    When the normalised codes are pairwise different, no code is in both
    lists and [notFound] has no duplicates. *)
Theorem search_accounts_for_every_code :
  forall (orderCodes : list string) (user : option string)
         (search : nat -> SearchOutcome) (g : Globals),
    let r := fst (searchAndClickOrderCodes orderCodes user search g) in
    clickedCount r = List.length (resultProcessed r)
    /\ (forall c, In c (resultProcessed r) \/ In c (resultNotFound r) <->
                  In c (map normalize orderCodes)
                  /\ ~ In c (alreadyProcessed g))
    /\ (NoDup (map normalize orderCodes) ->
        NoDup (resultNotFound r)
        /\ forall c, In c (resultProcessed r) -> ~ In c (resultNotFound r)).
Proof.
  intros orderCodes user search g r.
  destruct (search_inv orderCodes user search g) as (st & E & C & M & D & _).
  subst r. rewrite E. simpl. rewrite C. auto.
Qed.

(** One result per opened order.  [searchAndClickOrderCodes] appends to
    [global.orderResults] exactly [clicked] results and changes no earlier
    one; each new result names the account it was called for (or
    "unknown"), has status failure exactly if it carries issue details,
    and never carries empty details. *)
Theorem search_records_one_result_per_click :
  forall (orderCodes : list string) (user : option string)
         (search : nat -> SearchOutcome) (g : Globals),
    let out := searchAndClickOrderCodes orderCodes user search g in
    exists new,
      resultsOf (snd out) = (resultsOf g ++ new)%list
      /\ List.length new = clickedCount (fst out)
      /\ forall r, In r new ->
           account r = accountName user
           /\ (status r = failure <-> issueDetails r <> None)
           /\ forall t, issueDetails r = Some t -> t <> "".
Proof.
  intros orderCodes user search g out.
  destruct (search_inv orderCodes user search g)
    as (st & E & _ & _ & _ & new & G & L & F).
  subst out. rewrite E. simpl. exists new.
  split; [exact G|]. split; [exact L|].
  intros r Hr. exact (proj1 (Forall_forall _ _) F r Hr).
Qed.

End TrackerMore.

(** ** More facts about the multi-account run *)
Module RunMore.
Import Run.

(** *** The numbers of the tracking summary *)

Lemma dedupe_from_NoDup (l acc : list string) :
  NoDup acc ->
  NoDup (fold_left (fun acc x => if Str.inList x acc then acc else acc ++ [x])
                   l acc).
Proof.
  revert acc; induction l as [|x l IH]; intros acc ND; simpl; [exact ND|].
  apply IH. destruct (Str.inList x acc) eqn:E; [exact ND|].
  apply TrackerFacts.inList_false in E.
  apply NoDup_app; [exact ND|repeat constructor; intros []|].
  intros y Hy [<-|[]]. contradiction.
Qed.

Lemma dedupe_NoDup (l : list string) : NoDup (Tracker.dedupe l).
Proof. apply dedupe_from_NoDup. constructor. Qed.

Lemma addNotFound_NoDup (processedSet l acc : list string) :
  NoDup acc -> NoDup (fold_left (Tracker.addNotFound processedSet) l acc).
Proof.
  revert acc; induction l as [|x l IH]; intros acc ND; simpl; [exact ND|].
  apply IH. unfold Tracker.addNotFound.
  destruct (negb (Str.inList x processedSet)); simpl; [|exact ND].
  destruct (Str.inList x acc) eqn:E; simpl; [exact ND|].
  apply TrackerFacts.inList_false in E.
  apply NoDup_app; [exact ND|repeat constructor; intros []|].
  intros y Hy [<-|[]]. contradiction.
Qed.

(** The tracking holds the universe [V]; its two lists have no
    duplicates and only codes of [V]. *)
Definition trackingWithin (V : list string) (g : Tracker.Globals) : Prop :=
  exists t, Tracker.orderCodeTracking g = Some t
            /\ Tracker.valid t = V
            /\ NoDup (Tracker.processed t) /\ NoDup (Tracker.notFound t)
            /\ incl (Tracker.processed t) V /\ incl (Tracker.notFound t) V.

Lemma within_markProcessed (V : list string) (c : string) (g : Tracker.Globals) :
  In c V -> trackingWithin V g -> trackingWithin V (Tracker.markProcessed c g).
Proof.
  intros Hc (t & E & Hv & N1 & N2 & I1 & I2). unfold Tracker.markProcessed.
  rewrite E. destruct (Str.inList c (Tracker.processed t)) eqn:Ec.
  - exists t. auto 7.
  - apply TrackerFacts.inList_false in Ec.
    eexists. simpl. split; [reflexivity|]. simpl.
    split; [exact Hv|]. split.
    + apply NoDup_app; [exact N1|repeat constructor; intros []|].
      intros y Hy [<-|[]]. contradiction.
    + split; [exact N2|]. split; [|exact I2].
      intros y Hy. apply in_app_or in Hy. destruct Hy as [Hy|[<-|[]]]; auto.
Qed.

Lemma within_pushResult (V : list string) (r : Tracker.OrderResult)
      (g : Tracker.Globals) :
  trackingWithin V g -> trackingWithin V (Tracker.pushResult r g).
Proof. intros (t & E & H). exists t. split; [exact E|exact H]. Qed.

Lemma within_scanRows (V : list string) (targetCode : string)
      (user : option string) (rows : list Tracker.RowOutcome) :
  In targetCode V ->
  forall (found : bool) (st : Tracker.SearchState),
    trackingWithin V (Tracker.globals st) ->
    trackingWithin V
      (Tracker.globals (snd (Tracker.scanRows targetCode user rows found st))).
Proof.
  intros Hc. induction rows as [|row rows IH]; intros found st W; simpl.
  - exact W.
  - destruct row as [|code check backRaises]; [now apply IH|].
    assert (W' : trackingWithin V
                   (Tracker.globals
                      (Tracker.openRow targetCode code user check st))).
    { simpl. apply within_pushResult. now apply within_markProcessed. }
    destruct backRaises; simpl; [now apply IH|exact W'].
Qed.

Lemma within_search (V : list string) (orderCodes : list string)
      (user : option string) (search : nat -> Tracker.SearchOutcome)
      (g : Tracker.Globals) :
  incl (map Tracker.normalize orderCodes) V ->
  trackingWithin V g ->
  trackingWithin V
    (snd (Tracker.searchAndClickOrderCodes orderCodes user search g)).
Proof.
  intros Hin W. unfold Tracker.searchAndClickOrderCodes. simpl.
  set (already := match Tracker.orderCodeTracking g with
                  | Some t => Tracker.processed t
                  | None => []
                  end).
  assert (Loop : forall entries st,
             incl (map snd entries) V ->
             trackingWithin V (Tracker.globals st) ->
             trackingWithin V
               (Tracker.globals
                  (fold_left (Tracker.searchOne already user search)
                             entries st))).
  { induction entries as [|[k c] entries IH]; intros st Hi Wst; simpl;
      [exact Wst|].
    apply IH; [intros x Hx; apply Hi; now right|].
    unfold Tracker.searchOne.
    destruct (Str.inList c already); [exact Wst|].
    destruct (search k) as [|rows]; [exact Wst|].
    pose proof (within_scanRows V c user rows (Hi c (or_introl eq_refl))
                  false st Wst) as W'.
    destruct (Tracker.scanRows c user rows false st) as [found st'].
    destruct found; exact W'. }
  apply Loop; [rewrite TrackerMore.indexed_snd; exact Hin|exact W].
Qed.

Lemma within_update (V : list string) (r : Tracker.SearchResult)
      (g : Tracker.Globals) :
  incl (Tracker.resultProcessed r) V -> incl (Tracker.resultNotFound r) V ->
  trackingWithin V g ->
  trackingWithin V (Tracker.updateTracking r g)
  /\ exists t, Tracker.orderCodeTracking (Tracker.updateTracking r g) = Some t
               /\ TrackerFacts.partitioned t.
Proof.
  intros Hp Hn (t & E & Hv & N1 & N2 & I1 & I2).
  destruct (TrackerFacts.updateTracking_spec r g t E)
    as (t' & E' & V' & _ & _ & P' & Hnf).
  split; [|exists t'; auto].
  exists t'. split; [exact E'|]. split; [congruence|].
  unfold Tracker.updateTracking in E'. rewrite E in E'.
  injection E' as <-. simpl in *.
  split; [apply dedupe_NoDup|].
  split; [apply addNotFound_NoDup, NoDup_filter, N2|].
  split.
  - intros c Hc. apply (proj1 (TrackerFacts.dedupe_In _ _)) in Hc.
    apply in_app_or in Hc. destruct Hc; auto.
  - intros c Hc. destruct (Hnf c Hc); auto.
Qed.

(** Every account reads the code list [codes], or fails to read one. *)
Definition readsCodes (codes : list string) (entry : Account * AccountEnv)
  : Prop :=
  orderCodesToFilter (snd entry) = Some codes
  \/ orderCodesToFilter (snd entry) = None.

(** The tracking after a pass: within [V], and partitioned. *)
Definition trackingSound (V : list string) (g : Tracker.Globals) : Prop :=
  trackingWithin V g
  /\ exists t, Tracker.orderCodeTracking g = Some t
               /\ TrackerFacts.partitioned t.

Lemma processCodes_sound (codes : list string) (env : AccountEnv)
      (user : string) (st st' : RunState) :
  orderCodesToFilter env = Some codes \/ orderCodesToFilter env = None ->
  trackingSound (map Tracker.normalize codes) (globals st) ->
  processCodes env user st = Some st' ->
  trackingSound (map Tracker.normalize codes) (globals st').
Proof.
  intros Hc S. unfold processCodes.
  destruct Hc as [Hc|Hc]; rewrite Hc; [|discriminate].
  destruct codes as [|c0 cs]; [intros E; injection E as <-; exact S|].
  set (codes := c0 :: cs) in *.
  set (V := map Tracker.normalize codes) in *.
  destruct (filter _ V) as [|c cs'] eqn:F;
    [intros E; injection E as <-; exact S|].
  assert (Hsub : incl (map Tracker.normalize (c :: cs')) V).
  { intros x Hx. apply in_map_iff in Hx. destruct Hx as (y & <- & Hy).
    rewrite <- F in Hy. apply filter_In in Hy. destruct Hy as [Hy _].
    unfold V in Hy. apply in_map_iff in Hy. destruct Hy as (z & <- & Hz).
    rewrite NormalizeFacts.normalize_idem. unfold V. now apply in_map. }
  destruct (TrackerMore.search_inv (c :: cs') (Some user) (search env)
              (globals st)) as (sst & E & _ & M & _).
  pose proof (within_search V (c :: cs') (Some user) (search env) (globals st)
                Hsub (proj1 S)) as W1.
  rewrite E in W1. simpl in W1. rewrite E.
  assert (Sound : trackingSound V
                    (Tracker.updateTracking
                       (Tracker.mkSearchResult
                          (List.length (Tracker.clicked sst))
                          (Tracker.localNotFound sst)
                          (Tracker.localProcessed sst))
                       (Tracker.globals sst))).
  { apply within_update; simpl; [| |exact W1];
      intros x Hx; apply Hsub; apply (M x); tauto. }
  destruct (_ && _)%bool; intros Eq; injection Eq as <-; exact Sound.
Qed.

Lemma processAccount_sound (codes : list string) (st : RunState)
      (entry : Account * AccountEnv) :
  readsCodes codes entry ->
  trackingSound (map Tracker.normalize codes) (globals st) ->
  trackingSound (map Tracker.normalize codes)
                (globals (processAccount st entry)).
Proof.
  intros Hc S. unfold processAccount. destruct entry as [account env].
  unfold readsCodes in Hc. simpl in Hc.
  destruct (_ && _)%bool; [exact S|].
  set (st1 := if startOnSignIn env then st else _).
  assert (E1 : globals st1 = globals st)
    by (unfold st1; destruct (startOnSignIn env); reflexivity).
  destruct (loginWithRetry _ _ _) as [exit tr].
  destruct exit as [attempt|last|]; simpl; try (rewrite E1; exact S).
  destruct (postLoginRaises env); simpl; [rewrite E1; exact S|].
  destruct (completedLinkFound env).
  - destruct (processCodes env (username account) _) as [st'|] eqn:P.
    + apply (processCodes_sound codes) in P; [|exact Hc|simpl; rewrite E1; exact S].
      destruct (finalLogoutRaises env); exact P.
    + simpl. rewrite E1. exact S.
  - destruct (finalLogoutRaises env); simpl; rewrite E1; exact S.
Qed.

Lemma processAccounts_sound (codes : list string)
      (l : list (Account * AccountEnv)) :
  forall st, Forall (readsCodes codes) l ->
             trackingSound (map Tracker.normalize codes) (globals st) ->
             trackingSound (map Tracker.normalize codes)
                           (globals (processAccounts l st)).
Proof.
  unfold processAccounts.
  induction l as [|entry l IH]; intros st F S; simpl; [exact S|].
  inversion F; subst. apply IH; [assumption|].
  now apply processAccount_sound.
Qed.

(** The tracking summary adds up.  In a run whose accounts all read the
    code list the tracking was initialised from, after the passes of any
    number of accounts the lists [processed] and [notFound] of the
    tracking hold no code twice, hold only codes of [valid], and share no
    code; so the numbers the summary prints satisfy "codes processed" +
    "codes not found" <= "total valid codes". *)
Theorem tracking_summary_adds_up :
  forall (codes : list string) (g0 : Tracker.Globals)
         (issues noOrders : list string) (tr : list RunEvent)
         (accounts : list (Account * AccountEnv)),
    codes <> [] ->
    Forall (readsCodes codes) accounts ->
    let rs0 := mkRunState (Tracker.initTracking codes g0) issues noOrders tr in
    exists t,
      Tracker.orderCodeTracking (globals (processAccounts accounts rs0)) = Some t
      /\ NoDup (Tracker.processed t) /\ NoDup (Tracker.notFound t)
      /\ incl (Tracker.processed t) (Tracker.valid t)
      /\ incl (Tracker.notFound t) (Tracker.valid t)
      /\ (forall c, In c (Tracker.processed t) -> ~ In c (Tracker.notFound t))
      /\ (List.length (Tracker.processed t) + List.length (Tracker.notFound t)
          <= List.length (Tracker.valid t))%nat.
Proof.
  intros codes g0 issues noOrders tr accounts Hne F rs0.
  assert (S0 : trackingSound (map Tracker.normalize codes) (globals rs0)).
  { subst rs0. destruct codes as [|c cs]; [congruence|]. simpl.
    split; eexists; (split; [reflexivity|]); simpl.
    - split; [reflexivity|]. split; [constructor|]. split; [constructor|].
      split; intros x [].
    - intros x []. }
  destruct (processAccounts_sound codes accounts rs0 F S0)
    as ((t & E & V & N1 & N2 & I1 & I2) & (t' & E' & P)).
  rewrite E in E'. injection E' as <-.
  exists t. rewrite V.
  split; [exact E|]. split; [exact N1|]. split; [exact N2|].
  split; [exact I1|]. split; [exact I2|]. split; [exact P|].
  rewrite <- length_app. apply NoDup_incl_length.
  - apply NoDup_app; [exact N1|exact N2|exact P].
  - intros x Hx. apply in_app_or in Hx. destruct Hx; auto.
Qed.

(** The summary of the run with two accounts adds up. *)
Lemma tracking_summary_adds_up_witness :
  exists t,
    Tracker.orderCodeTracking
      (globals (processAccounts [(RunFacts.account1, RunFacts.firstFindsAB);
                                 (RunFacts.account2, RunFacts.secondFindsC)]
                                RunFacts.scenarioB_start)) = Some t
    /\ (List.length (Tracker.processed t) + List.length (Tracker.notFound t)
        <= List.length (Tracker.valid t))%nat.
Proof.
  destruct (tracking_summary_adds_up ["a"; " b "; "C"]
              (Tracker.mkGlobals None None) [] [] []
              [(RunFacts.account1, RunFacts.firstFindsAB);
               (RunFacts.account2, RunFacts.secondFindsC)])
    as (t & E & _ & _ & _ & _ & _ & L).
  - discriminate.
  - repeat constructor; left; reflexivity.
  - exists t. split; [exact E|exact L].
Defined.

(** *** The retry loop ends with the first success *)

Lemma filter_isLogin_logout (e : AttemptEnv) (tr : list RunEvent) :
  filter RunFacts.isLogin (logoutBeforeRetry e tr) = filter RunFacts.isLogin tr.
Proof.
  unfold logoutBeforeRetry.
  destruct (logoutRaises e), (recoveryGotoRaises e), (onSignInAfterLogout e),
    (gotoAfterLogoutRaises e); rewrite ?filter_app; simpl;
    rewrite ?app_nil_r; reflexivity.
Qed.

Lemma loginAttempts_first_success (user : string) (env : Z -> AttemptEnv)
      (l : list Z) :
  forall (last : Login.LoginResult) (tr : list RunEvent) (k : Z),
    fst (loginAttempts user env l last tr) = LoginOk k ->
    exists pre post,
      l = (pre ++ k :: post)%list
      /\ (forall j, In j pre -> RunFacts.succeeds env j = false)
      /\ RunFacts.succeeds env k = true
      /\ filter RunFacts.isLogin (snd (loginAttempts user env l last tr))
         = (filter RunFacts.isLogin tr
            ++ map (PerformLogin user) (pre ++ [k]))%list.
Proof.
  induction l as [|a l IH]; intros last tr k; simpl; [discriminate|].
  destruct (negb (onSignInBefore (env a)) && gotoBeforeRaises (env a))%bool;
    [discriminate|].
  set (tr1 := if onSignInBefore (env a) then tr else _).
  set (tr2 := if a >? 1 then logoutBeforeRetry (env a) tr1 else tr1).
  assert (F2 : filter RunFacts.isLogin tr2 = filter RunFacts.isLogin tr).
  { unfold tr2, tr1. destruct (a >? 1); rewrite ?filter_isLogin_logout;
      destruct (onSignInBefore (env a)); rewrite ?filter_app; simpl;
      rewrite ?app_nil_r; reflexivity. }
  fold (RunFacts.succeeds env a).
  set (tr3 := if a <? MAX_LOGIN_ATTEMPTS then _ else _).
  assert (F3 : filter RunFacts.isLogin tr3
               = (filter RunFacts.isLogin tr ++ [PerformLogin user a])%list).
  { unfold tr3. destruct (a <? MAX_LOGIN_ATTEMPTS); rewrite ?filter_app, F2;
      simpl; rewrite ?app_nil_r; reflexivity. }
  destruct (RunFacts.succeeds env a) eqn:Ok.
  - intros E. injection E as <-. exists [], l. simpl.
    split; [reflexivity|]. split; [intros j []|]. split; [exact Ok|].
    rewrite filter_app, F2. reflexivity.
  - intros E. apply IH in E. destruct E as (pre & post & El & Hf & Hk & Ht).
    exists (a :: pre), post. split; [simpl; now rewrite El|].
    split; [intros j [<-|Hj]; [exact Ok|now apply Hf]|]. split; [exact Hk|].
    rewrite Ht, F3, <- app_assoc. reflexivity.
Qed.

Lemma attempts_prefix (n : nat) (pre post : list Z) (k : Z) :
  map (fun j => Z.of_nat j) (seq 1 n) = (pre ++ k :: post)%list ->
  (pre ++ [k])%list = map (fun j => Z.of_nat j) (seq 1 (List.length pre + 1))
  /\ k = Z.of_nat (List.length pre + 1)
  /\ (List.length pre + 1 <= n)%nat.
Proof.
  intros E.
  assert (Hlen : (List.length pre + 1 <= n)%nat).
  { apply (f_equal (@List.length Z)) in E.
    rewrite length_map, length_seq, length_app in E. simpl in E. lia. }
  assert (Hs : seq 1 n = (seq 1 (List.length pre + 1)
                          ++ seq (1 + (List.length pre + 1))
                                 (n - (List.length pre + 1)))%list).
  { rewrite <- seq_app. f_equal. lia. }
  rewrite Hs, map_app in E.
  assert (E' : (map (fun j => Z.of_nat j) (seq 1 (List.length pre + 1))
                ++ map (fun j => Z.of_nat j)
                       (seq (1 + (List.length pre + 1))
                            (n - (List.length pre + 1))))%list
               = ((pre ++ [k]) ++ post)%list)
    by (rewrite <- app_assoc; exact E).
  apply app_eq_app in E'.
  assert (L : List.length (map (fun j => Z.of_nat j)
                               (seq 1 (List.length pre + 1)))
              = List.length (pre ++ [k]))
    by (rewrite length_map, length_seq, length_app; reflexivity).
  destruct E' as (l2 & [[E1 E2]|[E1 E2]]).
  - rewrite E1, length_app in L.
    assert (l2 = []) by (destruct l2; [reflexivity|simpl in L; lia]).
    subst l2. rewrite app_nil_r in E1.
    split; [now rewrite E1|]. split; [|exact Hlen].
    rewrite seq_app, map_app in E1. simpl in E1.
    apply app_inj_tail in E1. destruct E1 as [_ E1]. rewrite <- E1. f_equal. lia.
  - rewrite E1, length_app in L.
    assert (l2 = []) by (destruct l2; [reflexivity|simpl in L; lia]).
    subst l2. rewrite app_nil_r in E1.
    split; [now rewrite E1|]. split; [|exact Hlen].
    rewrite seq_app, map_app in E1. simpl in E1.
    apply app_inj_tail in E1. destruct E1 as [_ E1]. rewrite E1. f_equal. lia.
Qed.

(** First success ends the retries.  When the retry loop of an account
    ends with a successful login at attempt [k], then [k] is between 1 and
    4, the attempts 1 to [k - 1] failed, and [performLogin] was called
    exactly [k] times, for the attempts 1, 2, ..., [k] in this order: no
    attempt is made after a success. *)
Theorem retry_stops_at_first_success :
  forall (user : string) (env : Z -> AttemptEnv) (tr : list RunEvent) (k : Z),
    fst (loginWithRetry user env tr) = LoginOk k ->
    1 <= k <= MAX_LOGIN_ATTEMPTS
    /\ RunFacts.succeeds env k = true
    /\ (forall j, 1 <= j < k -> RunFacts.succeeds env j = false)
    /\ filter RunFacts.isLogin (snd (loginWithRetry user env tr))
       = (filter RunFacts.isLogin tr
          ++ map (PerformLogin user) (Login.attemptNumbers k))%list.
Proof.
  intros user env tr k E. unfold loginWithRetry in *.
  apply loginAttempts_first_success in E.
  destruct E as (pre & post & El & Hf & Hk & Ht).
  unfold Login.attemptNumbers in El.
  change (Z.to_nat MAX_LOGIN_ATTEMPTS) with 4%nat in El.
  destruct (attempts_prefix 4 pre post k El) as (Ep & Ek & Hlen).
  split; [unfold MAX_LOGIN_ATTEMPTS; lia|]. split; [exact Hk|]. split.
  - intros j Hj. apply Hf.
    assert (Hin : In j (pre ++ [k])).
    { rewrite Ep. apply in_map_iff. exists (Z.to_nat j). split; [lia|].
      apply in_seq. lia. }
    apply in_app_or in Hin. destruct Hin as [Hin|[<-|[]]]; [exact Hin|lia].
  - rewrite Ht, Ep. unfold Login.attemptNumbers.
    replace (Z.to_nat k) with (List.length pre + 1)%nat by lia. reflexivity.
Qed.

(** Two failed attempts, then a success. *)
Lemma retry_stops_at_first_success_witness :
  filter RunFacts.isLogin
    (snd (loginWithRetry "store1@example.com"
            (fun k => if k <? 3 then RunFacts.quietRound RunFacts.neverACode
                      else RunFacts.quietRound RunFacts.plainLogin) []))
  = [PerformLogin "store1@example.com" 1; PerformLogin "store1@example.com" 2;
     PerformLogin "store1@example.com" 3].
Proof.
  destruct (retry_stops_at_first_success "store1@example.com"
              (fun k => if k <? 3 then RunFacts.quietRound RunFacts.neverACode
                        else RunFacts.quietRound RunFacts.plainLogin) [] 3)
    as (_ & _ & _ & H); [reflexivity|].
  rewrite H. reflexivity.
Defined.

End RunMore.

(** ** More facts about [performLogin] *)
Module LoginMore.
Import Login.

Definition isAskPrimary (e : LoginEvent) : bool :=
  match e with AskPrimary _ _ => true | _ => false end.

Definition isAskSecondary (e : LoginEvent) : bool :=
  match e with AskSecondary _ _ => true | _ => false end.

Definition isWait (e : LoginEvent) : bool :=
  match e with WaitRandom _ _ => true | _ => false end.

(** How many events of a trace satisfy [p]. *)
Definition count (p : LoginEvent -> bool) (tr : list LoginEvent) : nat :=
  List.length (filter p tr).

Lemma count_app (p : LoginEvent -> bool) (a b : list LoginEvent) :
  count p (a ++ b) = (count p a + count p b)%nat.
Proof. unfold count. now rewrite filter_app, length_app. Qed.

Section Acquire.
Variable env : LoginEnv.

(** What the acquisition loop adds to the trace while it runs through
    the attempts [l]: at most one question to each source and one wait
    per attempt, every wait as long as [codeWaitTimeout]; and the code it
    ends with is the answer to its last question. *)
Definition acquireFacts (l : list Z) (code : option string)
           (new : list LoginEvent) : Prop :=
  (count isAskPrimary new <= List.length l)%nat
  /\ (count isAskSecondary new <= List.length l)%nat
  /\ (count isWait new <= List.length l)%nat
  /\ (forall a b, In (WaitRandom a b) new ->
                  a = waitTimeout env /\ b = waitTimeout env)
  /\ (forall c, ~ In (TypeCode c) new) /\ ~ In SubmitCode new
  /\ (truthyCode code = true ->
      exists before k,
        new = (before ++ [AskPrimary k code])%list
        \/ new = (before ++ [AskSecondary k code])%list)
  /\ (truthyCode code = false -> code = None).

Lemma acquireFacts_cons (k : Z) (l : list Z) (code : option string)
      (pre new : list LoginEvent) :
  (count isAskPrimary pre <= 1)%nat ->
  (count isAskSecondary pre <= 1)%nat ->
  (count isWait pre <= 1)%nat ->
  (forall a b, In (WaitRandom a b) pre ->
               a = waitTimeout env /\ b = waitTimeout env) ->
  (forall c, ~ In (TypeCode c) pre) -> ~ In SubmitCode pre ->
  acquireFacts l code new ->
  acquireFacts (k :: l) code (pre ++ new).
Proof.
  intros P S W Wd T Sb (P' & S' & W' & Wd' & T' & Sb' & C' & N').
  unfold acquireFacts. rewrite !count_app. simpl List.length.
  split; [lia|]. split; [lia|]. split; [lia|].
  split; [intros a b H; apply in_app_or in H; destruct H; eauto|].
  split; [intros c H; apply in_app_or in H; destruct H;
          [exact (T c H)|exact (T' c H)]|].
  split; [intros H; apply in_app_or in H; destruct H; tauto|].
  split; [|exact N'].
  intros Hc. destruct (C' Hc) as (before & j & [E|E]);
    exists (pre ++ before)%list, j; rewrite E, app_assoc; auto.
Qed.

Lemma acquireFacts_found (k j : Z) (l : list Z) (code : option string)
      (pre : list LoginEvent) (ask : LoginEvent) :
  ask = AskPrimary j code \/ ask = AskSecondary j code ->
  truthyCode code = true ->
  (count isAskPrimary (pre ++ [ask]) <= 1)%nat ->
  (count isAskSecondary (pre ++ [ask]) <= 1)%nat ->
  count isWait (pre ++ [ask]) = 0%nat ->
  (forall c, ~ In (TypeCode c) (pre ++ [ask])) ->
  ~ In SubmitCode (pre ++ [ask]) ->
  acquireFacts (k :: l) code (pre ++ [ask]).
Proof.
  intros Hask Hc P S W T Sb. unfold acquireFacts. simpl List.length.
  split; [lia|]. split; [lia|]. split; [lia|].
  split.
  - intros a b H. exfalso.
    assert (In (WaitRandom a b) (filter isWait (pre ++ [ask])))
      by (apply filter_In; split; [exact H|reflexivity]).
    unfold count in W. destruct (filter isWait (pre ++ [ask]));
      [contradiction|discriminate].
  - split; [exact T|]. split; [exact Sb|]. split; [|congruence].
    intros _. exists pre, j. destruct Hask as [-> | ->]; auto.
Qed.

Lemma endOfRound_wait (k : Z) (st : AcqState) :
  exists w, loginTrace (endOfRound env k st) = (loginTrace st ++ w)%list
            /\ (w = [] \/ w = [WaitRandom (waitTimeout env) (waitTimeout env)]).
Proof.
  unfold endOfRound. destruct (k <? maxRetries env); simpl.
  - eexists. split; [reflexivity|]. now right.
  - exists []. rewrite app_nil_r. split; [reflexivity|]. now left.
Qed.

Lemma acquireFrom_facts (l : list Z) :
  forall st, exists new,
    loginTrace (snd (acquireFrom env l st)) = (loginTrace st ++ new)%list
    /\ acquireFacts l (fst (acquireFrom env l st)) new.
Proof.
  induction l as [|k l IH]; intros st.
  - exists []. simpl. rewrite app_nil_r. split; [reflexivity|].
    unfold acquireFacts, count. simpl.
    split; [lia|]. split; [lia|]. split; [lia|].
    split; [intros a b []|]. split; [intros c []|]. split; [intros []|].
    split; [discriminate|reflexivity].
  - cbn [acquireFrom]. unfold askPrimary, askSecondary.
    destruct (canUseGmailAPI env) eqn:Api.
    + destruct (truthyCode (primary env (nPrimary st))) eqn:T1.
      * exists [AskPrimary k (primary env (nPrimary st))]. simpl.
        split; [reflexivity|].
        apply (acquireFacts_found k k l _ []); simpl; auto;
          unfold count; simpl; try lia.
        -- intros c [H|[]]. discriminate.
        -- intros [H|[]]. discriminate.
      * destruct (k <? maxRetries env) eqn:Lt.
        -- cbn [nPrimary nSecondary loginTrace].
           destruct (truthyCode (secondary env (nSecondary st))) eqn:T2.
           ++ exists [AskPrimary k (primary env (nPrimary st));
                      AskSecondary k (secondary env (nSecondary st))].
              simpl. rewrite <- app_assoc. split; [reflexivity|].
              apply (acquireFacts_found k k l _
                       [AskPrimary k (primary env (nPrimary st))]);
                simpl; auto; unfold count; simpl; try lia.
              ** intros c [H|[H|[]]]; discriminate.
              ** intros [H|[H|[]]]; discriminate.
           ++ match goal with
              | |- context [acquireFrom env l (endOfRound env k ?s)] =>
                  destruct (endOfRound_wait k s) as (w & Hw & Hshape);
                  destruct (IH (endOfRound env k s)) as (new & Hn & F)
              end.
              simpl in Hw.
              exists (([AskPrimary k (primary env (nPrimary st));
                        AskSecondary k (secondary env (nSecondary st))]
                       ++ w) ++ new)%list.
              split; [rewrite Hn, Hw, <- !app_assoc; reflexivity|].
              apply acquireFacts_cons; [| | | | | |exact F];
                unfold count; destruct Hshape as [-> | ->]; simpl; try lia.
              ** intros a b [H|[H|[]]]; discriminate.
              ** intros a b [H|[H|[H|[]]]]; try discriminate.
                 injection H as <- <-. auto.
              ** intros c [H|[H|[]]]; discriminate.
              ** intros c [H|[H|[H|[]]]]; discriminate.
              ** intros [H|[H|[]]]; discriminate.
              ** intros [H|[H|[H|[]]]]; discriminate.
        -- match goal with
           | |- context [acquireFrom env l (endOfRound env k ?s)] =>
               destruct (endOfRound_wait k s) as (w & Hw & Hshape);
               destruct (IH (endOfRound env k s)) as (new & Hn & F)
           end.
           simpl in Hw.
           exists (([AskPrimary k (primary env (nPrimary st))] ++ w)
                   ++ new)%list.
           split; [rewrite Hn, Hw, <- !app_assoc; reflexivity|].
           apply acquireFacts_cons; [| | | | | |exact F];
             unfold count; destruct Hshape as [-> | ->]; simpl; try lia.
           ++ intros a b [H|[]]; discriminate.
           ++ intros a b [H|[H|[]]]; try discriminate.
              injection H as <- <-. auto.
           ++ intros c [H|[]]; discriminate.
           ++ intros c [H|[H|[]]]; discriminate.
           ++ intros [H|[]]; discriminate.
           ++ intros [H|[H|[]]]; discriminate.
    + destruct (truthyCode (secondary env (nSecondary st))) eqn:T2.
      * exists [AskSecondary k (secondary env (nSecondary st))]. simpl.
        split; [reflexivity|].
        apply (acquireFacts_found k k l _ []); simpl; auto;
          unfold count; simpl; try lia.
        -- intros c [H|[]]. discriminate.
        -- intros [H|[]]. discriminate.
      * match goal with
        | |- context [acquireFrom env l (endOfRound env k ?s)] =>
            destruct (endOfRound_wait k s) as (w & Hw & Hshape);
            destruct (IH (endOfRound env k s)) as (new & Hn & F)
        end.
        simpl in Hw.
        exists (([AskSecondary k (secondary env (nSecondary st))] ++ w)
                ++ new)%list.
        split; [rewrite Hn, Hw, <- !app_assoc; reflexivity|].
        apply acquireFacts_cons; [| | | | | |exact F];
          unfold count; destruct Hshape as [-> | ->]; simpl; try lia.
        -- intros a b [H|[]]; discriminate.
        -- intros a b [H|[H|[]]]; try discriminate.
           injection H as <- <-. auto.
        -- intros c [H|[]]; discriminate.
        -- intros c [H|[H|[]]]; discriminate.
        -- intros [H|[]]; discriminate.
        -- intros [H|[H|[]]]; discriminate.
Qed.

End Acquire.

(** The state the acquisition loop starts in: nothing asked yet, the
    fixed 30 s wait done. *)
Definition afterFirstWait : AcqState := mkAcqState 0 0 [WaitRandom 30000 30000].


(** The trace of [performLogin] is empty, or the 30 s wait, the events
    of the acquisition loop, and what is typed into the page. *)
Lemma performLogin_shape (env : LoginEnv) :
  snd (performLogin env) = []
  \/ exists new extra,
       snd (performLogin env)
       = ([WaitRandom 30000 30000] ++ new ++ extra)%list
       /\ acquireFacts env (attemptNumbers (maxRetries env))
                       (fst (acquireCode env afterFirstWait)) new
       /\ ((extra = [] /\ forall c, ~ In (TypeCode c) (snd (performLogin env)))
           \/ exists c, fst (acquireCode env afterFirstWait) = Some c
                        /\ truthyCode (Some c) = true
                        /\ (extra = [TypeCode c]
                            \/ extra = [TypeCode c; SubmitCode])).
Proof.
  unfold performLogin.
  destruct (negb (hasGmailConfig env)); [now left|].
  destruct (credentialError env); [now left|].
  destruct (challenge env); [|now left].
  right. fold afterFirstWait. unfold acquireCode.
  destruct (acquireFrom_facts env (attemptNumbers (maxRetries env))
              afterFirstWait) as (new & Hn & F).
  destruct (acquireFrom env _ _) as [code st]. simpl in Hn, F. simpl fst.
  exists new.
  assert (NoType : forall c, ~ In (TypeCode c)
                                  ([WaitRandom 30000 30000] ++ new ++ [])).
  { intros c H. rewrite app_nil_r in H. destruct H as [H|H]; [discriminate|].
    destruct F as (_ & _ & _ & _ & T & _). exact (T c H). }
  assert (Plain : loginTrace st = ([WaitRandom 30000 30000] ++ new ++ [])%list)
    by (rewrite Hn, app_nil_r; reflexivity).
  destruct (truthyCode code) eqn:Tc;
    [|exists []; simpl snd; rewrite Plain;
      split; [reflexivity|split; [exact F|left; split; [reflexivity|exact NoType]]]].
  destruct code as [c|]; [|discriminate].
  destruct (codePage env) as [[|]| |]; simpl snd.
  - exists [TypeCode c; SubmitCode]. rewrite Hn.
    split; [reflexivity|]. split; [exact F|]. right. exists c. auto.
  - exists []. rewrite Plain. split; [reflexivity|]. split; [exact F|].
    left. split; [reflexivity|exact NoType].
  - exists []. rewrite Plain. split; [reflexivity|]. split; [exact F|].
    left. split; [reflexivity|exact NoType].
  - exists [TypeCode c]. rewrite Hn.
    split; [reflexivity|]. split; [exact F|]. right. exists c. auto.
Qed.


(** The typed code is the last answer.  Whenever [performLogin] types a
    code into the page, that code is not empty and is the answer one of
    the two sources gave to the last question asked; nothing is asked
    after it, and the submit follows the typing directly or not at all. *)
Theorem typed_code_is_last_answer :
  forall (env : LoginEnv) (c : string),
    In (TypeCode c) (snd (performLogin env)) ->
    c <> ""
    /\ exists before k after,
         (snd (performLogin env)
          = (before ++ AskPrimary k (Some c) :: TypeCode c :: after)%list
          \/ snd (performLogin env)
             = (before ++ AskSecondary k (Some c) :: TypeCode c :: after)%list)
         /\ (after = [] \/ after = [SubmitCode]).
Proof.
  intros env c H.
  destruct (performLogin_shape env) as [E|(new & extra & E & F & X)];
    [rewrite E in H; contradiction|].
  destruct X as [[_ NoType]|(c' & Ec & Tc & Hextra)];
    [exfalso; exact (NoType c H)|].
  destruct F as (_ & _ & _ & _ & T & _ & C & _).
  assert (c' = c).
  { rewrite E in H. simpl in H. destruct H as [H|H]; [discriminate|].
    apply in_app_or in H. destruct H as [H|H]; [exfalso; exact (T c H)|].
    destruct Hextra as [-> | ->]; simpl in H;
      repeat (destruct H as [H|H]; [congruence|idtac]); contradiction. }
  subst c'. split.
  - intros ->. discriminate.
  - rewrite Ec in C. destruct (C Tc) as (before & k & Hnew).
    exists ([WaitRandom 30000 30000] ++ before)%list, k.
    exists (match extra with
            | [_; s] => [s]
            | _ => []
            end).
    rewrite E.
    destruct Hnew as [-> | ->]; destruct Hextra as [-> | ->]; simpl;
      rewrite <- ?app_assoc; simpl; auto.
Qed.

(** An example: the code the inbox page shows is the one typed. *)
Lemma typed_code_is_last_answer_witness :
  let env := mkLoginEnv true None true true None None
               (fun _ => None) (fun _ => Some "482913")
               (CodePageOk true) false false in
  "482913" <> ""
  /\ exists before k after,
       (snd (performLogin env)
        = (before ++ AskPrimary k (Some "482913")
                  :: TypeCode "482913" :: after)%list
        \/ snd (performLogin env)
           = (before ++ AskSecondary k (Some "482913")
                     :: TypeCode "482913" :: after)%list)
       /\ (after = [] \/ after = [SubmitCode]).
Proof.
  intros env. apply (typed_code_is_last_answer env "482913").
  vm_compute. tauto.
Defined.

(** Unverified success.  When no [loggedInIndicator] is configured,
    [performLogin] reports success without any check of the page: once
    the user name and password were entered, it fails only if the code
    challenge appeared and then no code was obtained or the code input
    had gone.  In particular a login for which no code challenge appears
    is reported as successful, and so is one in which entering the code
    raised an error. *)
Theorem login_without_indicator_succeeds :
  forall (env : LoginEnv),
    indicatorConfigured env = false ->
    hasGmailConfig env = true ->
    credentialError env = None ->
    (loginSuccess (fst (performLogin env)) = false <->
     challenge env = true
     /\ (truthyCode (fst (acquireCode env afterFirstWait)) = false
         \/ codePage env = CodePageOk false))
    /\ (challenge env = false ->
        performLogin env = (mkLoginResult true None, [])).
Proof.
  intros env Hi Hg Hc.
  unfold performLogin, verifyLogin, isLoggedIn. rewrite Hg, Hc, Hi. simpl.
  fold afterFirstWait.
  destruct (challenge env); [|split; [split; [discriminate|intros [? _]; discriminate]|reflexivity]].
  split; [|discriminate].
  destruct (acquireCode env afterFirstWait) as [code st]. simpl.
  destruct (truthyCode code) eqn:Tc; simpl.
  - destruct code as [c|]; [|discriminate].
    destruct (codePage env) as [[|]| |]; simpl; split; try discriminate;
      try (intros [_ [H|H]]; discriminate); auto.
  - split; auto.
Qed.

(** A login without challenge and without indicator. *)
Lemma login_without_indicator_succeeds_witness :
  performLogin RunFacts.plainLogin = (mkLoginResult true None, []).
Proof.
  destruct (login_without_indicator_succeeds RunFacts.plainLogin
              eq_refl eq_refl eq_refl) as (_ & H).
  apply H. reflexivity.
Defined.

End LoginMore.

(** ** Facts about the statistics per account *)
Module StatsFacts.
Import Stats.

Lemma has_In (key : string) (m : AccountMap) :
  has key m = true <-> In key (map fst m).
Proof.
  unfold has. rewrite existsb_exists. split.
  - intros ([k e] & H & E). apply String.eqb_eq in E. simpl in E. subst.
    now apply (in_map fst) in H.
  - intros H. apply in_map_iff in H. destruct H as ([k e] & <- & H).
    exists (k, e). split; [exact H|apply String.eqb_refl].
Qed.

Lemma update_keys (key : string) (f : Entry -> Entry) (m : AccountMap) :
  map fst (update key f m) = map fst m.
Proof.
  induction m as [|[k e] m IH]; simpl; [reflexivity|].
  destruct (String.eqb k key); simpl; [reflexivity|now rewrite IH].
Qed.

Lemma update_In (key : string) (f : Entry -> Entry) (m : AccountMap)
      (k : string) (e : Entry) :
  NoDup (map fst m) ->
  In (k, e) (update key f m) <->
  (k = key /\ exists e0, In (key, e0) m /\ e = f e0)
  \/ (k <> key /\ In (k, e) m).
Proof.
  induction m as [|[k0 e0] m IH]; simpl; intros ND.
  - split; [intros []|intros [(_ & ? & [] & _)|(_ & [])]].
  - inversion ND as [|? ? Hnot ND']; subst.
    destruct (String.eqb k0 key) eqn:E.
    + apply String.eqb_eq in E. subst k0. simpl. split.
      * intros [H|H].
        -- injection H as <- <-. left. split; [reflexivity|]. exists e0. auto.
        -- right. split; [|now right]. intros ->. apply Hnot.
           now apply (in_map fst) in H.
      * intros [(-> & e1 & [H|H] & ->)|(Hne & [H|H])].
        -- injection H as <-. now left.
        -- exfalso. apply Hnot. now apply (in_map fst) in H.
        -- injection H as <- _. congruence.
        -- now right.
    + apply String.eqb_neq in E. simpl. rewrite (IH ND'). split.
      * intros [H|[(-> & e1 & H & ->)|(Hne & H)]].
        -- injection H as <- <-. right. split; [exact E|now left].
        -- left. split; [reflexivity|]. exists e1. auto.
        -- right. auto.
      * intros [(-> & e1 & [H|H] & ->)|(Hne & [H|H])].
        -- injection H as -> _. congruence.
        -- right. left. split; [reflexivity|]. exists e1. auto.
        -- now left.
        -- right. right. auto.
Qed.

(** What the map holds after the results [rs]. *)
Definition mapInv (rs : list Tracker.OrderResult) (m : AccountMap) : Prop :=
  map fst m = Tracker.dedupe (map Tracker.account rs)
  /\ NoDup (map fst m)
  /\ forall k e, In (k, e) m ->
       codes e = map Tracker.orderCode (accountResults rs k)
       /\ success e = List.length (filter isSuccess (accountResults rs k))
       /\ failure e = List.length (filter isFailure (accountResults rs k))
       /\ accountResults rs k <> [].

Lemma dedupe_snoc (l : list string) (x : string) :
  Tracker.dedupe (l ++ [x])
  = if Str.inList x (Tracker.dedupe l) then Tracker.dedupe l
    else (Tracker.dedupe l ++ [x])%list.
Proof. unfold Tracker.dedupe. now rewrite fold_left_app. Qed.

Lemma inList_keys (key : string) (m : AccountMap) :
  Str.inList key (map fst m) = has key m.
Proof.
  unfold Str.inList, has. induction m as [|[k e] m IH]; simpl; [reflexivity|].
  rewrite IH. now rewrite (String.eqb_sym key k).
Qed.

Lemma accountResults_snoc (rs : list Tracker.OrderResult)
      (r : Tracker.OrderResult) (k : string) :
  accountResults (rs ++ [r]) k
  = (accountResults rs k
     ++ (if String.eqb (Tracker.account r) k then [r] else []))%list.
Proof. unfold accountResults. rewrite filter_app. reflexivity. Qed.

Lemma accountResults_none (rs : list Tracker.OrderResult) (k : string) :
  ~ In k (map Tracker.account rs) -> accountResults rs k = [].
Proof.
  intros H. unfold accountResults.
  induction rs as [|r rs IH]; simpl; [reflexivity|].
  destruct (String.eqb (Tracker.account r) k) eqn:E.
  - apply String.eqb_eq in E. exfalso. apply H. now left.
  - apply IH. intros Hin. apply H. now right.
Qed.

Lemma addResult_inv (rs : list Tracker.OrderResult) (m : AccountMap)
      (r : Tracker.OrderResult) :
  mapInv rs m -> mapInv (rs ++ [r]) (addResult m r).
Proof.
  intros (K & ND & C). unfold addResult.
  set (key := Tracker.account r).
  set (f := fun stats : Entry =>
              match Tracker.status r with
              | Tracker.success =>
                  mkEntry (codes stats ++ [Tracker.orderCode r])
                          (S (success stats)) (failure stats)
              | Tracker.failure =>
                  mkEntry (codes stats ++ [Tracker.orderCode r])
                          (success stats) (S (failure stats))
              end).
  set (m1 := if has key m then m else (m ++ [(key, mkEntry [] 0 0)])%list).
  assert (K1 : map fst m1 = Tracker.dedupe (map Tracker.account (rs ++ [r]))).
  { rewrite map_app. simpl. rewrite dedupe_snoc, <- K, inList_keys.
    fold key. unfold m1. destruct (has key m); [reflexivity|].
    rewrite map_app. reflexivity. }
  assert (ND1 : NoDup (map fst m1)).
  { unfold m1. destruct (has key m) eqn:H; [exact ND|].
    rewrite map_app. simpl. apply NoDup_app; [exact ND|repeat constructor; intros []|].
    intros x Hx [<-|[]]. apply has_In in Hx. congruence. }
  assert (C1 : forall k e, In (k, e) m1 ->
             codes e = map Tracker.orderCode (accountResults rs k)
             /\ success e = List.length (filter isSuccess (accountResults rs k))
             /\ failure e = List.length (filter isFailure (accountResults rs k))
             /\ (k <> key -> accountResults rs k <> [])).
  { intros k e H. unfold m1 in H. destruct (has key m) eqn:Hk.
    - destruct (C k e H) as (c1 & c2 & c3 & c4). auto.
    - apply in_app_or in H. destruct H as [H|[H|[]]].
      + destruct (C k e H) as (c1 & c2 & c3 & c4). auto.
      + injection H as <- <-.
        assert (Hno : ~ In key (map Tracker.account rs)).
        { intros Hin. apply TrackerFacts.dedupe_In in Hin. rewrite <- K in Hin.
          apply has_In in Hin. congruence. }
        rewrite (accountResults_none rs key Hno). simpl.
        repeat split. congruence. }
  split; [now rewrite update_keys|]. split; [now rewrite update_keys|].
  intros k e H. apply (update_In key f m1 k e ND1) in H.
  rewrite accountResults_snoc. fold key.
  destruct H as [(-> & e0 & H & ->)|(Hne & H)].
  - rewrite String.eqb_refl.
    destruct (C1 key e0 H) as (c1 & c2 & c3 & _).
    rewrite map_app, !filter_app, !length_app.
    unfold f. cbn [filter map]. unfold isSuccess at 2, isFailure at 2.
    destruct (Tracker.status r); cbn [codes success failure List.length];
      rewrite c1, c2, c3;
      (split; [reflexivity|]); (split; [lia|]); (split; [lia|]);
      intros E; apply app_eq_nil in E; destruct E; discriminate.
  - replace (String.eqb key k) with false
      by (symmetry; apply String.eqb_neq; congruence).
    rewrite app_nil_r. destruct (C1 k e H) as (c1 & c2 & c3 & c4). auto.
Qed.

Lemma fold_inv (rs : list Tracker.OrderResult) :
  forall done m, mapInv done m ->
                 mapInv (done ++ rs) (fold_left addResult rs m).
Proof.
  induction rs as [|r rs IH]; intros done m Inv; simpl.
  - now rewrite app_nil_r.
  - replace (done ++ r :: rs)%list with ((done ++ [r]) ++ rs)%list
      by (rewrite <- app_assoc; reflexivity).
    apply IH. now apply addResult_inv.
Qed.

Lemma map_inv (rs : list Tracker.OrderResult) :
  mapInv rs (fold_left addResult rs []).
Proof.
  apply (fold_inv rs [] []). split; [reflexivity|].
  split; [constructor|intros k e []].
Qed.

Lemma toStats_account (m : AccountMap) :
  map account (map toStats m) = map fst m.
Proof.
  induction m as [|[k e] m IH]; simpl; [reflexivity|]. now rewrite IH.
Qed.

(** One entry per account.  [calculateAccountStats] returns one entry for
    each account name that occurs in the results, in the order in which
    the names first occur, and no name twice. *)
Theorem stats_one_entry_per_account :
  forall (results : list Tracker.OrderResult),
    let stats := calculateAccountStats results in
    map account stats = Tracker.dedupe (map Tracker.account results)
    /\ NoDup (map account stats)
    /\ forall name, In name (map account stats) <->
                    exists r, In r results /\ Tracker.account r = name.
Proof.
  intros results stats. destruct (map_inv results) as (K & ND & _).
  subst stats. unfold calculateAccountStats. rewrite toStats_account.
  split; [exact K|]. split; [exact ND|].
  intros name. rewrite K, TrackerFacts.dedupe_In, in_map_iff.
  split; intros (r & H1 & H2); exists r; auto.
Qed.

(** What an entry counts.  In every entry that [calculateAccountStats]
    returns, [orderCodes] lists the order codes of the account's results
    in their order, [successCount] and [failureCount] are the numbers of
    the account's results with status success and failure, [totalCount]
    is the number of the account's results and at least 1.  So the
    counts agree with the lists [displayStatistics] and
    [generateUnifiedReport] print next to them, and the report's filter
    [totalCount > 0] never drops an account, also not one whose orders all
    failed. *)
Theorem stats_entries_count_results :
  forall (results : list Tracker.OrderResult),
    let stats := calculateAccountStats results in
    (forall s, In s stats ->
       let own := accountResults results (account s) in
       orderCodes s = map Tracker.orderCode own
       /\ successCount s = List.length (filter isSuccess own)
       /\ failureCount s = List.length (filter isFailure own)
       /\ totalCount s = List.length own
       /\ totalCount s = (successCount s + failureCount s)%nat
       /\ (1 <= totalCount s)%nat)
    /\ successfulAccounts stats = stats.
Proof.
  intros results stats.
  assert (Count : forall l, List.length l
                            = (List.length (filter isSuccess l)
                               + List.length (filter isFailure l))%nat).
  { induction l as [|r l IH]; simpl; [reflexivity|].
    unfold isSuccess, isFailure in *. destruct (Tracker.status r); simpl; lia. }
  assert (Main : forall s, In s stats ->
             let own := accountResults results (account s) in
             orderCodes s = map Tracker.orderCode own
             /\ successCount s = List.length (filter isSuccess own)
             /\ failureCount s = List.length (filter isFailure own)
             /\ totalCount s = List.length own
             /\ totalCount s = (successCount s + failureCount s)%nat
             /\ (1 <= totalCount s)%nat).
  { intros s Hs own. destruct (map_inv results) as (_ & _ & C).
    subst stats. unfold calculateAccountStats in Hs.
    apply in_map_iff in Hs. destruct Hs as ([k e] & <- & Hin).
    destruct (C k e Hin) as (c1 & c2 & c3 & c4). subst own. simpl.
    rewrite c1, c2, c3. pose proof (Count (accountResults results k)) as L.
    assert (P : (1 <= List.length (accountResults results k))%nat).
    { destruct (accountResults results k); [congruence|simpl; lia]. }
    repeat split; lia. }
  split; [exact Main|].
  unfold successfulAccounts. apply forallb_filter_id.
  apply forallb_forall. intros s Hs.
  destruct (Main s Hs) as (_ & _ & _ & _ & _ & H). apply Nat.ltb_lt. lia.
Qed.

(** The totals add up.  Over the entries [calculateAccountStats]
    returns, the [totalCount]s sum to the number of results, and the
    [successCount]s and [failureCount]s sum to the numbers of results
    with status success and failure: the totals that [displayStatistics]
    and the report compute by filtering the results again. *)
Theorem stats_totals_add_up :
  forall (results : list Tracker.OrderResult),
    let stats := calculateAccountStats results in
    list_sum (map totalCount stats) = List.length results
    /\ list_sum (map successCount stats)
       = List.length (filter isSuccess results)
    /\ list_sum (map failureCount stats)
       = List.length (filter isFailure results).
Proof.
  intros results stats. subst stats. unfold calculateAccountStats.
  assert (Step : forall m r,
             let sum f := list_sum (map f (map toStats m)) in
             let sum' f := list_sum (map f (map toStats (addResult m r))) in
             sum' totalCount = S (sum totalCount)
             /\ sum' successCount
                = (sum successCount + if isSuccess r then 1 else 0)%nat
             /\ sum' failureCount
                = (sum failureCount + if isFailure r then 1 else 0)%nat).
  { intros m r. unfold addResult.
    set (key := Tracker.account r).
    assert (Upd : forall m0, has key m0 = true ->
               let f := fun stats : Entry =>
                          match Tracker.status r with
                          | Tracker.success =>
                              mkEntry (codes stats ++ [Tracker.orderCode r])
                                      (S (success stats)) (failure stats)
                          | Tracker.failure =>
                              mkEntry (codes stats ++ [Tracker.orderCode r])
                                      (success stats) (S (failure stats))
                          end in
               list_sum (map totalCount (map toStats (update key f m0)))
               = S (list_sum (map totalCount (map toStats m0)))
               /\ list_sum (map successCount (map toStats (update key f m0)))
                  = (list_sum (map successCount (map toStats m0))
                     + if isSuccess r then 1 else 0)%nat
               /\ list_sum (map failureCount (map toStats (update key f m0)))
                  = (list_sum (map failureCount (map toStats m0))
                     + if isFailure r then 1 else 0)%nat).
    { induction m0 as [|[k e] m0 IH]; simpl; [discriminate|].
      intros H. destruct (String.eqb k key) eqn:E; simpl.
      - unfold isSuccess, isFailure. destruct (Tracker.status r); simpl; lia.
      - simpl in H. destruct (IH H) as (I1 & I2 & I3).
        simpl in I1, I2, I3. rewrite I1, I2, I3. lia. }
    destruct (has key m) eqn:H.
    - exact (Upd m H).
    - assert (H' : has key (m ++ [(key, mkEntry [] 0 0)]) = true).
      { apply has_In. rewrite map_app. apply in_or_app. right. now left. }
      destruct (Upd _ H') as (U1 & U2 & U3). cbv zeta in *.
      rewrite U1, U2, U3. rewrite !map_app, !list_sum_app. simpl. lia. }
  assert (Loop : forall rs m,
             let sum f m := list_sum (map f (map toStats m)) in
             sum totalCount (fold_left addResult rs m)
             = (sum totalCount m + List.length rs)%nat
             /\ sum successCount (fold_left addResult rs m)
                = (sum successCount m + List.length (filter isSuccess rs))%nat
             /\ sum failureCount (fold_left addResult rs m)
                = (sum failureCount m + List.length (filter isFailure rs))%nat).
  { induction rs as [|r rs IH]; intros m; simpl; [lia|].
    destruct (IH (addResult m r)) as (I1 & I2 & I3).
    destruct (Step m r) as (S1 & S2 & S3). cbv zeta in *.
    rewrite I1, I2, I3, S1, S2, S3.
    unfold isSuccess, isFailure. destruct (Tracker.status r); simpl; lia. }
  destruct (Loop results []) as (L1 & L2 & L3). simpl in L1, L2, L3.
  auto.
Qed.

End StatsFacts.

(** ** Facts about the configured order codes *)
Module CodesFacts.
Import Codes.

Lemma collect_inv (l : list string) :
  forall acc,
    seenCodes acc = orderCodes acc ->
    NoDup (orderCodes acc) ->
    (forall c, In c (orderCodes acc) -> Tracker.normalize c = c /\ c <> "") ->
    let out := fold_left collectOne l acc in
    seenCodes out = orderCodes out
    /\ NoDup (orderCodes out)
    /\ (forall c, In c (orderCodes out) -> Tracker.normalize c = c /\ c <> "").
Proof.
  induction l as [|x l IH]; intros acc S ND N; simpl; [auto|].
  apply IH; unfold collectOne;
    destruct (Tracker.nonEmpty (Str.toUpperCase (Str.trim x))) eqn:E1;
    destruct (Str.inList (Str.toUpperCase (Str.trim x)) (seenCodes acc))
      eqn:E2; simpl; auto.
  - now rewrite S.
  - apply NoDup_app; [exact ND|repeat constructor; intros []|].
    intros c Hc [<-|[]].
    rewrite S in E2. apply TrackerFacts.inList_false in E2. contradiction.
  - intros c Hc. apply in_app_or in Hc. destruct Hc as [Hc|[<-|[]]]; [auto|].
    split; [apply NormalizeFacts.normalize_idem|].
    unfold Tracker.nonEmpty in E1. apply negb_true_iff in E1.
    now apply String.eqb_neq in E1.
Qed.

Lemma readOrderCodesFromFile_facts (captures : option (list string)) :
  NoDup (readOrderCodesFromFile captures)
  /\ forall c, In c (readOrderCodesFromFile captures) ->
               Tracker.normalize c = c /\ c <> "".
Proof.
  destruct captures as [l|]; simpl.
  - destruct (collect_inv l (mkCollected [] [])) as (_ & ND & N);
      simpl; auto; [constructor|intros c []].
  - split; [constructor|intros c []].
Qed.

(** The configured codes are distinct and in normal form.  Whatever
    the file and the list of [config.task] hold,
    [getOrderCodesFromConfig] returns no code twice, and every code it
    returns is trimmed and in upper case.  The codes
    [readOrderCodesFromFile] returns are never empty, so the result
    holds no empty code when no list is configured; a blank entry of the
    list gives an empty code.  The tracking that [testIntegrated] starts
    from a non-empty result has exactly these codes as its valid
    codes. *)
Theorem configured_codes_distinct_normal :
  forall (task : TaskConfig) (found : option (option (list string)))
         (g : Tracker.Globals),
    let codes := getOrderCodesFromConfig task found in
    NoDup codes
    /\ (forall c, In c codes -> Tracker.normalize c = c)
    /\ (configOrderCodes task = None -> forall c, In c codes -> c <> "")
    /\ (forall captures c,
          In c (readOrderCodesFromFile captures) -> c <> "")
    /\ (codes <> [] ->
        Tracker.orderCodeTracking (Tracker.initTracking codes g)
        = Some (Tracker.mkTracking codes [] [])).
Proof.
  intros task found g codes.
  assert (Norm : forall c, In c codes -> Tracker.normalize c = c).
  { intros c Hc. subst codes. unfold getOrderCodesFromConfig in Hc.
    apply (proj1 (TrackerFacts.dedupe_In _ _)) in Hc. apply in_app_or in Hc.
    destruct Hc as [Hc|Hc].
    - destruct (fileConfigured task); [|destruct Hc].
      destruct found as [captures|]; [|destruct Hc].
      now apply (proj2 (readOrderCodesFromFile_facts captures)).
    - destruct (configOrderCodes task) as [[|c0 l]|];
        [destruct Hc| |destruct Hc].
      apply in_map_iff in Hc. destruct Hc as (x & <- & _).
      apply NormalizeFacts.normalize_idem. }
  split; [apply RunMore.dedupe_NoDup|]. split; [exact Norm|].
  split; [|split].
  - intros E c Hc. subst codes. unfold getOrderCodesFromConfig in Hc.
    rewrite E, app_nil_r in Hc. apply (proj1 (TrackerFacts.dedupe_In _ _)) in Hc.
    destruct (fileConfigured task); [|destruct Hc].
    destruct found as [captures|]; [|destruct Hc].
    now apply (proj2 (readOrderCodesFromFile_facts captures)).
  - intros captures c Hc.
    now apply (proj2 (readOrderCodesFromFile_facts captures)).
  - intros Hne. unfold Tracker.initTracking.
    destruct codes as [|c l] eqn:E; [congruence|]. simpl.
    rewrite (Norm c (or_introl eq_refl)).
    replace (map Tracker.normalize l) with l; [reflexivity|].
    symmetry. rewrite <- (map_id l) at 2. apply map_ext_in.
    intros a Ha. apply Norm. now right.
Qed.

End CodesFacts.

(** ** Facts about the command line *)
Module CliFacts.
Import Cli.

(** The characters of a string. *)
Definition chars (s : string) : list ascii := list_ascii_of_string s.

Lemma trimStart_chars (s : string) (c : ascii) :
  In c (chars (Str.trimStart s)) -> In c (chars s).
Proof.
  induction s as [|d s IH]; simpl; [auto|].
  destruct (Str.isSpace d); [intros H; right; exact (IH H)|exact (fun H => H)].
Qed.

Lemma trimEnd_chars (s : string) (c : ascii) :
  In c (chars (Str.trimEnd s)) -> In c (chars s).
Proof.
  induction s as [|d s IH]; simpl; [auto|].
  destruct (Str.trimEnd s) as [|e t].
  - destruct (Str.isSpace d); simpl; [intros []|intros [H|[]]; now left].
  - simpl. intros [H|H]; [now left|right; apply IH; exact H].
Qed.

Lemma trim_chars (s : string) (c : ascii) :
  In c (chars (Str.trim s)) -> In c (chars s).
Proof. intros H. apply trimStart_chars, trimEnd_chars, H. Qed.

Lemma split_cons (sep : ascii) (s : string) :
  exists w ws, split sep s = w :: ws.
Proof.
  induction s as [|c s (w & ws & E)]; simpl; [eauto|].
  destruct (Ascii.eqb c sep); [eauto|]. rewrite E. eauto.
Qed.

Lemma split_chars (sep : ascii) (s w : string) (c : ascii) :
  In w (split sep s) -> In c (chars w) -> In c (chars s) /\ c <> sep.
Proof.
  revert w. induction s as [|d s IH]; simpl; intros w Hw Hc.
  - destruct Hw as [<-|[]]. destruct Hc.
  - destruct (Ascii.eqb d sep) eqn:E.
    + destruct Hw as [<-|Hw]; [destruct Hc|].
      destruct (IH w Hw Hc) as (H1 & H2). auto.
    + apply Ascii.eqb_neq in E.
      destruct (split_cons sep s) as (w0 & ws & Es). rewrite Es in *.
      destruct Hw as [<-|Hw].
      * destruct Hc as [<-|Hc]; [auto|].
        destruct (IH w0 (or_introl eq_refl) Hc) as (H1 & H2). auto.
      * destruct (IH w (or_intror Hw) Hc) as (H1 & H2). auto.
Qed.

Lemma valueOf_chars (arg value : string) :
  valueOf arg = Some value ->
  value <> "" /\ Str.trim value = value /\ ~ In "="%char (chars value).
Proof.
  unfold valueOf. destruct (nth_error (split "=" arg) 1) as [v|] eqn:E;
    [|discriminate].
  destruct (Tracker.nonEmpty (Str.trim v)) eqn:N; [|discriminate].
  intros H. injection H as <-.
  split; [|split].
  - unfold Tracker.nonEmpty in N. apply negb_true_iff in N.
    now apply String.eqb_neq in N.
  - apply NormalizeFacts.trim_idem.
  - intros Hin. apply trim_chars in Hin. apply nth_error_In in E.
    destruct (split_chars "=" arg v "=" E Hin) as (_ & Hne). congruence.
Qed.

(** The account names of the command line are clean.  When
    [getCliAccountsArg] returns a list, the list is not empty, and every
    name in it is non-empty, has no white space at either end, and holds
    neither a comma nor an equals sign; the list comes from the first
    argument that starts with [--accounts=] or [--account=], the one
    [args.find] returns, and is what that argument gives on its own. *)
Theorem cli_account_names_are_clean :
  forall (args : list string) (accounts : list string),
    getCliAccountsArg args = Some accounts ->
    accounts <> []
    /\ (forall a, In a accounts ->
          a <> ""
          /\ Str.trim a = a
          /\ ~ In ","%char (chars a)
          /\ ~ In "="%char (chars a))
    /\ exists arg, find (fun a => (startsWith a "--accounts="
                                   || startsWith a "--account=")%bool)
                         args = Some arg
                   /\ In arg args
                   /\ (startsWith arg "--accounts=" = true
                       \/ startsWith arg "--account=" = true)
                   /\ getCliAccountsArg [arg] = Some accounts.
Proof.
  intros args accounts. unfold getCliAccountsArg.
  destruct (find _ args) as [arg|] eqn:F; [|discriminate].
  destruct (valueOf arg) as [value|] eqn:V; [|discriminate].
  destruct (valueOf_chars arg value V) as (_ & _ & NoEq).
  set (l := filter _ _).
  destruct (Nat.ltb 0 (List.length l)) eqn:L; [|discriminate].
  intros H. injection H as <-.
  split; [|split].
  - intros E. rewrite E in L. discriminate.
  - intros a Ha. subst l. apply filter_In in Ha. destruct Ha as (Ha & Hl).
    apply in_map_iff in Ha. destruct Ha as (w & <- & Hw).
    split; [|split; [|split]].
    + intros E. rewrite E in Hl. discriminate.
    + apply NormalizeFacts.trim_idem.
    + intros Hin. apply trim_chars in Hin.
      destruct (split_chars "," value w "," Hw Hin) as (_ & Hne). congruence.
    + intros Hin. apply trim_chars in Hin.
      destruct (split_chars "," value w "=" Hw Hin) as (Hv & _). auto.
  - apply find_some in F. destruct F as (Hin & P).
    exists arg. split; [reflexivity|]. split; [exact Hin|]. split.
    + apply orb_true_iff in P. exact P.
    + simpl. rewrite P, V. fold l. rewrite L. reflexivity.
Qed.

(** [--accounts= Main , ,second=x] names the accounts [Main] and
    [second]. *)
Lemma cli_account_names_are_clean_witness :
  getCliAccountsArg ["--setup"; "--accounts= Main , ,second"; "--account=z"]
  = Some ["Main"; "second"]
  /\ ["Main"; "second"] <> [].
Proof.
  split; [reflexivity|].
  exact (proj1 (cli_account_names_are_clean
                  ["--setup"; "--accounts= Main , ,second"; "--account=z"]
                  ["Main"; "second"] eq_refl)).
Defined.

(** The date of the command line is well formed.  When [getCliDateArg]
    returns a value, it has ten characters, a hyphen as the fifth and the
    eighth and decimal digits elsewhere, and it is the trimmed text
    between the first and the second equals sign of the first argument
    that starts with [--date=]. *)
Theorem cli_date_is_well_formed :
  forall (args : list string) (value : string),
    getCliDateArg args = Some value ->
    String.length value = 10%nat
    /\ (forall i c, nth_error (chars value) i = Some c ->
          if (Nat.eqb i 4 || Nat.eqb i 7)%bool then c = "-"%char
          else isDigit c = true)
    /\ exists arg, find (fun a => startsWith a "--date=") args = Some arg
                   /\ valueOf arg = Some value.
Proof.
  intros args value. unfold getCliDateArg.
  destruct (find _ args) as [arg|] eqn:F; [|discriminate].
  destruct (valueOf arg) as [v|] eqn:V; [|discriminate].
  destruct (isDate v) eqn:D; [|discriminate].
  intros H. injection H as <-.
  split; [|split].
  - unfold isDate in D. rewrite <- (string_of_list_ascii_of_string v).
    destruct (list_ascii_of_string v)
      as [|y1 [|y2 [|y3 [|y4 [|s1 [|m1 [|m2 [|s2 [|d1 [|d2 [|x l]]]]]]]]]]];
      try discriminate.
    reflexivity.
  - unfold isDate in D. unfold chars.
    destruct (list_ascii_of_string v)
      as [|y1 [|y2 [|y3 [|y4 [|s1 [|m1 [|m2 [|s2 [|d1 [|d2 [|x l]]]]]]]]]]];
      try discriminate.
    do 9 (apply andb_true_iff in D; destruct D as (D & ?)).
    intros i c Hi.
    do 10 (destruct i as [|i];
           [simpl in Hi; injection Hi as <-; simpl;
            first [assumption|apply Ascii.eqb_eq; assumption]|]).
    destruct i; discriminate.
  - exists arg. auto.
Qed.

Lemma cli_date_is_well_formed_witness :
  getCliDateArg ["--date= 2026-01-28 =x"; "--date=2026-02-01"]
  = Some "2026-01-28"
  /\ String.length "2026-01-28" = 10%nat.
Proof.
  split; [reflexivity|].
  exact (proj1 (cli_date_is_well_formed
                  ["--date= 2026-01-28 =x"; "--date=2026-02-01"]
                  "2026-01-28" eq_refl)).
Defined.

(** The account filter splits the request.  With account names given
    on the command line, [testIntegrated] exits when no configured
    account has one of the names, compared without regard to the case of
    ASCII letters.  Otherwise it processes exactly the configured
    accounts that have one of the names, and the names it warns about
    are exactly the requested names that no configured account has. *)
Theorem account_filter_splits_request :
  forall (cli : list string) (accounts : list Run.Account),
    let lower := Str.toLowerCase in
    match selectAccounts (Some cli) accounts with
    | Exit1 =>
        forall a c, In a accounts -> In c cli ->
                    lower c <> lower (Run.username a)
    | Selected accountsToProcess notFound =>
        accountsToProcess <> []
        /\ (forall a, In a accountsToProcess <->
                      In a accounts
                      /\ exists c, In c cli
                                   /\ lower c = lower (Run.username a))
        /\ (forall c, In c notFound <->
                      In c cli
                      /\ forall a, In a accounts ->
                                   lower (Run.username a) <> lower c)
    end.
Proof.
  intros cli accounts lower. unfold selectAccounts.
  set (p := fun account : Run.Account =>
              Str.inList (Str.toLowerCase (Run.username account))
                         (map Str.toLowerCase cli)).
  assert (P : forall a, p a = true <->
                        exists c, In c cli
                                  /\ lower c = lower (Run.username a)).
  { intros a. unfold p. rewrite TrackerFacts.inList_In, in_map_iff.
    split; intros (c & H1 & H2); exists c; auto. }
  assert (Sel : forall a, In a (filter p accounts) <->
                          In a accounts
                          /\ exists c, In c cli
                                       /\ lower c = lower (Run.username a)).
  { intros a. rewrite filter_In, P. reflexivity. }
  destruct (filter p accounts) as [|a0 rest] eqn:E.
  - intros a c Ha Hc Heq.
    destruct (proj2 (Sel a) (conj Ha (ex_intro _ c (conj Hc Heq)))).
  - split; [discriminate|]. split; [exact Sel|].
    intros c. rewrite filter_In, negb_true_iff, TrackerFacts.inList_false.
    rewrite in_map_iff. split.
    + intros (Hc & Hno). split; [exact Hc|].
      intros a Ha Heq. apply Hno. exists a. split; [exact Heq|].
      apply Sel. split; [exact Ha|]. exists c. auto.
    + intros (Hc & Hno). split; [exact Hc|].
      intros (a & Heq & Ha). apply Sel in Ha. destruct Ha as (Ha & _).
      exact (Hno a Ha Heq).
Qed.

End CliFacts.

(** ** Facts about the log file *)
Module LogFacts.
Import LogFile.

(** The line written for an entry. *)
Definition lineOf (path entry : string) : string * string :=
  (path, (entry ++ String "010" "")%string).

(** The entries [processLogQueue] tries to write. *)
Definition wanted (entries : list string) : list string :=
  filter Tracker.nonEmpty entries.

(** What has happened after the entries [done], with the handle opened
    at [path]. *)
Definition logInv (fails : nat -> bool) (path : string) (done : list string)
           (st : LogState) : Prop :=
  logQueue st = []
  /\ logWriting st = false
  /\ exists k,
      appended st = map (lineOf path) (firstn k (wanted done))
      /\ (forall n, (n < k)%nat -> fails n = false)
      /\ ((logFileHandle st = Some path
           /\ k = List.length (wanted done)
           /\ appendCalls st = k)
          \/ (logFileHandle st = None
              /\ (k < List.length (wanted done))%nat
              /\ fails k = true
              /\ appendCalls st = S k)).

Lemma wanted_snoc (l : list string) (x : string) :
  wanted (l ++ [x])
  = (wanted l ++ if Tracker.nonEmpty x then [x] else [])%list.
Proof. unfold wanted. rewrite filter_app. reflexivity. Qed.

Lemma write_inv (fails : nat -> bool) (path : string) (done : list string)
      (st : LogState) (x : string) :
  path <> "" ->
  logInv fails path done st ->
  logInv fails path (done ++ [x]) (writeLogToFile fails st x).
Proof.
  intros Hp (Q & W & k & A & F & [(H & K & C)|(H & K & Fk & C)]).
  - assert (Np : Tracker.nonEmpty path = true).
    { unfold Tracker.nonEmpty. apply negb_true_iff.
      now apply String.eqb_neq. }
    unfold writeLogToFile, handleSet. rewrite H, Np. cbn [logWriting].
    rewrite W. unfold processLogQueue.
    cbn [logWriting logQueue logFileHandle appended appendCalls].
    rewrite Q. cbn [app List.length Nat.eqb orb drain].
    unfold writable. cbn [logFileHandle]. rewrite Np.
    unfold logInv. rewrite wanted_snoc.
    destruct (Tracker.nonEmpty x) eqn:Nx.
    + cbn [appendCalls appended]. rewrite C.
      destruct (fails k) eqn:Fk.
      * cbn [logFileHandle logQueue logWriting appended appendCalls].
        split; [reflexivity|]. split; [reflexivity|].
        exists k. rewrite K at 1. rewrite firstn_app, Nat.sub_diag, firstn_all.
        cbn [firstn]. rewrite app_nil_r. rewrite K, firstn_all in A.
        split; [exact A|]. split; [exact F|]. right.
        rewrite length_app. cbn [List.length].
        repeat split; [lia|exact Fk].
      * cbn [drain logFileHandle logQueue logWriting appended appendCalls].
        split; [reflexivity|]. split; [reflexivity|].
        exists (S k). rewrite K, firstn_all in A.
        replace (S k) with (List.length (wanted done ++ [x]))
          by (rewrite length_app; cbn [List.length]; lia).
        rewrite firstn_all, map_app, A. cbn [map].
        split; [reflexivity|]. split.
        -- intros n Hn. rewrite length_app in Hn. cbn [List.length] in Hn.
           destruct (Nat.eq_dec n k) as [->|Hne]; [exact Fk|].
           apply F. lia.
        -- left. repeat split; rewrite ?length_app; cbn [List.length]; lia.
    + cbn [drain logFileHandle logQueue logWriting appended appendCalls].
      split; [reflexivity|]. split; [reflexivity|].
      exists k. rewrite app_nil_r. split; [exact A|]. split; [exact F|].
      left. auto.
  - unfold writeLogToFile, handleSet. rewrite H.
    split; [exact Q|]. split; [exact W|].
    exists k. rewrite wanted_snoc, firstn_app.
    replace (k - List.length (wanted done))%nat with 0%nat by lia.
    cbn [firstn]. rewrite app_nil_r.
    split; [exact A|]. split; [exact F|]. right.
    rewrite length_app. split; [exact H|]. split; [lia|].
    split; [exact Fk|exact C].
Qed.

Lemma writes_inv (fails : nat -> bool) (path : string) (entries : list string) :
  path <> "" ->
  logInv fails path entries
         (fold_left (writeLogToFile fails) entries (opened path)).
Proof.
  intros Hp. induction entries as [|x l IH] using rev_ind.
  - simpl. split; [reflexivity|]. split; [reflexivity|].
    exists 0%nat. split; [reflexivity|]. split; [lia|]. left. auto.
  - rewrite fold_left_app. simpl. now apply write_inv.
Qed.

(** A failed write turns file logging off.  After any sequence of
    [writeLogToFile] calls on a log file opened at [path], the queue is
    empty and the file holds one line for each of the first [k]
    non-empty entries, in their order.  Either every entry was written
    and the handle is unchanged, or write number [k] raised: then the
    handle is [null], that entry and every later one are dropped, and
    [appendFileSync] is not called again.  If no write raises, every
    non-empty entry is in the file. *)
Theorem log_stops_at_first_failed_write :
  forall (fails : nat -> bool) (path : string) (entries : list string),
    path <> "" ->
    let st := fold_left (writeLogToFile fails) entries (opened path) in
    logQueue st = []
    /\ logWriting st = false
    /\ (exists k,
          appended st = map (lineOf path) (firstn k (wanted entries))
          /\ (forall n, (n < k)%nat -> fails n = false)
          /\ ((logFileHandle st = Some path
               /\ k = List.length (wanted entries)
               /\ appendCalls st = k)
              \/ (logFileHandle st = None
                  /\ (k < List.length (wanted entries))%nat
                  /\ fails k = true
                  /\ appendCalls st = S k)))
    /\ ((forall n, fails n = false) ->
        appended st = map (lineOf path) (wanted entries)
        /\ logFileHandle st = Some path).
Proof.
  intros fails path entries Hp st.
  destruct (writes_inv fails path entries Hp) as (Q & W & k & A & F & D).
  fold st in Q, W, A, D.
  split; [exact Q|]. split; [exact W|]. split.
  - exists k. auto.
  - intros Hf. destruct D as [(H & K & C)|(H & K & Fk & C)].
    + rewrite K, firstn_all in A. auto.
    + rewrite Hf in Fk. discriminate.
Qed.

(** Three entries with the second write failing: only the first line is
    in the file and the handle is gone. *)
Lemma log_stops_at_first_failed_write_witness :
  let st := fold_left (writeLogToFile (Nat.eqb 1)) ["a"; "b"; "c"]
                      (opened "logs/bot.log") in
  "logs/bot.log" <> ""
  /\ logQueue st = []
  /\ appended st = [lineOf "logs/bot.log" "a"]
  /\ logFileHandle st = None.
Proof.
  assert (Hp : "logs/bot.log" <> "") by discriminate.
  split; [exact Hp|].
  split; [|split; reflexivity].
  exact (proj1 (log_stops_at_first_failed_write (Nat.eqb 1) "logs/bot.log"
                  ["a"; "b"; "c"] Hp)).
Defined.

End LogFacts.

(** ** Facts about the HTTP interface *)
Module ServerFacts.
Import Server.

(** The string holds no space. *)
Definition noSpace (s : string) : Prop :=
  ~ In " "%char (list_ascii_of_string s).

Lemma split_word (sep : ascii) (w : string) :
  ~ In sep (list_ascii_of_string w) -> Cli.split sep w = [w].
Proof.
  induction w as [|c w IH]; simpl; [reflexivity|]. intros H.
  destruct (Ascii.eqb c sep) eqn:E.
  - apply Ascii.eqb_eq in E. exfalso. apply H. now left.
  - rewrite IH; [reflexivity|]. intros Hin. apply H. now right.
Qed.

Lemma split_first (sep : ascii) (w rest : string) :
  ~ In sep (list_ascii_of_string w) ->
  Cli.split sep (w ++ String sep rest)%string = w :: Cli.split sep rest.
Proof.
  induction w as [|c w IH]; simpl; intros H.
  - now rewrite Ascii.eqb_refl.
  - destruct (Ascii.eqb c sep) eqn:E.
    + apply Ascii.eqb_eq in E. exfalso. apply H. now left.
    + rewrite IH; [reflexivity|]. intros Hin. apply H. now right.
Qed.

Lemma split_first_word (sep : ascii) (s w : string) (ws : list string) :
  Cli.split sep s = w :: ws -> ~ In sep (list_ascii_of_string w).
Proof.
  intros E Hin.
  assert (Hw : In w (Cli.split sep s)) by (rewrite E; now left).
  destruct (CliFacts.split_chars sep s w sep Hw Hin) as (_ & Hne). congruence.
Qed.

Lemma nonEmpty_true (s : string) : Tracker.nonEmpty s = true <-> s <> "".
Proof.
  unfold Tracker.nonEmpty. rewrite negb_true_iff. apply String.eqb_neq.
Qed.

Lemma append_empty (s : string) : (s ++ "")%string = s.
Proof. induction s as [|c s IH]; simpl; [reflexivity|now rewrite IH]. Qed.

(** The header [scheme t] or [scheme t more]. *)
Definition header (scheme t : string) (more : option string) : string :=
  (scheme ++ String " " (t ++ match more with
                              | Some m => String " " m
                              | None => ""
                              end))%string.

Lemma headerToken_word (scheme t : string) (more : option string) :
  noSpace scheme -> noSpace t -> t <> "" ->
  headerToken (Some (header scheme t more)) = Some t.
Proof.
  intros Hs Ht Hne. unfold headerToken, header.
  assert (N : forall x, Tracker.nonEmpty (scheme ++ String " " x)%string
                        = true).
  { intros x. apply nonEmpty_true. destruct scheme; discriminate. }
  rewrite N, (split_first " " scheme _ Hs). cbn [nth_error].
  destruct more as [m|].
  - rewrite (split_first " " t m Ht).
    now rewrite (proj2 (nonEmpty_true t) Hne).
  - rewrite append_empty, (split_word " " t Ht).
    now rewrite (proj2 (nonEmpty_true t) Hne).
Qed.

Lemma headerToken_noSpace (authHeader : option string) (t : string) :
  headerToken authHeader = Some t -> noSpace t /\ t <> "".
Proof.
  unfold headerToken. destruct authHeader as [h|]; [|discriminate].
  destruct (Tracker.nonEmpty h); [|discriminate].
  destruct (Cli.split " " h) as [|w [|w2 ws]] eqn:E; try discriminate.
  cbn [nth_error]. destruct (Tracker.nonEmpty w2) eqn:N; [|discriminate].
  intros H. injection H as <-. split; [|now apply nonEmpty_true].
  intros Hin.
  assert (Hw : In w2 (Cli.split " " h)) by (rewrite E; right; now left).
  destruct (CliFacts.split_chars " " h w2 " " Hw Hin) as (_ & Hne).
  congruence.
Qed.

(** Only the second word of the header counts.  [authenticateToken]
    answers 401 when the [authorization] header is missing or holds no
    space.  For a header of two or more words separated by single
    spaces it lets the request pass exactly when the second word is the
    [token] of a configured token, and answers 403 otherwise, whatever
    the first word (the scheme) and the later words are.  So a
    configured token that holds a space or is empty never lets a request
    pass. *)
Theorem auth_reads_second_word_only :
  forall (validTokens : list Token),
    let missing :=
      Respond 401 (createApiResponse false "Authentication failed"
                     (Some "Missing authentication token") []) in
    let invalid :=
      Respond 403 (createApiResponse false "Authentication failed"
                     (Some "Invalid token") []) in
    authenticateToken validTokens None = missing
    /\ (forall h, noSpace h ->
          authenticateToken validTokens (Some h) = missing)
    /\ (forall scheme t more,
          noSpace scheme -> noSpace t -> t <> "" ->
          authenticateToken validTokens (Some (header scheme t more))
          = if existsb (fun v => String.eqb (token v) t) validTokens
            then Next else invalid)
    /\ (forall authHeader,
          authenticateToken validTokens authHeader = Next ->
          exists v, In v validTokens
                    /\ noSpace (token v) /\ token v <> ""
                    /\ headerToken authHeader = Some (token v)).
Proof.
  intros validTokens missing invalid.
  split; [reflexivity|]. split; [|split].
  - intros h Hh. unfold authenticateToken, headerToken.
    rewrite (split_word " " h Hh). cbn [nth_error].
    destruct (Tracker.nonEmpty h); reflexivity.
  - intros scheme t more Hs Ht Hne. unfold authenticateToken.
    rewrite (headerToken_word scheme t more Hs Ht Hne).
    destruct (find _ validTokens) as [v|] eqn:F.
    + apply find_some in F. destruct F as (Hin & E).
      replace (existsb _ validTokens) with true; [reflexivity|].
      symmetry. apply existsb_exists. exists v. auto.
    + replace (existsb _ validTokens) with false; [reflexivity|].
      symmetry. apply not_true_is_false. intros H.
      apply existsb_exists in H. destruct H as (v & Hin & E).
      pose proof (find_none _ _ F v Hin) as Hn. cbv beta in Hn. congruence.
  - intros authHeader. unfold authenticateToken.
    destruct (headerToken authHeader) as [t|] eqn:E; [|discriminate].
    destruct (find _ validTokens) as [v|] eqn:F; [|discriminate].
    intros _. apply find_some in F. destruct F as (Hin & Eq).
    apply String.eqb_eq in Eq. subst t.
    destruct (headerToken_noSpace authHeader (token v) E) as (H1 & H2).
    exists v. auto.
Qed.

(** The timers that are set, as [taskInterval] tells. *)
Definition timerOf (st : ServerState) : list nat :=
  match taskInterval st with
  | Some t => [t]
  | None => []
  end.

(** The number of immediate runs. *)
Definition immediateRuns (l : list RunKind) : nat :=
  List.length (filter (fun k => match k with Immediate => true | _ => false end)
                      l).

Definition serverInv (st : ServerState) : Prop :=
  timers st = timerOf st
  /\ (forall t, In t (timers st) -> (t < nextTimer st)%nat)
  /\ immediateRuns (runs st) = nextTimer st.

Lemma immediateRuns_snoc (l : list RunKind) (k : RunKind) :
  immediateRuns (l ++ [k])
  = (immediateRuns l + match k with Immediate => 1 | _ => 0 end)%nat.
Proof.
  unfold immediateRuns. rewrite filter_app, length_app.
  destruct k; reflexivity.
Qed.

Lemma step_inv (checkInterval : Z) (validTokens : list Token)
      (st : ServerState) (e : ServerEvent) :
  serverInv st -> serverInv (snd (step checkInterval validTokens st e)).
Proof.
  intros (T & B & R). unfold timerOf in T.
  destruct e as [route authHeader result|t]; simpl.
  - destruct (authenticateToken validTokens authHeader);
      [|split; [exact T|split; [exact B|exact R]]].
    destruct route; simpl.
    + unfold startPeriodicTask.
      destruct (taskInterval st) as [t|] eqn:E; simpl.
      * unfold serverInv, timerOf. rewrite E. auto.
      * unfold serverInv, timerOf. simpl. rewrite T. simpl.
        split; [reflexivity|]. split; [intros t [<-|[]]; lia|].
        rewrite immediateRuns_snoc. lia.
    + unfold stopPeriodicTask.
      destruct (taskInterval st) as [t|] eqn:E; simpl.
      * unfold serverInv, timerOf. simpl. rewrite T. simpl.
        rewrite Nat.eqb_refl. simpl.
        split; [reflexivity|]. split; [intros t0 []|exact R].
      * unfold serverInv, timerOf. rewrite E. auto.
    + assert (I : serverInv
                    (mkServerState (taskInterval st) (timers st)
                                   (nextTimer st) (runs st ++ [Manual]))).
      { unfold serverInv, timerOf. simpl. split; [exact T|].
        split; [exact B|]. rewrite immediateRuns_snoc. lia. }
      destruct (Task.taskError result) as [err|];
        [destruct (Tracker.nonEmpty err)|]; exact I.
  - destruct (existsb (Nat.eqb t) (timers st)) eqn:X; simpl.
    + unfold serverInv, timerOf. simpl. split; [exact T|].
      split; [exact B|]. rewrite immediateRuns_snoc. lia.
    + unfold serverInv, timerOf. auto.
Qed.

Lemma serve_inv (checkInterval : Z) (validTokens : list Token)
      (events : list ServerEvent) :
  forall acc st,
    serverInv st ->
    serverInv
      (snd (fold_left
              (fun acc e =>
                 let (out, st') :=
                   step checkInterval validTokens (snd acc) e in
                 (match out with
                  | Some r => (fst acc ++ [r])%list
                  | None => fst acc
                  end, st'))
              events (acc, st))).
Proof.
  induction events as [|e l IH]; intros acc st I; simpl; [exact I|].
  pose proof (step_inv checkInterval validTokens st e I) as I'.
  destruct (step checkInterval validTokens st e) as [out st'].
  apply IH. exact I'.
Qed.

(** At most one periodic timer.  After any sequence of requests and
    timer callbacks on the listening server, the interval timers that
    are set are exactly the one [taskInterval] holds, if it holds one:
    requests to [/task/start] never leave two timers behind.  Every
    timer set was followed by one immediate run.  While [taskInterval]
    is [null], no timer callback starts a run; while it is set, an
    authenticated [/task/start] is answered 400 and changes nothing. *)
Theorem server_keeps_one_timer :
  forall (checkInterval : Z) (validTokens : list Token)
         (events : list ServerEvent),
    let st := snd (serve checkInterval validTokens events listening) in
    timers st = timerOf st
    /\ (List.length (timers st) <= 1)%nat
    /\ immediateRuns (runs st) = nextTimer st
    /\ (taskInterval st = None ->
        forall t, step checkInterval validTokens st (TimerDue t) = (None, st))
    /\ (taskInterval st <> None ->
        forall authHeader result,
          authenticateToken validTokens authHeader = Next ->
          step checkInterval validTokens st
               (Request TaskStart authHeader result)
          = (Some (400, createApiResponse false "Task already running"
                          (Some "Periodic task is already active") []),
             st)).
Proof.
  intros checkInterval validTokens events st.
  assert (I : serverInv st).
  { apply serve_inv. unfold serverInv, timerOf. simpl.
    split; [reflexivity|]. split; [intros t []|reflexivity]. }
  destruct I as (T & B & R).
  split; [exact T|]. split; [|split; [exact R|split]].
  - rewrite T. unfold timerOf. destruct (taskInterval st); simpl; lia.
  - intros E t. simpl. rewrite T. unfold timerOf. rewrite E. reflexivity.
  - intros E authHeader result A. simpl. rewrite A.
    destruct (taskInterval st) as [t|] eqn:Et; [reflexivity|congruence].
Qed.

End ServerFacts.
